(** * FLUX payment agent: scheduling and retry orchestration

    A shallow embedding of [PaymentAgent] (agent/PaymentAgent.ts) and of the
    configuration object it imports (agent/config.ts).

    The agent is a TypeScript class whose methods are [async] functions that
    mutate two private fields ([isProcessing], [retryQueue]) and talk to the
    outside (the Payroll contract, the JSON-RPC provider, the webhook
    endpoint, the console).  The embedding is a state-and-completion monad:
    - the private fields are the record [PaymentAgent];
    - the outside is an abstract world [W] together with a [Gateway] of
      functions [W -> result A * W], one per external call, so that every
      theorem quantifies over every behaviour of the contract, the provider
      and the webhook endpoint;
    - a statement finishes with a JavaScript completion: normally, by
      [return], by [continue] or by a thrown error;
    - what the agent does to the outside (requests issued, webhook posts,
      console lines) is collected as a list of [Event]s.

    The function of a method runs it to completion, and sequences of
    methods ([run_ops]) run each method to completion before the next one
    starts (no interleaving of two timer callbacks at an [await]).  What
    holds while a scan tick is suspended at an [await] is stated on the
    method with its awaits marked ([Prog]) and run under an observer
    ([observe]) that records the agent's fields at each await and lets
    other code change the state there. *)

From Stdlib Require Import ZArith List String Ascii Bool Lia.
From Stdlib Require Import DecimalString DecimalPos DecimalZ SpecFloat.
Import ListNotations.

Open Scope string_scope.
Open Scope list_scope.
Open Scope Z_scope.

(** ** JavaScript values used by the agent *)

(** A thrown value; the agent only ever prints it or reads its message
    ([error instanceof Error ? error.message : String(error)]). *)
Definition Error := string.

(** Outcome of an awaited promise. *)
Inductive result (A : Type) : Type :=
| Resolved (a : A)
| Rejected (e : Error).
Arguments Resolved {A} a.
Arguments Rejected {A} e.

(** Truthiness of a string: every string but the empty one. *)
Definition truthy (s : string) : bool := negb (s =? EmptyString)%string.

(** [bigint.toString()]: the decimal numeral. *)
Definition toString (z : Z) : string := NilZero.string_of_int (Z.to_int z).

(** [BigInt(s)] on decimal numerals, the only strings the agent applies it
    to (keys of [retryQueue], written by [toString]); [None] is the
    SyntaxError. *)
Definition BigInt (s : string) : option Z :=
  option_map Z.of_int (NilZero.int_of_string s).

(** [Number(b)] for a bigint [b], and the result of [+] and [-] on two
    integer-valued doubles whose exact result is [x]: [x] rounded to the
    nearest double, ties to even.  Exact below 2^53; the magnitudes met here
    (sums of two uint256) are far below the overflow threshold 2^1024. *)
Definition round_f64 (x : Z) : Z :=
  let a := Z.abs x in
  if a <? 2 ^ 53 then x
  else
    let e := Z.log2 a - 52 in
    let q := a / 2 ^ e in
    let r := a mod 2 ^ e in
    let half := 2 ^ (e - 1) in
    let q' := if (half <? r) || ((r =? half) && Z.odd q) then q + 1 else q in
    Z.sgn x * (q' * 2 ^ e).

Definition Number (b : Z) : Z := round_f64 b.

Arguments round_f64 : simpl never.
Arguments Number : simpl never.

(** ** [Map<string, number>] with insertion order *)

Module JsMap.

Definition t := list (string * Z).

Definition empty : t := [].

Fixpoint get (k : string) (m : t) : option Z :=
  match m with
  | [] => None
  | (k', v) :: m' => if (k' =? k)%string then Some v else get k m'
  end.

(** [set] overwrites in place when the key is present and appends otherwise. *)
Fixpoint set (k : string) (v : Z) (m : t) : t :=
  match m with
  | [] => [(k, v)]
  | (k', v') :: m' =>
      if (k' =? k)%string then (k', v) :: m' else (k', v') :: set k v m'
  end.

Fixpoint delete (k : string) (m : t) : t :=
  match m with
  | [] => []
  | (k', v') :: m' =>
      if (k' =? k)%string then delete k m' else (k', v') :: delete k m'
  end.

Definition size (m : t) : Z := Z.of_nat (List.length m).

Definition keys (m : t) : list string := map fst m.

(** A map holds each key once. *)
Definition wf (m : t) : Prop := NoDup (keys m).

End JsMap.

(** ** config.ts *)

(** [parseInt] yields a number or NaN ([None]); [parseFloat] a double. *)
Record Config : Type := {
  rpcUrl : option string;
  payrollContractAddress : string;
  privateKey : string;
  webhookUrl : string;
  lowBalanceThreshold : string;
  checkInterval : option Z;
  retryLimit : option Z;
  gasLimitBuffer : spec_float;
  batchProcessingThreshold : option Z
}.

(** ** Data exchanged with the outside *)

(** A [recurringPayments(id)] record of the Payroll contract. *)
Record Payment : Type := {
  recipient : string;
  amount : Z;
  interval : Z;
  lastPayment : Z;
  isActive : bool
}.

Record Tx : Type := { hash : string }.

(** [receipt?.hash]: the receipt may be null. *)
Definition Receipt := option string.

Inductive NotificationType : Type := info | success | warning | error.

(** The objects handed to [sendWebhook], one constructor per call site;
    [timestamp] is the clock reading in milliseconds. *)
Inductive Webhook : Type :=
| LowBalanceAlert (paymentId : string) (timestamp : Z)
| ProcessingPayment (paymentId recipient amount : string) (timestamp : Z)
| PaymentSuccessful (paymentId recipient amount transactionHash : string)
    (timestamp : Z)
| PaymentFailed (paymentId recipient amount : string) (err : Error)
    (timestamp : Z)
| BatchPaymentsProcessed (paymentIds : list string) (transactionHash : string)
    (timestamp : Z)
| RetryPaymentSuccessful (paymentId recipient amount transactionHash : string)
    (timestamp : Z)
| RetryPaymentFailed (paymentId recipient amount : string) (err : Error)
    (timestamp : Z)
| AgentWalletLowBalance (walletAddress balance threshold : string)
    (timestamp : Z)
| UpcomingInsufficientBalance (paymentId recipient amount contractBalance : string)
    (dueInHours : Z) (timestamp : Z).

Definition webhook_type (d : Webhook) : NotificationType :=
  match d with
  | LowBalanceAlert _ _ => warning
  | ProcessingPayment _ _ _ _ => info
  | PaymentSuccessful _ _ _ _ _ => success
  | PaymentFailed _ _ _ _ _ => error
  | BatchPaymentsProcessed _ _ _ => success
  | RetryPaymentSuccessful _ _ _ _ _ => success
  | RetryPaymentFailed _ _ _ _ _ => error
  | AgentWalletLowBalance _ _ _ _ => warning
  | UpcomingInsufficientBalance _ _ _ _ _ _ => warning
  end.

(** Requests the agent issues to the contract, the provider and the webhook
    endpoint. *)
Inductive Request : Type :=
| ReqGetActivePaymentIds
| ReqCanProcessPayment (paymentId : Z)
| ReqRecurringPayments (paymentId : Z)
| ReqProcessRecurringPayment (paymentId : Z) (gasLimit : Z)
| ReqProcessMultiplePayments (paymentIds : list Z) (gasLimit : Z)
| ReqWait (tx : Tx)
| ReqGetBalance (address : string)
| ReqGetContractBalance
| ReqAxiosPost (url : string) (data : Webhook).

(** Console lines, one constructor per [console.log] / [console.error]. *)
Inductive Line : Type :=
| LAlreadyProcessing
| LChecking
| LFoundActive (n : Z)
| LInactive (paymentId : Z)
| LNotDueYet (paymentId : Z) (timeUntilNext : Z)
| LCantProcess (paymentId : Z)
| LErrorChecking (paymentId : Z) (e : Error)
| LProcessingPayments (ids : list Z)
| LErrorInCheck (e : Error)
| LProcessingPayment (paymentId : Z)
| LTransactionSubmitted (h : string)
| LProcessedSuccessfully (paymentId : Z) (r : Receipt)
| LErrorProcessing (paymentId : Z) (e : Error)
| LAddedToRetryQueue (paymentId : Z) (attempt : Z)
| LFailedAfter (paymentId : Z)
| LProcessingBatch (n : Z)
| LBatchSubmitted (h : string)
| LBatchProcessed (r : Receipt)
| LErrorBatch (e : Error)
| LFallingBack
| LProcessingRetryQueue (n : Z)
| LRetrying (paymentId : string) (retryCount : Z)
| LKeepingInQueue (paymentId : string)
| LRetrySubmitted (h : string)
| LRetryProcessed (paymentId : string) (r : Receipt)
| LErrorRetrying (paymentId : string) (e : Error)
| LRemovingFromQueue (paymentId : string)
| LCheckingBalance
| LWalletBalance (balance : string)
| LWalletLow
| LContractBalance (balance : string)
| LInsufficientFor (paymentId : Z) (timeUntilNext : Z)
| LErrorBalances (e : Error)
| LWebhookSent (data : Webhook)
| LErrorWebhook (e : Error)
| LAnalyzing
| LPatternsHeader
| LIntervalGroup (interval : string) (n : Z)
| LRecommendation (interval : string)
| LErrorAnalyzing (e : Error).

Inductive Event : Type :=
| Call (r : Request)
| Console (l : Line).

(** ** The private state of [PaymentAgent] *)

Record PaymentAgent : Type := {
  isProcessing : bool;
  retryQueue : JsMap.t
}.

(** [private MAX_RETRIES = 3], never assigned again. *)
Definition MAX_RETRIES : Z := 3.

(** The state right after the constructor. *)
Definition new_PaymentAgent : PaymentAgent :=
  {| isProcessing := false; retryQueue := JsMap.empty |}.

(** ** Completions *)

Inductive completion (A : Type) : Type :=
| Normal (a : A)
| Return
| Continue
| Throw (e : Error).
Arguments Normal {A} a.
Arguments Return {A}.
Arguments Continue {A}.
Arguments Throw {A} e.

(** ** The monad of agent code

    A computation takes the agent's fields and the world, and yields a
    completion, the new fields and world, and the events it caused. *)

Section Monad.

Context {W : Type}.

Definition St : Type := (PaymentAgent * W)%type.

Definition M (A : Type) : Type := St -> completion A * St * list Event.

Definition ret {A : Type} (a : A) : M A := fun s => (Normal a, s, []).

Definition bind {A B : Type} (m : M A) (k : A -> M B) : M B :=
  fun s =>
    match m s with
    | (Normal a, s1, ev1) =>
        let '(c, s2, ev2) := k a s1 in (c, s2, ev1 ++ ev2)
    | (Return, s1, ev1) => (Return, s1, ev1)
    | (Continue, s1, ev1) => (Continue, s1, ev1)
    | (Throw e, s1, ev1) => (Throw e, s1, ev1)
    end.

Definition return_ {A : Type} : M A := fun s => (Return, s, []).

Definition continue_ {A : Type} : M A := fun s => (Continue, s, []).

Definition throw {A : Type} (e : Error) : M A := fun s => (Throw e, s, []).

(** [console.log] and [console.error]. *)
Definition console (l : Line) : M unit := fun s => (Normal tt, s, [Console l]).

(** [await] of an external call: the request is issued, the world answers. *)
Definition await {A : Type} (r : Request) (f : W -> result A * W) : M A :=
  fun s =>
    let '(res, w') := f (snd s) in
    match res with
    | Resolved a => (Normal a, (fst s, w'), [Call r])
    | Rejected e => (Throw e, (fst s, w'), [Call r])
    end.

(** A synchronous library call that may throw. *)
Definition lift_result {A : Type} (res : result A) : M A :=
  match res with
  | Resolved a => ret a
  | Rejected e => throw e
  end.

Definition this : M PaymentAgent := fun s => (Normal (fst s), s, []).

Definition set_isProcessing (b : bool) : M unit :=
  fun s =>
    (Normal tt,
     ({| isProcessing := b; retryQueue := retryQueue (fst s) |}, snd s), []).

Definition update_retryQueue (f : JsMap.t -> JsMap.t) : M unit :=
  fun s =>
    (Normal tt,
     ({| isProcessing := isProcessing (fst s);
         retryQueue := f (retryQueue (fst s)) |}, snd s), []).

(** [try { m } catch (error) { h error }]. *)
Definition try_catch {A : Type} (m : M A) (h : Error -> M A) : M A :=
  fun s =>
    match m s with
    | (Throw e, s1, ev1) =>
        let '(c, s2, ev2) := h e s1 in (c, s2, ev1 ++ ev2)
    | r => r
    end.

(** [try { m } finally { f }]: [f] always runs; an abrupt completion of [f]
    replaces the completion of [m]. *)
Definition try_finally {A : Type} (m : M A) (f : M unit) : M A :=
  fun s =>
    let '(c, s1, ev1) := m s in
    match f s1 with
    | (Normal _, s2, ev2) => (c, s2, ev1 ++ ev2)
    | (Return, s2, ev2) => (Return, s2, ev1 ++ ev2)
    | (Continue, s2, ev2) => (Continue, s2, ev1 ++ ev2)
    | (Throw e, s2, ev2) => (Throw e, s2, ev1 ++ ev2)
    end.

(** [for (const x of l) { body x }] over an array. *)
Fixpoint for_of {X : Type} (l : list X) (body : X -> M unit) : M unit :=
  match l with
  | [] => ret tt
  | x :: l' =>
      fun s =>
        match body x s with
        | (Normal _, s1, ev1) | (Continue, s1, ev1) =>
            let '(c, s2, ev2) := for_of l' body s1 in (c, s2, ev1 ++ ev2)
        | (Return, s1, ev1) => (Return, s1, ev1)
        | (Throw e, s1, ev1) => (Throw e, s1, ev1)
        end
  end.

(** [for (const [k, v] of this.retryQueue.entries()) { body (k, v) }].
    A Map iterator is live: an entry deleted before the iterator reaches it
    is not visited, and an entry is read when it is reached.  The bodies
    below add no key, so the keys to visit are those present when the loop
    starts, in insertion order. *)
Fixpoint for_of_entries (pending : list string) (body : string * Z -> M unit)
  : M unit :=
  match pending with
  | [] => ret tt
  | k :: rest =>
      fun s =>
        match JsMap.get k (retryQueue (fst s)) with
        | None => for_of_entries rest body s
        | Some v =>
            match body (k, v) s with
            | (Normal _, s1, ev1) | (Continue, s1, ev1) =>
                let '(c, s2, ev2) := for_of_entries rest body s1 in
                (c, s2, ev1 ++ ev2)
            | (Return, s1, ev1) => (Return, s1, ev1)
            | (Throw e, s1, ev1) => (Throw e, s1, ev1)
            end
        end
  end.

(** The body of an [async] function: [return] ends the function, whose
    promise then resolves; a thrown error rejects it.  ([continue] cannot
    leave a function body; the case is there for totality.) *)
Definition async (body : M unit) : M unit :=
  fun s =>
    match body s with
    | (Throw e, s1, ev1) => (Throw e, s1, ev1)
    | (_, s1, ev1) => (Normal tt, s1, ev1)
    end.

End Monad.

Arguments St : clear implicits.
Arguments M : clear implicits.

Declare Scope agent_scope.
Delimit Scope agent_scope with agent.
Notation "x <- m ;; k" := (bind m (fun x => k))
  (at level 61, m at next level, right associativity) : agent_scope.
Notation "m ;; k" := (bind m (fun _ => k))
  (at level 61, right associativity) : agent_scope.
Open Scope agent_scope.

(** ** The outside: contract, provider, webhook endpoint, clock *)

Record Gateway (W : Type) : Type := {
  getActivePaymentIds : W -> result (list Z) * W;
  canProcessPayment : Z -> W -> result bool * W;
  recurringPayments : Z -> W -> result Payment * W;
  processRecurringPayment : Z -> Z -> W -> result Tx * W;
  processMultiplePayments : list Z -> Z -> W -> result Tx * W;
  wait : Tx -> W -> result Receipt * W;
  getBalance : string -> W -> result Z * W;
  getContractBalance : W -> result Z * W;
  axios_post : string -> Webhook -> W -> result unit * W;
  Date_now : W -> Z
}.
Arguments getActivePaymentIds {W} g.
Arguments canProcessPayment {W} g.
Arguments recurringPayments {W} g.
Arguments processRecurringPayment {W} g.
Arguments processMultiplePayments {W} g.
Arguments wait {W} g.
Arguments getBalance {W} g.
Arguments getContractBalance {W} g.
Arguments axios_post {W} g.
Arguments Date_now {W} g.

(** ** A plain object used as a dictionary of arrays
    ([Record<string, Array<bigint>>] in [analyzePaymentPatterns]) *)

Module JsObject.

(** Own properties in creation order. *)
Definition t := list (string * list Z).

Fixpoint get (k : string) (o : t) : option (list Z) :=
  match o with
  | [] => None
  | (k', v) :: o' => if (k' =? k)%string then Some v else get k o'
  end.

(** [o[k].push(x)] for a present property [k]. *)
Fixpoint push (k : string) (x : Z) (o : t) : t :=
  match o with
  | [] => []
  | (k', v) :: o' =>
      if (k' =? k)%string then (k', v ++ [x]) :: o' else (k', v) :: push k x o'
  end.

(** [if (!o[k]) { o[k] = []; } o[k].push(x);] *)
Definition add (k : string) (x : Z) (o : t) : t :=
  match get k o with
  | None => o ++ [(k, [x])]
  | Some _ => push k x o
  end.

(** A property name is an array index when it is the canonical numeral of
    an integer in [0, 2^32 - 2]. *)
Definition array_index (k : string) : option Z :=
  match BigInt k with
  | Some n =>
      if (0 <=? n) && (n <? 2 ^ 32 - 1) && (toString n =? k)%string
      then Some n else None
  | None => None
  end.

Fixpoint insert_sorted (n : Z) (e : string * list Z)
  (l : list (Z * (string * list Z))) : list (Z * (string * list Z)) :=
  match l with
  | [] => [(n, e)]
  | (n', e') :: l' =>
      if n <? n' then (n, e) :: l else (n', e') :: insert_sorted n e l'
  end.

Fixpoint indexed (o : t) : list (Z * (string * list Z)) :=
  match o with
  | [] => []
  | (k, v) :: o' =>
      match array_index k with
      | Some n => insert_sorted n (k, v) (indexed o')
      | None => indexed o'
      end
  end.

Definition named (o : t) : t :=
  filter (fun e => match array_index (fst e) with
                   | Some _ => false
                   | None => true
                   end) o.

(** [Object.entries(o)]: array-index keys in ascending order, then the
    other keys in creation order. *)
Definition entries (o : t) : list (string * list Z) :=
  map snd (indexed o) ++ named o.

End JsObject.

(** ** PaymentAgent.ts *)

Section Agent.

Context {W : Type}.

(** The contract, the provider, axios and the clock. *)
Variable gw : Gateway W.

(** [ethers.formatEther] and [ethers.parseEther] (the latter throws on a
    string that is not a decimal amount). *)
Variable formatEther : Z -> string.
Variable parseEther : string -> result Z.

(** [this.wallet.address]. *)
Variable address : string.

(** The imported [config] object. *)
Variable config : Config.

Definition len {X : Type} (l : list X) : Z := Z.of_nat (List.length l).

(** [Date.now()], in milliseconds, as in [new Date().toISOString()]. *)
Definition timestamp : M W Z := fun s => (Normal (Date_now gw (snd s)), s, []).

(** [Math.floor(Date.now() / 1000)]. *)
Definition now_seconds : M W Z :=
  fun s => (Normal (Date_now gw (snd s) / 1000), s, []).

(** [BigInt(paymentId)] on a key of the retry queue. *)
Definition toBigInt (s : string) : M W Z :=
  match BigInt s with
  | Some z => ret z
  | None => throw "SyntaxError"
  end.

(** [sendWebhook] (lines 420-431). *)
Definition sendWebhook (data : Webhook) : M W unit :=
  async
    ((if negb (truthy (webhookUrl config)) then return_ else ret tt) ;;
     try_catch
       (await (ReqAxiosPost (webhookUrl config) data)
              (axios_post gw (webhookUrl config) data) ;;
        console (LWebhookSent data))
       (fun e => console (LErrorWebhook e))).

(** The [try] block of [processSinglePayment] (lines 147-192). *)
Definition processSinglePayment_try (paymentId : Z) : M W unit :=
  console (LProcessingPayment paymentId) ;;
  payment <- await (ReqRecurringPayments paymentId)
                   (recurringPayments gw paymentId) ;;
  (if truthy (webhookUrl config) then
     ts <- timestamp ;;
     sendWebhook (ProcessingPayment (toString paymentId)
                    (recipient payment) (formatEther (amount payment)) ts)
   else ret tt) ;;
  tx <- await (ReqProcessRecurringPayment paymentId 3000000)
              (processRecurringPayment gw paymentId 3000000) ;;
  console (LTransactionSubmitted (hash tx)) ;;
  receipt <- await (ReqWait tx) (wait gw tx) ;;
  console (LProcessedSuccessfully paymentId receipt) ;;
  (if truthy (webhookUrl config) then
     ts <- timestamp ;;
     sendWebhook (PaymentSuccessful (toString paymentId)
                    (recipient payment) (formatEther (amount payment))
                    (hash tx) ts)
   else ret tt) ;;
  update_retryQueue (JsMap.delete (toString paymentId)).

(** [this.retryQueue.get(key) || 0]. *)
Definition get_or_0 (key : string) (q : JsMap.t) : Z :=
  match JsMap.get key q with
  | Some c => if c =? 0 then 0 else c
  | None => 0
  end.

(** The [catch] block of [processSinglePayment] (lines 193-219). *)
Definition processSinglePayment_catch (paymentId : Z) (err : Error)
  : M W unit :=
  console (LErrorProcessing paymentId err) ;;
  a <- this ;;
  let currentRetries := get_or_0 (toString paymentId) (retryQueue a) in
  if currentRetries <? MAX_RETRIES then
    update_retryQueue (JsMap.set (toString paymentId) (currentRetries + 1)) ;;
    console (LAddedToRetryQueue paymentId (currentRetries + 1))
  else
    console (LFailedAfter paymentId) ;;
    (if truthy (webhookUrl config) then
       payment <- await (ReqRecurringPayments paymentId)
                        (recurringPayments gw paymentId) ;;
       ts <- timestamp ;;
       sendWebhook (PaymentFailed (toString paymentId) (recipient payment)
                      (formatEther (amount payment)) err ts)
     else ret tt).

(** [processSinglePayment] (lines 146-220). *)
Definition processSinglePayment (paymentId : Z) : M W unit :=
  async
    (try_catch (processSinglePayment_try paymentId)
               (processSinglePayment_catch paymentId)).

(** [processBatchPayments] (lines 225-265). *)
Definition processBatchPayments (paymentIds : list Z) : M W unit :=
  async
    (try_catch
       (console (LProcessingBatch (len paymentIds)) ;;
        tx <- await (ReqProcessMultiplePayments paymentIds 6000000)
                    (processMultiplePayments gw paymentIds 6000000) ;;
        console (LBatchSubmitted (hash tx)) ;;
        receipt <- await (ReqWait tx) (wait gw tx) ;;
        console (LBatchProcessed receipt) ;;
        (if truthy (webhookUrl config) then
           ts <- timestamp ;;
           sendWebhook (BatchPaymentsProcessed (map toString paymentIds)
                          (hash tx) ts)
         else ret tt) ;;
        for_of paymentIds
          (fun paymentId =>
             update_retryQueue (JsMap.delete (toString paymentId))))
       (fun err =>
          console (LErrorBatch err) ;;
          console LFallingBack ;;
          for_of paymentIds processSinglePayment)).

(** The [try] block of the loop of [processRetryQueue] (lines 278-315). *)
Definition retryEntry_try (paymentId : string) (retryCount : Z) : M W unit :=
  console (LRetrying paymentId retryCount) ;;
  id <- toBigInt paymentId ;;
  canProcess <- await (ReqCanProcessPayment id) (canProcessPayment gw id) ;;
  (if negb canProcess then
     console (LKeepingInQueue paymentId) ;; continue_
   else ret tt) ;;
  id <- toBigInt paymentId ;;
  tx <- await (ReqProcessRecurringPayment id 3000000)
              (processRecurringPayment gw id 3000000) ;;
  console (LRetrySubmitted (hash tx)) ;;
  receipt <- await (ReqWait tx) (wait gw tx) ;;
  console (LRetryProcessed paymentId receipt) ;;
  (if truthy (webhookUrl config) then
     id <- toBigInt paymentId ;;
     payment <- await (ReqRecurringPayments id) (recurringPayments gw id) ;;
     ts <- timestamp ;;
     sendWebhook (RetryPaymentSuccessful paymentId (recipient payment)
                    (formatEther (amount payment)) (hash tx) ts)
   else ret tt) ;;
  update_retryQueue (JsMap.delete paymentId).

(** The [catch] block of the loop of [processRetryQueue] (lines 316-342). *)
Definition retryEntry_catch (paymentId : string) (retryCount : Z)
  (err : Error) : M W unit :=
  console (LErrorRetrying paymentId err) ;;
  let newRetryCount := retryCount + 1 in
  if MAX_RETRIES <=? newRetryCount then
    console (LRemovingFromQueue paymentId) ;;
    update_retryQueue (JsMap.delete paymentId) ;;
    (if truthy (webhookUrl config) then
       id <- toBigInt paymentId ;;
       payment <- await (ReqRecurringPayments id) (recurringPayments gw id) ;;
       ts <- timestamp ;;
       sendWebhook (RetryPaymentFailed paymentId (recipient payment)
                      (formatEther (amount payment)) err ts)
     else ret tt)
  else
    update_retryQueue (JsMap.set paymentId newRetryCount).

(** The body of the loop of [processRetryQueue] (lines 277-343). *)
Definition retryEntry (entry : string * Z) : M W unit :=
  let '(paymentId, retryCount) := entry in
  try_catch (retryEntry_try paymentId retryCount)
            (retryEntry_catch paymentId retryCount).

(** [processRetryQueue] (lines 270-344). *)
Definition processRetryQueue : M W unit :=
  async
    (a <- this ;;
     (if JsMap.size (retryQueue a) =? 0 then return_ else ret tt) ;;
     console (LProcessingRetryQueue (JsMap.size (retryQueue a))) ;;
     for_of_entries (JsMap.keys (retryQueue a)) retryEntry).

(** One iteration of the scanning loop of [checkAndProcessPayments]
    (lines 86-118); the local array [processablePayments] is threaded. *)
Definition checkPayment (processablePayments : list Z) (paymentId : Z)
  : M W (list Z) :=
  try_catch
    (canProcess <- await (ReqCanProcessPayment paymentId)
                         (canProcessPayment gw paymentId) ;;
     if canProcess then ret (processablePayments ++ [paymentId])
     else
       payment <- await (ReqRecurringPayments paymentId)
                        (recurringPayments gw paymentId) ;;
       let nextPaymentTime :=
         round_f64 (Number (lastPayment payment) + Number (interval payment)) in
       now <- now_seconds ;;
       (if negb (isActive payment) then console (LInactive paymentId)
        else if now <? nextPaymentTime then
          let timeUntilNext := round_f64 (nextPaymentTime - now) in
          console (LNotDueYet paymentId timeUntilNext)
        else
          console (LCantProcess paymentId) ;;
          (if truthy (webhookUrl config) && (nextPaymentTime <=? now) then
             ts <- timestamp ;;
             sendWebhook (LowBalanceAlert (toString paymentId) ts)
           else ret tt)) ;;
       ret processablePayments)
    (fun err =>
       console (LErrorChecking paymentId err) ;; ret processablePayments).

(** The scanning loop (lines 85-119). *)
Fixpoint checkPayments (activePaymentIds processablePayments : list Z)
  : M W (list Z) :=
  match activePaymentIds with
  | [] => ret processablePayments
  | paymentId :: rest =>
      processablePayments' <- checkPayment processablePayments paymentId ;;
      checkPayments rest processablePayments'
  end.

(** The choice of the submission mode (lines 122-135). *)
Definition dispatch (processablePayments : list Z) : M W unit :=
  if 0 <? len processablePayments then
    console (LProcessingPayments processablePayments) ;;
    (if 3 <? len processablePayments then
       processBatchPayments processablePayments
     else
       for_of processablePayments processSinglePayment)
  else ret tt.

(** [checkAndProcessPayments] (lines 63-141). *)
Definition checkAndProcessPayments : M W unit :=
  async
    (a <- this ;;
     (if isProcessing a then console LAlreadyProcessing ;; return_
      else ret tt) ;;
     try_finally
       (try_catch
          (set_isProcessing true ;;
           console LChecking ;;
           activePaymentIds <- await ReqGetActivePaymentIds
                                     (getActivePaymentIds gw) ;;
           console (LFoundActive (len activePaymentIds)) ;;
           (if len activePaymentIds =? 0 then return_ else ret tt) ;;
           processablePayments <- checkPayments activePaymentIds [] ;;
           dispatch processablePayments)
          (fun err => console (LErrorInCheck err)))
       (set_isProcessing false)).

(** One iteration of the loop of [checkBalance] (lines 382-411). *)
Definition checkUpcoming (contractBalance : Z) (paymentId : Z) : M W unit :=
  payment <- await (ReqRecurringPayments paymentId)
                   (recurringPayments gw paymentId) ;;
  let nextPaymentTime :=
    round_f64 (Number (lastPayment payment) + Number (interval payment)) in
  now <- now_seconds ;;
  let timeUntilNext := round_f64 (nextPaymentTime - now) in
  if (timeUntilNext <=? 86400) && (0 <? timeUntilNext) then
    if contractBalance <? amount payment then
      console (LInsufficientFor paymentId timeUntilNext) ;;
      (if truthy (webhookUrl config) then
         ts <- timestamp ;;
         sendWebhook (UpcomingInsufficientBalance (toString paymentId)
                        (recipient payment) (formatEther (amount payment))
                        (formatEther contractBalance)
                        (timeUntilNext / 3600) ts)
       else ret tt)
    else ret tt
  else ret tt.

(** [checkBalance] (lines 349-415). *)
Definition checkBalance : M W unit :=
  async
    (try_catch
       (console LCheckingBalance ;;
        walletBalance <- await (ReqGetBalance address) (getBalance gw address) ;;
        console (LWalletBalance (formatEther walletBalance)) ;;
        threshold <- lift_result (parseEther (lowBalanceThreshold config)) ;;
        (if walletBalance <? threshold then
           console LWalletLow ;;
           (if truthy (webhookUrl config) then
              ts <- timestamp ;;
              sendWebhook (AgentWalletLowBalance address
                             (formatEther walletBalance)
                             (lowBalanceThreshold config) ts)
            else ret tt)
         else ret tt) ;;
        contractBalance <- await ReqGetContractBalance (getContractBalance gw) ;;
        console (LContractBalance (formatEther contractBalance)) ;;
        activePaymentIds <- await ReqGetActivePaymentIds
                                  (getActivePaymentIds gw) ;;
        for_of activePaymentIds (checkUpcoming contractBalance))
       (fun err => console (LErrorBalances err))).

(** The grouping loop of [analyzePaymentPatterns] (lines 446-455). *)
Fixpoint groupByInterval (activePaymentIds : list Z)
  (paymentsByInterval : JsObject.t) : M W JsObject.t :=
  match activePaymentIds with
  | [] => ret paymentsByInterval
  | paymentId :: rest =>
      payment <- await (ReqRecurringPayments paymentId)
                       (recurringPayments gw paymentId) ;;
      groupByInterval rest
        (JsObject.add (toString (interval payment)) paymentId
           paymentsByInterval)
  end.

(** [analyzePaymentPatterns] (lines 436-471). *)
Definition analyzePaymentPatterns : M W unit :=
  async
    (try_catch
       (console LAnalyzing ;;
        activePaymentIds <- await ReqGetActivePaymentIds
                                  (getActivePaymentIds gw) ;;
        paymentsByInterval <- groupByInterval activePaymentIds [] ;;
        console LPatternsHeader ;;
        for_of (JsObject.entries paymentsByInterval)
          (fun e => console (LIntervalGroup (fst e) (len (snd e)))) ;;
        for_of (JsObject.entries paymentsByInterval)
          (fun e =>
             if 3 <? len (snd e) then console (LRecommendation (fst e))
             else ret tt))
       (fun err => console (LErrorAnalyzing err))).

(** The callbacks the schedules of [start] and of the start-up script fire
    (lines 45-57 and 480-482), and the two private methods they reach. *)
Inductive Op : Type :=
| ScanTick
| BalanceTick
| RetryTick
| AnalysisTick
| SinglePayment (paymentId : Z)
| BatchPayments (paymentIds : list Z).

Definition run_op (o : Op) : M W unit :=
  match o with
  | ScanTick => checkAndProcessPayments
  | BalanceTick => checkBalance
  | RetryTick => processRetryQueue
  | AnalysisTick => analyzePaymentPatterns
  | SinglePayment paymentId => processSinglePayment paymentId
  | BatchPayments paymentIds => processBatchPayments paymentIds
  end.

(** A sequence of firings.  A scheduler callback awaits the method and
    nothing else; what the runtime does with a rejected promise is outside
    the model: the next firing runs on the state the previous one left. *)
Fixpoint run_ops (l : list Op) (s : St W) : St W * list Event :=
  match l with
  | [] => (s, [])
  | o :: l' =>
      let '(_, s1, ev1) := run_op o s in
      let '(s2, ev2) := run_ops l' s1 in
      (s2, ev1 ++ ev2)
  end.

End Agent.

(** ** Reading the outcome of a run *)

Definition completion_of {W A : Type} (o : completion A * St W * list Event)
  : completion A := fst (fst o).

Definition agent_of {W A : Type} (o : completion A * St W * list Event)
  : PaymentAgent := fst (snd (fst o)).

Definition state_of {W A : Type} (o : completion A * St W * list Event)
  : St W := snd (fst o).

Definition events_of {W A : Type} (o : completion A * St W * list Event)
  : list Event := snd o.

(** The promise of an [async] method resolves. *)
Definition resolves {W : Type} (o : completion unit * St W * list Event)
  : Prop := completion_of o = Normal tt.

(** A computation keeps a property of the retry queue. *)
Definition keeps {W A : Type} (P : JsMap.t -> Prop) (m : M W A) : Prop :=
  forall s, P (retryQueue (fst s)) -> P (retryQueue (agent_of (m s))).

(** Every event of a computation satisfies [P]. *)
Definition emits {W A : Type} (P : Event -> Prop) (m : M W A) : Prop :=
  forall s, Forall P (events_of (m s)).

(** Every attempt count in the queue is at most [MAX_RETRIES]. *)
Definition bounded (q : JsMap.t) : Prop :=
  Forall (fun e => snd e <= MAX_RETRIES) q.

(** Every attempt count in the queue is below [MAX_RETRIES]. *)
Definition strictly_bounded (q : JsMap.t) : Prop :=
  Forall (fun e => snd e < MAX_RETRIES) q.

(** States of the agent reachable from the constructor by firing the
    methods, whatever the outside answers. *)
Inductive reachable {W : Type} (gw : Gateway W) (formatEther : Z -> string)
  (parseEther : string -> result Z) (address : string) (config : Config)
  : PaymentAgent -> Prop :=
| reachable_new :
    reachable gw formatEther parseEther address config new_PaymentAgent
| reachable_op : forall a w o,
    reachable gw formatEther parseEther address config a ->
    reachable gw formatEther parseEther address config
      (agent_of (run_op gw formatEther parseEther address config o (a, w))).

(** ** Scripted outsides for concrete runs *)

Module Scenario.

(** Stand-ins for [ethers.formatEther] and [ethers.parseEther] on amounts
    written in wei. *)
Definition format_wei (z : Z) : string := toString z.

Definition parse_wei (s : string) : result Z :=
  match BigInt s with
  | Some z => Resolved z
  | None => Rejected "invalid FixedNumber string value"
  end.

Definition wallet : string := "0xA9e57".

(** A configuration with a webhook endpoint and the defaults of config.ts. *)
Definition config_default : Config :=
  {| rpcUrl := Some "http://localhost:8545";
     payrollContractAddress := "0x356c6D23756E8b574BEf278806b2eE56b426ACC0";
     privateKey := "0x01";
     webhookUrl := "http://localhost:3001/webhook";
     lowBalanceThreshold := "100";
     checkInterval := Some 60;
     retryLimit := Some 3;
     gasLimitBuffer := S754_zero false;
     batchProcessingThreshold := Some 3 |}.

(** The same with [BATCH_PROCESSING_THRESHOLD=5] and [RETRY_LIMIT=5]. *)
Definition config_five : Config :=
  {| rpcUrl := Some "http://localhost:8545";
     payrollContractAddress := "0x356c6D23756E8b574BEf278806b2eE56b426ACC0";
     privateKey := "0x01";
     webhookUrl := "http://localhost:3001/webhook";
     lowBalanceThreshold := "100";
     checkInterval := Some 60;
     retryLimit := Some 5;
     gasLimitBuffer := S754_zero false;
     batchProcessingThreshold := Some 5 |}.

Definition salary : Payment :=
  {| recipient := "0xB0b";
     amount := 5;
     interval := 3600;
     lastPayment := 1700000000;
     isActive := true |}.

Definition tx1 : Tx := {| hash := "0x7c1" |}.

(** An outside without memory: every request of a kind gets the same
    answer; the clock stands at [clock] milliseconds. *)
Definition scripted (ids : result (list Z)) (eligible : result bool)
  (record : result Payment) (single batch : result Tx)
  (confirmation : result Receipt) (clock : Z) : Gateway unit :=
  {| getActivePaymentIds := fun w => (ids, w);
     canProcessPayment := fun _ w => (eligible, w);
     recurringPayments := fun _ w => (record, w);
     processRecurringPayment := fun _ _ w => (single, w);
     processMultiplePayments := fun _ _ w => (batch, w);
     wait := fun _ w => (confirmation, w);
     getBalance := fun _ w => (Resolved 1000, w);
     getContractBalance := fun w => (Resolved 1000, w);
     axios_post := fun _ _ w => (Resolved tt, w);
     Date_now := fun _ => clock |}.

(** Four payments are eligible; transactions go through, but reading a
    payment record and the batch call are rejected by the node. *)
Definition reads_fail : Gateway unit :=
  scripted (Resolved [1; 2; 3; 4]) (Resolved true)
    (Rejected "call revert exception") (Resolved tx1)
    (Rejected "execution reverted") (Resolved (Some "0x7c1"))
    1700000000000.

(** Payment 7 is eligible and readable, but every submission is rejected. *)
Definition submission_fails : Gateway unit :=
  scripted (Resolved [7]) (Resolved true) (Resolved salary)
    (Rejected "execution reverted") (Rejected "execution reverted")
    (Resolved (Some "0x7c1")) 1700000000000.

(** The eligibility check itself is rejected by the node. *)
Definition eligibility_read_fails : Gateway unit :=
  scripted (Resolved [7]) (Rejected "network error") (Resolved salary)
    (Resolved tx1) (Resolved tx1) (Resolved (Some "0x7c1")) 1700000000000.

(** Payment 7 is not eligible; the clock reads [clock] milliseconds. *)
Definition not_eligible (clock : Z) : Gateway unit :=
  scripted (Resolved [7]) (Resolved false) (Resolved salary)
    (Resolved tx1) (Resolved tx1) (Resolved (Some "0x7c1")) clock.


(** Everything answers and every transaction is confirmed. *)
Definition healthy : Gateway unit :=
  scripted (Resolved [1; 2; 3; 4]) (Resolved true) (Resolved salary)
    (Resolved tx1) (Resolved tx1) (Resolved (Some "0x7c1")) 1700000000000.

(** The node is unreachable: every request to the contract is rejected. *)
Definition node_down : Gateway unit :=
  scripted (Rejected "network error") (Rejected "network error")
    (Rejected "network error") (Rejected "network error")
    (Rejected "network error") (Rejected "network error") 1700000000000.

(** An outside that counts the requests it has answered.  Payment 7 is
    eligible and listed; its first submission (before the fifth request) is
    rejected, later ones go through and are confirmed; the node fails to
    read the payment record from the ninth request on. *)
Definition record_read_glitch : Gateway nat :=
  {| getActivePaymentIds := fun w => (Resolved [7], S w);
     canProcessPayment := fun _ w => (Resolved true, S w);
     recurringPayments :=
       fun _ w =>
         (if Nat.leb 8 w then Rejected "timeout" else Resolved salary, S w);
     processRecurringPayment :=
       fun _ _ w =>
         (if Nat.ltb w 5 then Rejected "execution reverted" else Resolved tx1,
          S w);
     processMultiplePayments := fun _ _ w => (Resolved tx1, S w);
     wait := fun _ w => (Resolved (Some "0x7c1"), S w);
     getBalance := fun _ w => (Resolved 1000, S w);
     getContractBalance := fun w => (Resolved 1000, S w);
     axios_post := fun _ _ w => (Resolved tt, S w);
     Date_now := fun _ => 1700000000000 |}.

(** The agent after the given firings, starting from the constructor. *)
Definition after (gw : Gateway unit) (config : Config) (l : list Op)
  : St unit :=
  fst (run_ops gw format_wei parse_wei wallet config l (new_PaymentAgent, tt)).

End Scenario.

(** ** Observations on the events of a run *)

(** The request is a batch submission ([processMultiplePayments]). *)
Definition is_batch_request (e : Event) : bool :=
  match e with
  | Call (ReqProcessMultiplePayments _ _) => true
  | _ => false
  end.

(** A batch submission was attempted. *)
Definition batch_attempted (ev : list Event) : bool :=
  existsb is_batch_request ev.

(** The single submissions ([processRecurringPayment]) requested, in order. *)
Fixpoint single_submissions (ev : list Event) : list Z :=
  match ev with
  | [] => []
  | Call (ReqProcessRecurringPayment paymentId _) :: ev' =>
      paymentId :: single_submissions ev'
  | _ :: ev' => single_submissions ev'
  end.

(** The payments that entered [processSinglePayment], in order (its first
    statement prints [LProcessingPayment]). *)
Fixpoint single_path_entries (ev : list Event) : list Z :=
  match ev with
  | [] => []
  | Console (LProcessingPayment paymentId) :: ev' =>
      paymentId :: single_path_entries ev'
  | _ :: ev' => single_path_entries ev'
  end.

(** The notifications posted to the webhook endpoint, in order. *)
Fixpoint notifications (ev : list Event) : list Webhook :=
  match ev with
  | [] => []
  | Call (ReqAxiosPost _ data) :: ev' => data :: notifications ev'
  | _ :: ev' => notifications ev'
  end.

(** The requests issued, in order. *)
Fixpoint requests (ev : list Event) : list Request :=
  match ev with
  | [] => []
  | Call r :: ev' => r :: requests ev'
  | _ :: ev' => requests ev'
  end.

(** ** Configurations that differ only in the two unused limits *)

(** [c1] and [c2] agree on every field but [retryLimit] and
    [batchProcessingThreshold]. *)
Definition differ_only_in_limits (c1 c2 : Config) : Prop :=
  rpcUrl c1 = rpcUrl c2
  /\ payrollContractAddress c1 = payrollContractAddress c2
  /\ privateKey c1 = privateKey c2
  /\ webhookUrl c1 = webhookUrl c2
  /\ lowBalanceThreshold c1 = lowBalanceThreshold c2
  /\ checkInterval c1 = checkInterval c2
  /\ gasLimitBuffer c1 = gasLimitBuffer c2.

(** ** Properties of computations used in the proofs *)

(** The computation never completes with a thrown error. *)
Definition no_throw {W A : Type} (m : M W A) : Prop :=
  forall s e, completion_of (m s) <> Throw e.

(** When the computation completes normally, the retry queue satisfies [Q]. *)
Definition establishes {W A : Type} (Q : JsMap.t -> Prop) (m : M W A) : Prop :=
  forall s a, completion_of (m s) = Normal a -> Q (retryQueue (agent_of (m s))).

(** The key is absent from the queue. *)
Definition absent (k : string) (q : JsMap.t) : Prop := JsMap.get k q = None.

(** The event is the first statement of [processSinglePayment]. *)
Definition is_single_path_entry (e : Event) : bool :=
  match e with
  | Console (LProcessingPayment _) => true
  | _ => false
  end.

(** ** Further observations on computations and events *)

(** The computation leaves both fields of the agent as they were. *)
Definition leaves_agent {W A : Type} (m : M W A) : Prop :=
  forall s, agent_of (m s) = fst s.

(** No event of the computation satisfies [f]. *)
Definition quiet {W A : Type} (f : Event -> bool) (m : M W A) : Prop :=
  emits (fun e => f e = false) m.

(** The event is a post to the webhook endpoint. *)
Definition is_post (e : Event) : bool :=
  match e with
  | Call (ReqAxiosPost _ _) => true
  | _ => false
  end.

(** The event is a transaction: a single or a batch submission. *)
Definition is_submission (e : Event) : bool :=
  match e with
  | Call (ReqProcessRecurringPayment _ _) => true
  | Call (ReqProcessMultiplePayments _ _) => true
  | _ => false
  end.

(** [l1] is [l2] with some elements left out. *)
Inductive subsequence {X : Type} : list X -> list X -> Prop :=
| subsequence_nil : subsequence [] []
| subsequence_skip : forall x l1 l2,
    subsequence l1 l2 -> subsequence l1 (x :: l2)
| subsequence_take : forall x l1 l2,
    subsequence l1 l2 -> subsequence (x :: l1) (x :: l2).

(** ** Further scripted inputs *)

Module Example.

(** The defaults of config.ts when [WEBHOOK_URL] is not set. *)
Definition config_silent : Config :=
  {| rpcUrl := Some "http://localhost:8545";
     payrollContractAddress := "0x356c6D23756E8b574BEf278806b2eE56b426ACC0";
     privateKey := "0x01";
     webhookUrl := EmptyString;
     lowBalanceThreshold := "100";
     checkInterval := Some 60;
     retryLimit := Some 3;
     gasLimitBuffer := S754_zero false;
     batchProcessingThreshold := Some 3 |}.

End Example.

(** ** Observations on the balance tick *)

(** The console warning about the agent's wallet. *)
Definition is_wallet_low_line (e : Event) : bool :=
  match e with
  | Console LWalletLow => true
  | _ => false
  end.

(** A post of the [Agent Wallet Low Balance] warning. *)
Definition is_wallet_low_post (e : Event) : bool :=
  match e with
  | Call (ReqAxiosPost _ (AgentWalletLowBalance _ _ _ _)) => true
  | _ => false
  end.

(** The console warning about an upcoming payment the contract cannot
    cover. *)
Definition is_insufficient_line (e : Event) : bool :=
  match e with
  | Console (LInsufficientFor _ _) => true
  | _ => false
  end.

Module Example2.

(** An outside on which every read answers; the agent's wallet holds
    [walletBalance], the contract [contractBalance], payment 7 is the
    salary payment and the clock stands at [clock] milliseconds. *)
Definition balances (walletBalance contractBalance clock : Z) : Gateway unit :=
  {| getActivePaymentIds := fun w => (Resolved [7], w);
     canProcessPayment := fun _ w => (Resolved false, w);
     recurringPayments := fun _ w => (Resolved Scenario.salary, w);
     processRecurringPayment := fun _ _ w => (Resolved Scenario.tx1, w);
     processMultiplePayments := fun _ _ w => (Resolved Scenario.tx1, w);
     wait := fun _ w => (Resolved (Some "0x7c1"), w);
     getBalance := fun _ w => (Resolved walletBalance, w);
     getContractBalance := fun w => (Resolved contractBalance, w);
     axios_post := fun _ _ w => (Resolved tt, w);
     Date_now := fun _ => clock |}.

End Example2.

(** ** Observations on the submission paths *)

(** The event is a single submission ([processRecurringPayment]). *)
Definition is_single_submission (e : Event) : bool :=
  match e with
  | Call (ReqProcessRecurringPayment _ _) => true
  | _ => false
  end.

(** The computation always completes normally. *)
Definition completes {W A : Type} (m : M W A) : Prop :=
  forall s, exists a, completion_of (m s) = Normal a.

(** When the computation throws, the agent's fields are as before. *)
Definition throws_clean {W A : Type} (m : M W A) : Prop :=
  forall s e, completion_of (m s) = Throw e -> agent_of (m s) = fst s.

(** The external call answers whenever it is made. *)
Definition answers {W A : Type} (f : W -> result A * W) : Prop :=
  forall w, exists a w', f w = (Resolved a, w').

(** ** Observations on the analysis tick *)

(** The active payments whose interval is [i], in their order. *)
Definition payments_with_interval (record : Z -> Payment) (i : Z)
  (activePaymentIds : list Z) : list Z :=
  filter (fun id => interval (record id) =? i) activePaymentIds.

(** An object holds each property once. *)
Definition object_wf (o : JsObject.t) : Prop := NoDup (map fst o).


(** The object the grouping loop of the analysis builds from the records. *)
Definition grouped (record : Z -> Payment) (ids : list Z)
  (o : JsObject.t) : JsObject.t :=
  fold_left
    (fun o id => JsObject.add (toString (interval (record id))) id o) ids o.


Module Example3.

(** The record of payment [id] in a payroll of four monthly payments,
    1 to 4, and a weekly one, 5. *)
Definition record (id : Z) : Payment :=
  {| recipient := "0xB0b";
     amount := 5;
     interval := if id <=? 4 then 2592000 else 604800;
     lastPayment := 1700000000;
     isActive := true |}.

(** An outside on which every read answers, with that payroll. *)
Definition payroll : Gateway unit :=
  {| getActivePaymentIds := fun w => (Resolved [1; 2; 5; 3; 4], w);
     canProcessPayment := fun _ w => (Resolved false, w);
     recurringPayments := fun id w => (Resolved (record id), w);
     processRecurringPayment := fun _ _ w => (Resolved Scenario.tx1, w);
     processMultiplePayments := fun _ _ w => (Resolved Scenario.tx1, w);
     wait := fun _ w => (Resolved (Some "0x7c1"), w);
     getBalance := fun _ w => (Resolved 50, w);
     getContractBalance := fun w => (Resolved 50, w);
     axios_post := fun _ _ w => (Resolved tt, w);
     Date_now := fun _ => 1700000000000 |}.

End Example3.


(** ** Observations on the guard of the scan tick *)

(** The computation ends with [isProcessing] as it found it. *)
Definition restores_guard {W A : Type} (m : M W A) : Prop :=
  forall s, isProcessing (agent_of (m s)) = isProcessing (fst s).

(** The line a scan tick prints when it finds the guard set. *)
Definition is_skip_line (e : Event) : bool :=
  match e with
  | Console LAlreadyProcessing => true
  | _ => false
  end.


(** ** The wallet key *)

(** [s.startsWith(p)]. *)
Definition startsWith (s p : string) : bool := String.prefix p s.

(** The key handed to [ethers.Wallet] by the constructor (line 25) and by
    the key test (test.js, line 10). *)
Definition fixedKey (privateKey : string) : string :=
  if startsWith privateKey "0x" then privateKey
  else ("0x" ++ privateKey)%string.

(** ** The configuration read from the environment (config.ts) *)

(** [v || d] for a variable of the environment, [None] when it is unset. *)
Definition or_default (v : option string) (d : string) : string :=
  match v with
  | Some s => if truthy s then s else d
  | None => d
  end.

Section ConfigTs.

Variable parseInt : string -> option Z.
Variable parseFloat : string -> spec_float.

(** The object [config] (lines 7-28) for the environment [env]. *)
Definition config_ts (env : string -> option string) : Config :=
  {| rpcUrl := env "RPC_URL";
     payrollContractAddress := or_default (env "CONTRACT_ADDRESS") EmptyString;
     privateKey := or_default (env "AGENT_PRIVATE_KEY") EmptyString;
     webhookUrl := or_default (env "WEBHOOK_URL") EmptyString;
     lowBalanceThreshold := or_default (env "LOW_BALANCE_THRESHOLD") "0.1";
     checkInterval := parseInt (or_default (env "CHECK_INTERVAL") "60");
     retryLimit := parseInt (or_default (env "RETRY_LIMIT") "3");
     gasLimitBuffer := parseFloat (or_default (env "GAS_LIMIT_BUFFER") "1.2");
     batchProcessingThreshold :=
       parseInt (or_default (env "BATCH_PROCESSING_THRESHOLD") "3") |}.

End ConfigTs.

(** ** The webhook server *)

Module WebhookServer.

(** A property of the parsed JSON body: absent, a string, or another JSON
    value. *)
Inductive JsValue : Type :=
| VUndefined
| VString (s : string)
| VOther.

(** [req.query.key]: absent, a string, or the array or object that a
    repeated or bracketed parameter parses to. *)
Inductive QueryValue : Type :=
| QAbsent
| QString (s : string)
| QNested.

Definition truthy_query (q : QueryValue) : bool :=
  match q with
  | QAbsent => false
  | QString s => truthy s
  | QNested => true
  end.

(** [q !== s] for a string [s]. *)
Definition differs (q : QueryValue) (s : string) : bool :=
  match q with
  | QString t => negb (t =? s)%string
  | _ => true
  end.

(** What the JSON middleware in front of the handler (line 13) makes of
    the body of the request.  A body it cannot accept is refused before the
    handler runs: text that is not a JSON object or array (400), a body
    over the size limit (413), an encoding it does not support (415).
    Otherwise the handler runs, with [req.body] the parsed object or array
    ([Parsed]) or, when the middleware had nothing to parse and leaves the
    property unset, with [req.body] undefined ([NotParsed]). *)
Inductive Refusal : Type :=
| EntityParseFailed
| EntityTooLarge
| UnsupportedEncoding.

Definition refusal_status (e : Refusal) : Z :=
  match e with
  | EntityParseFailed => 400
  | EntityTooLarge => 413
  | UnsupportedEncoding => 415
  end.

Inductive RequestBody (B : Type) : Type :=
| Refused (e : Refusal)
| NotParsed
| Parsed (webhookData : B).
Arguments Refused {B} e.
Arguments NotParsed {B}.
Arguments Parsed {B} webhookData.

(** The body of the response: one of the two JSON objects of the handler,
    or the error page of the framework. *)
Inductive ResponseBody : Type :=
| InvalidWebhookSecret
| Received
| ErrorPage.

Record Response : Type := { status : Z; json : ResponseBody }.

Section Endpoint.

(** The parsed body and the three properties the handler reads. *)
Context {B : Type}.
Variable type_of : B -> JsValue.
Variable paymentId_of : B -> JsValue.
Variable message_of : B -> JsValue.

(** What the handler prints and appends to the log file. *)
Inductive Output : Type :=
| OReceived (type : JsValue)
| OLogEvent (event : B)
| OPaymentProcessed (paymentId : JsValue)
| OWarning (message : JsValue)
| OError (message : JsValue)
| OEventType (type : JsValue).

(** The [switch] on [webhookData.type] (lines 59-71). *)
Definition report (webhookData : B) : Output :=
  match type_of webhookData with
  | VString t =>
      if (t =? "success")%string then
        OPaymentProcessed (paymentId_of webhookData)
      else if (t =? "warning")%string then OWarning (message_of webhookData)
      else if (t =? "error")%string then OError (message_of webhookData)
      else OEventType (VString t)
  | v => OEventType v
  end.

(** The handler (lines 49-74).  With [req.body] undefined, reading
    [webhookData.type] (line 56) throws a TypeError before anything is
    printed; [None] is that completion. *)
Definition handler (WEBHOOK_SECRET : string) (requestSecret : QueryValue)
  (body : option B) : list Output * option Response :=
  if truthy_query requestSecret && differs requestSecret WEBHOOK_SECRET then
    ([], Some {| status := 401; json := InvalidWebhookSecret |})
  else
    match body with
    | None => ([], None)
    | Some webhookData =>
        ([OReceived (type_of webhookData); OLogEvent webhookData;
          report webhookData],
         Some {| status := 200; json := Received |})
    end.

(** [req.body] as the handler finds it. *)
Definition req_body (body : RequestBody B) : option B :=
  match body with
  | Parsed webhookData => Some webhookData
  | _ => None
  end.

(** [POST /webhook] (lines 13 and 49-74): the middleware, then the
    handler; an error passed on by the middleware is answered with its
    status and an error thrown by the handler with 500, both by the error
    handler of the framework. *)
Definition post_webhook (WEBHOOK_SECRET : string) (requestSecret : QueryValue)
  (body : RequestBody B) : list Output * Response :=
  match body with
  | Refused e => ([], {| status := refusal_status e; json := ErrorPage |})
  | _ =>
      match handler WEBHOOK_SECRET requestSecret (req_body body) with
      | (out, Some response) => (out, response)
      | (out, None) => (out, {| status := 500; json := ErrorPage |})
      end
  end.

End Endpoint.

(** The properties of the notifications of the agent, as the object
    literals of its calls of [sendWebhook] have them. *)
Definition type_name (t : NotificationType) : string :=
  match t with
  | info => "info"
  | success => "success"
  | warning => "warning"
  | error => "error"
  end.

Definition webhook_type_of (d : Webhook) : JsValue :=
  VString (type_name (webhook_type d)).

Definition webhook_paymentId (d : Webhook) : JsValue :=
  match d with
  | LowBalanceAlert paymentId _ => VString paymentId
  | ProcessingPayment paymentId _ _ _ => VString paymentId
  | PaymentSuccessful paymentId _ _ _ _ => VString paymentId
  | PaymentFailed paymentId _ _ _ _ => VString paymentId
  | BatchPaymentsProcessed _ _ _ => VUndefined
  | RetryPaymentSuccessful paymentId _ _ _ _ => VString paymentId
  | RetryPaymentFailed paymentId _ _ _ _ => VString paymentId
  | AgentWalletLowBalance _ _ _ _ => VUndefined
  | UpcomingInsufficientBalance paymentId _ _ _ _ _ => VString paymentId
  end.

End WebhookServer.


(** ** The suspension points of a method *)

(** An [async] method runs without interruption from one [await] of a
    request to the next; other callbacks of the agent can only run while it
    is suspended on a request.  To state what holds at these points, a
    computation is decomposed, along the combinators it is written with,
    into synchronous steps and awaits, and run with an observer that
    records the agent's fields at each await. *)

Section Suspension.

Context {W : Type}.

(** The computation issues no request: it is synchronous code. *)
Definition synchronous {A : Type} (m : M W A) : Prop :=
  forall s, requests (events_of (m s)) = [].

(** [Prog A m]: the computation [m] with its awaits marked. *)
Inductive Prog : forall A : Type, M W A -> Type :=
| PStep : forall (A : Type) (m : M W A), synchronous m -> Prog A m
| PAwait : forall (A : Type) (r : Request) (f : W -> result A * W),
    Prog A (await r f)
| PBind : forall (A B : Type) (m : M W A) (k : A -> M W B),
    Prog A m -> (forall a, Prog B (k a)) -> Prog B (bind m k)
| PTryCatch : forall (A : Type) (m : M W A) (h : Error -> M W A),
    Prog A m -> (forall e, Prog A (h e)) -> Prog A (try_catch m h)
| PTryFinally : forall (A : Type) (m : M W A) (f : M W unit),
    Prog A m -> Prog unit f -> Prog A (try_finally m f)
| PForOf : forall (X : Type) (l : list X) (body : X -> M W unit),
    (forall x, Prog unit (body x)) -> Prog unit (for_of l body)
| PAsync : forall (m : M W unit), Prog unit m -> Prog unit (async m).

(** The outside, together with what the observer has recorded: each
    request awaited so far, with the agent's fields when it was issued. *)
Definition Observed : Type := (W * list (Request * PaymentAgent))%type.

(** A synchronous step under observation: nothing is recorded. *)
Definition step_observed {A : Type} (m : M W A) : M Observed A :=
  fun s =>
    let '(c, (a, w), ev) := m (fst s, fst (snd s)) in
    (c, (a, (w, snd (snd s))), ev).

(** An await under observation.  The request is recorded with the agent's
    fields at the suspension; the outside answers; before the computation
    resumes, whatever else runs meanwhile ([interference]) may have changed
    the agent's fields and the outside. *)
Definition await_observed (interference : St W -> St W) {A : Type}
  (r : Request) (f : W -> result A * W) : M Observed A :=
  fun s =>
    let '(res, w') := f (fst (snd s)) in
    let '(a', w'') := interference (fst s, w') in
    let seen := snd (snd s) ++ [(r, fst s)] in
    match res with
    | Resolved x => (Normal x, (a', (w'', seen)), [Call r])
    | Rejected e => (Throw e, (a', (w'', seen)), [Call r])
    end.

(** The observed run of a marked computation: the combinators are those of
    the computation itself. *)
Fixpoint observe (interference : St W -> St W) {A : Type} {m : M W A}
  (p : Prog A m) : M Observed A :=
  match p in Prog A _ return M Observed A with
  | PStep _ m _ => step_observed m
  | PAwait _ r f => await_observed interference r f
  | PBind _ _ _ _ p k =>
      bind (observe interference p) (fun a => observe interference (k a))
  | PTryCatch _ _ _ p h =>
      try_catch (observe interference p)
                (fun e => observe interference (h e))
  | PTryFinally _ _ _ p f =>
      try_finally (observe interference p) (observe interference f)
  | PForOf _ l _ body => for_of l (fun x => observe interference (body x))
  | PAsync _ p => async (observe interference p)
  end.

(** What the observer has recorded at the end of a run. *)
Definition seen {A : Type} (o : completion A * St Observed * list Event)
  : list (Request * PaymentAgent) := snd (snd (snd (fst o))).

(** The run without the observations. *)
Definition forget {A : Type} (o : completion A * St Observed * list Event)
  : completion A * St W * list Event :=
  let '(c, (a, (w, _)), ev) := o in (c, (a, w), ev).

(** No synchronous step of the computation clears a guard that is set. *)
Fixpoint steps_keep_guard {A : Type} {m : M W A} (p : Prog A m) : Prop :=
  match p with
  | PStep _ m _ =>
      forall s, isProcessing (fst s) = true ->
                isProcessing (agent_of (m s)) = true
  | PAwait _ _ _ => True
  | PBind _ _ _ _ p k =>
      steps_keep_guard p /\ forall a, steps_keep_guard (k a)
  | PTryCatch _ _ _ p h =>
      steps_keep_guard p /\ forall e, steps_keep_guard (h e)
  | PTryFinally _ _ _ p f => steps_keep_guard p /\ steps_keep_guard f
  | PForOf _ _ _ body => forall x, steps_keep_guard (body x)
  | PAsync _ p => steps_keep_guard p
  end.

(** A computation with its awaits marked, none of whose synchronous steps
    clears a guard that is set. *)
Definition Marked {A : Type} (m : M W A) : Type :=
  { p : Prog A m | steps_keep_guard p }.

End Suspension.

Arguments Observed : clear implicits.

(** * Properties *)

(** ** The Map operations *)

Lemma get_set_same (k : string) (v : Z) (m : JsMap.t) :
  JsMap.get k (JsMap.set k v m) = Some v.
Proof.
  induction m as [|[k' v'] m IH]; simpl.
  - now rewrite String.eqb_refl.
  - destruct (k' =? k)%string eqn:E; simpl; rewrite E; auto.
Qed.

Lemma get_set_other (k k' : string) (v : Z) (m : JsMap.t) :
  k <> k' -> JsMap.get k' (JsMap.set k v m) = JsMap.get k' m.
Proof.
  intros Hk. induction m as [|[k0 v0] m IH]; simpl.
  - destruct (k =? k')%string eqn:E; auto.
    apply String.eqb_eq in E. contradiction.
  - destruct (k0 =? k)%string eqn:E; simpl.
    + apply String.eqb_eq in E. subst k0.
      destruct (k =? k')%string eqn:E'; auto.
      apply String.eqb_eq in E'. contradiction.
    + destruct (k0 =? k')%string; auto.
Qed.

Lemma get_delete_same (k : string) (m : JsMap.t) :
  JsMap.get k (JsMap.delete k m) = None.
Proof.
  induction m as [|[k' v'] m IH]; simpl; auto.
  destruct (k' =? k)%string eqn:E; simpl; auto. now rewrite E.
Qed.

Lemma get_delete_other (k k' : string) (m : JsMap.t) :
  k <> k' -> JsMap.get k' (JsMap.delete k m) = JsMap.get k' m.
Proof.
  intros Hk. induction m as [|[k0 v0] m IH]; simpl; auto.
  destruct (k0 =? k)%string eqn:E; simpl.
  - apply String.eqb_eq in E. subst k0.
    destruct (k =? k')%string eqn:E'; auto.
    apply String.eqb_eq in E'. contradiction.
  - destruct (k0 =? k')%string; auto.
Qed.

Lemma get_In (k : string) (v : Z) (m : JsMap.t) :
  JsMap.get k m = Some v -> In (k, v) m.
Proof.
  induction m as [|[k' v'] m IH]; simpl; [discriminate|].
  destruct (k' =? k)%string eqn:E.
  - apply String.eqb_eq in E. intros [= ->]. left. now subst.
  - auto.
Qed.

Lemma bounded_set (k : string) (v : Z) (m : JsMap.t) :
  v <= MAX_RETRIES -> bounded m -> bounded (JsMap.set k v m).
Proof.
  intros Hv. unfold bounded. induction 1 as [|[k' v'] m Hx Hm IH]; simpl.
  - constructor; auto.
  - destruct (k' =? k)%string; constructor; auto.
Qed.

Lemma bounded_delete (k : string) (m : JsMap.t) :
  bounded m -> bounded (JsMap.delete k m).
Proof.
  unfold bounded. induction 1 as [|[k' v'] m Hx Hm IH]; simpl; auto.
  destruct (k' =? k)%string; auto.
Qed.

Lemma in_keys_set (x k : string) (v : Z) (m : JsMap.t) :
  In x (JsMap.keys (JsMap.set k v m)) -> In x (JsMap.keys m) \/ x = k.
Proof.
  induction m as [|[k' v'] m IH]; simpl.
  - intros [<-|[]]. now right.
  - destruct (k' =? k)%string; simpl; intros [H|H]; auto.
    destruct (IH H); auto.
Qed.

Lemma in_keys_delete (x k : string) (m : JsMap.t) :
  In x (JsMap.keys (JsMap.delete k m)) -> In x (JsMap.keys m).
Proof.
  induction m as [|[k' v'] m IH]; simpl; auto.
  destruct (k' =? k)%string; simpl; intros H; auto.
  destruct H; auto.
Qed.

Lemma wf_set (k : string) (v : Z) (m : JsMap.t) :
  JsMap.wf m -> JsMap.wf (JsMap.set k v m).
Proof.
  unfold JsMap.wf. induction m as [|[k' v'] m IH]; simpl; intros H.
  - constructor; [intros []|constructor].
  - inversion H as [|x l Hx Hl]; subst.
    destruct (String.eqb_spec k' k) as [->|Hne]; simpl.
    + constructor; assumption.
    + constructor; [|now apply IH].
      intros Hin. apply in_keys_set in Hin. destruct Hin; auto.
Qed.

Lemma wf_delete (k : string) (m : JsMap.t) :
  JsMap.wf m -> JsMap.wf (JsMap.delete k m).
Proof.
  unfold JsMap.wf. induction m as [|[k' v'] m IH]; simpl; intros H; auto.
  inversion H as [|x l Hx Hl]; subst.
  destruct (k' =? k)%string; simpl; [now apply IH|].
  constructor; [|now apply IH].
  intros Hin. apply in_keys_delete in Hin. contradiction.
Qed.

Lemma to_int_not_nil (z : Z) :
  Z.to_int z <> Decimal.Pos Decimal.Nil /\ Z.to_int z <> Decimal.Neg Decimal.Nil.
Proof.
  destruct z as [|p|p]; simpl; split; try discriminate;
    intros [= H]; exact (DecimalPos.Unsigned.to_uint_nonnil p H).
Qed.

Lemma int_of_string_of_int (z : Z) :
  NilZero.int_of_string (NilZero.string_of_int (Z.to_int z))
  = Some (Z.to_int z).
Proof. apply NilZero.isi; apply to_int_not_nil. Qed.

Lemma toString_inj (x y : Z) : toString x = toString y -> x = y.
Proof.
  unfold toString. intros H.
  apply DecimalZ.to_int_inj.
  apply (f_equal NilZero.int_of_string) in H.
  rewrite !int_of_string_of_int in H. now injection H.
Qed.

Lemma BigInt_toString (z : Z) : BigInt (toString z) = Some z.
Proof.
  unfold BigInt, toString. rewrite int_of_string_of_int.
  simpl. now rewrite DecimalZ.of_to.
Qed.

(** ** How the combinators keep a property of the retry queue *)

Section Keeps.

Context {W : Type}.
Variable P : JsMap.t -> Prop.

Lemma keeps_ret {A : Type} (a : A) : keeps P (@ret W A a).
Proof. intros s H. exact H. Qed.

Lemma keeps_return {A : Type} : keeps P (@return_ W A).
Proof. intros s H. exact H. Qed.

Lemma keeps_continue {A : Type} : keeps P (@continue_ W A).
Proof. intros s H. exact H. Qed.

Lemma keeps_throw {A : Type} (e : Error) : keeps P (@throw W A e).
Proof. intros s H. exact H. Qed.

Lemma keeps_console (l : Line) : keeps P (@console W l).
Proof. intros s H. exact H. Qed.

Lemma keeps_this : keeps P (@this W).
Proof. intros s H. exact H. Qed.

Lemma keeps_set_isProcessing (b : bool) : keeps P (@set_isProcessing W b).
Proof. intros s H. exact H. Qed.

Lemma keeps_await {A : Type} (r : Request) (f : W -> result A * W) :
  keeps P (await r f).
Proof.
  intros [a w] H. unfold await, agent_of. simpl.
  destruct (f w) as [[x|e] w']; exact H.
Qed.

Lemma keeps_lift_result {A : Type} (r : result A) :
  keeps P (@lift_result W A r).
Proof. destruct r; intros s H; exact H. Qed.

Lemma keeps_update (f : JsMap.t -> JsMap.t) :
  (forall q, P q -> P (f q)) -> keeps P (@update_retryQueue W f).
Proof. intros Hf s H. apply Hf, H. Qed.

Lemma keeps_bind {A B : Type} (m : M W A) (k : A -> M W B) :
  keeps P m -> (forall a, keeps P (k a)) -> keeps P (bind m k).
Proof.
  intros Hm Hk s H. specialize (Hm s H).
  unfold bind, agent_of in *.
  destruct (m s) as [[c s1] ev1]. simpl in Hm.
  destruct c as [a| | |e]; simpl; auto.
  specialize (Hk a s1 Hm). destruct (k a s1) as [[c2 s2] ev2]. exact Hk.
Qed.

Lemma keeps_try_catch {A : Type} (m : M W A) (h : Error -> M W A) :
  keeps P m -> (forall e, keeps P (h e)) -> keeps P (try_catch m h).
Proof.
  intros Hm Hh s H. specialize (Hm s H).
  unfold try_catch, agent_of in *.
  destruct (m s) as [[c s1] ev1]. simpl in Hm.
  destruct c as [a| | |e]; simpl; auto.
  specialize (Hh e s1 Hm). destruct (h e s1) as [[c2 s2] ev2]. exact Hh.
Qed.

Lemma keeps_try_finally {A : Type} (m : M W A) (f : M W unit) :
  keeps P m -> keeps P f -> keeps P (try_finally m f).
Proof.
  intros Hm Hf s H. specialize (Hm s H).
  unfold try_finally, agent_of in *.
  destruct (m s) as [[c s1] ev1]. simpl in Hm.
  specialize (Hf s1 Hm). destruct (f s1) as [[c2 s2] ev2].
  destruct c2; exact Hf.
Qed.

Lemma keeps_async (m : M W unit) : keeps P m -> keeps P (async m).
Proof.
  intros Hm s H. specialize (Hm s H).
  unfold async, agent_of in *.
  destruct (m s) as [[c s1] ev1]. destruct c; exact Hm.
Qed.

Lemma keeps_for_of {X : Type} (l : list X) (body : X -> M W unit) :
  (forall x, keeps P (body x)) -> keeps P (for_of l body).
Proof.
  intros Hb. induction l as [|x l IH]; intros s H; [exact H|].
  specialize (Hb x s H). simpl. unfold agent_of in *.
  destruct (body x s) as [[c s1] ev1]. simpl in Hb.
  destruct c as [a| | |e]; simpl; auto;
    specialize (IH s1 Hb); unfold agent_of in IH;
    destruct (for_of l body s1) as [[c2 s2] ev2]; exact IH.
Qed.

Lemma keeps_for_of_entries (l : list string) (body : string * Z -> M W unit) :
  (forall x, keeps P (body x)) -> keeps P (for_of_entries l body).
Proof.
  intros Hb. induction l as [|k l IH]; intros s H; [exact H|].
  simpl. destruct (JsMap.get k (retryQueue (fst s))) as [v|]; [|now apply IH].
  specialize (Hb (k, v) s H). unfold agent_of in *.
  destruct (body (k, v) s) as [[c s1] ev1]. simpl in Hb.
  destruct c as [a| | |e]; simpl; auto;
    specialize (IH s1 Hb); unfold agent_of in IH;
    destruct (for_of_entries l body s1) as [[c2 s2] ev2]; exact IH.
Qed.

Lemma keeps_if {A : Type} (b : bool) (m1 m2 : M W A) :
  keeps P m1 -> keeps P m2 -> keeps P (if b then m1 else m2).
Proof. destruct b; auto. Qed.

End Keeps.

Create HintDb keeps.
#[export] Hint Resolve keeps_ret keeps_return keeps_continue keeps_throw
  keeps_console keeps_this keeps_set_isProcessing keeps_await
  keeps_lift_result keeps_async keeps_if : keeps.

(** Walks through a method body, leaving the queue updates to prove. *)
Ltac keeps_step :=
  match goal with
  | |- keeps _ (bind _ _) => apply keeps_bind; [|intro]
  | |- keeps _ (try_catch _ _) => apply keeps_try_catch; [|intro]
  | |- keeps _ (try_finally _ _) => apply keeps_try_finally
  | |- keeps _ (async _) => apply keeps_async
  | |- keeps _ (for_of _ _) => apply keeps_for_of; intro
  | |- keeps _ (for_of_entries _ _) => apply keeps_for_of_entries; intro
  | |- keeps _ (if _ then _ else _) => apply keeps_if
  | |- keeps _ (let _ := _ in _) => cbv zeta
  | |- keeps _ (match ?x with Some _ => _ | None => _ end) => destruct x
  | |- keeps _ _ => solve [auto with keeps]
  end.

(** ** Properties of the retry queue that every method keeps *)

Section Stable.

Context {W : Type}.
Variable gw : Gateway W.
Variable formatEther : Z -> string.
Variable parseEther : string -> result Z.
Variable address : string.
Variable config : Config.

(** A property kept by [delete] and by [set] of a count of at most
    [MAX_RETRIES]. *)
Variable Inv : JsMap.t -> Prop.
Hypothesis Inv_delete : forall k q, Inv q -> Inv (JsMap.delete k q).
Hypothesis Inv_set :
  forall k v q, v <= MAX_RETRIES -> Inv q -> Inv (JsMap.set k v q).

Lemma sendWebhook_keeps (P : JsMap.t -> Prop) (data : Webhook) :
  keeps P (sendWebhook gw config data).
Proof. unfold sendWebhook. repeat keeps_step. Qed.

Lemma timestamp_keeps (P : JsMap.t -> Prop) : keeps P (timestamp gw).
Proof. intros s H. exact H. Qed.

Lemma now_seconds_keeps (P : JsMap.t -> Prop) : keeps P (now_seconds gw).
Proof. intros s H. exact H. Qed.

Lemma toBigInt_keeps (P : JsMap.t -> Prop) (k : string) :
  keeps P (@toBigInt W k).
Proof. unfold toBigInt. destruct (BigInt k); auto with keeps. Qed.

Hint Resolve sendWebhook_keeps timestamp_keeps now_seconds_keeps
  toBigInt_keeps : keeps.

Lemma processSinglePayment_stable (paymentId : Z) :
  keeps Inv (processSinglePayment gw formatEther config paymentId).
Proof.
  unfold processSinglePayment. apply keeps_async, keeps_try_catch.
  - unfold processSinglePayment_try. repeat keeps_step.
    apply keeps_update. intros q. apply Inv_delete.
  - intros err. unfold processSinglePayment_catch.
    apply keeps_bind; [auto with keeps|intros _].
    apply keeps_bind; [auto with keeps|intros a]. cbv zeta.
    match goal with |- keeps _ (if ?c <? _ then _ else _) =>
      destruct (Z.ltb_spec c MAX_RETRIES) as [Hlt|Hge] end.
    + apply keeps_bind; [|auto with keeps].
      apply keeps_update. intros q. apply Inv_set. lia.
    + repeat keeps_step.
Qed.

Lemma processBatchPayments_stable (paymentIds : list Z) :
  keeps Inv (processBatchPayments gw formatEther config paymentIds).
Proof.
  unfold processBatchPayments. apply keeps_async, keeps_try_catch.
  - repeat keeps_step. apply keeps_update. intros q. apply Inv_delete.
  - intros err. repeat keeps_step. apply processSinglePayment_stable.
Qed.

Lemma retryEntry_stable (entry : string * Z) :
  keeps Inv (retryEntry gw formatEther config entry).
Proof.
  destruct entry as [paymentId retryCount]. unfold retryEntry.
  apply keeps_try_catch.
  - unfold retryEntry_try. repeat keeps_step.
    apply keeps_update. intros q. apply Inv_delete.
  - intros err. unfold retryEntry_catch.
    apply keeps_bind; [auto with keeps|intros _]. cbv zeta.
    destruct (Z.leb_spec MAX_RETRIES (retryCount + 1)) as [Hge|Hlt].
    + repeat keeps_step. apply keeps_update. intros q. apply Inv_delete.
    + apply keeps_update. intros q. apply Inv_set. lia.
Qed.

Lemma processRetryQueue_stable :
  keeps Inv (processRetryQueue gw formatEther config).
Proof.
  unfold processRetryQueue. repeat keeps_step. apply retryEntry_stable.
Qed.

Lemma checkPayments_keeps (P : JsMap.t -> Prop) (ids acc : list Z) :
  keeps P (checkPayments gw config ids acc).
Proof.
  revert acc. induction ids as [|id ids IH]; intros acc; simpl.
  - auto with keeps.
  - apply keeps_bind; [|intros acc'; apply IH].
    unfold checkPayment. repeat keeps_step.
Qed.

Lemma dispatch_stable (ids : list Z) :
  keeps Inv (dispatch gw formatEther config ids).
Proof.
  unfold dispatch. repeat keeps_step.
  - apply processBatchPayments_stable.
  - apply processSinglePayment_stable.
Qed.

Lemma checkAndProcessPayments_stable :
  keeps Inv (checkAndProcessPayments gw formatEther config).
Proof.
  unfold checkAndProcessPayments. repeat keeps_step.
  - apply checkPayments_keeps.
  - apply dispatch_stable.
Qed.

Lemma checkBalance_keeps (P : JsMap.t -> Prop) :
  keeps P (checkBalance gw formatEther parseEther address config).
Proof. unfold checkBalance, checkUpcoming. repeat keeps_step. Qed.

Lemma groupByInterval_keeps (P : JsMap.t -> Prop) (ids : list Z)
  (o : JsObject.t) : keeps P (groupByInterval gw ids o).
Proof.
  revert o. induction ids as [|id ids IH]; intros o; simpl.
  - auto with keeps.
  - apply keeps_bind; [auto with keeps|intros p; apply IH].
Qed.

Lemma analyzePaymentPatterns_keeps (P : JsMap.t -> Prop) :
  keeps P (analyzePaymentPatterns gw).
Proof.
  unfold analyzePaymentPatterns. repeat keeps_step.
  apply groupByInterval_keeps.
Qed.

(** Every method keeps such a property. *)
Lemma run_op_stable (o : Op) :
  keeps Inv (run_op gw formatEther parseEther address config o).
Proof.
  destruct o; simpl.
  - apply checkAndProcessPayments_stable.
  - apply checkBalance_keeps.
  - apply processRetryQueue_stable.
  - apply analyzePaymentPatterns_keeps.
  - apply processSinglePayment_stable.
  - apply processBatchPayments_stable.
Qed.

End Stable.

(** Every method keeps the bound on attempt counts. *)
Lemma run_op_bounded {W : Type} (gw : Gateway W) (formatEther : Z -> string)
  (parseEther : string -> result Z) (address : string) (config : Config)
  (o : Op) :
  keeps bounded (run_op gw formatEther parseEther address config o).
Proof. apply run_op_stable; [apply bounded_delete|apply bounded_set]. Qed.

(** Every method keeps the keys of the queue distinct. *)
Lemma run_op_wf {W : Type} (gw : Gateway W) (formatEther : Z -> string)
  (parseEther : string -> result Z) (address : string) (config : Config)
  (o : Op) :
  keeps JsMap.wf (run_op gw formatEther parseEther address config o).
Proof.
  apply run_op_stable; [apply wf_delete|intros k v q _; apply wf_set].
Qed.

Lemma reachable_wf {W : Type} (gw : Gateway W) (formatEther : Z -> string)
  (parseEther : string -> result Z) (address : string) (config : Config)
  (a : PaymentAgent) :
  reachable gw formatEther parseEther address config a ->
  JsMap.wf (retryQueue a).
Proof.
  induction 1 as [|a w o Ha IH].
  - constructor.
  - exact (run_op_wf gw formatEther parseEther address config o (a, w) IH).
Qed.

(** ** The processing guard *)

Section Guard.

Context {W : Type}.

(** [try { body } catch (e) { console.error(..) } finally { release }]
    inside an [async] function entered with the guard free: the promise
    resolves and the guard is free afterwards, whatever [body] does. *)
Lemma guarded_tick_released (body : M W unit) (h : Error -> Line)
  (a : PaymentAgent) (w : W) :
  isProcessing a = false ->
  let o :=
    async
      (a <- this ;;
       (if isProcessing a then console LAlreadyProcessing ;; return_
        else ret tt) ;;
       try_finally (try_catch body (fun e => console (h e)))
                   (set_isProcessing false)) (a, w) in
  completion_of o = Normal tt /\ isProcessing (agent_of o) = false.
Proof.
  intros Hfree. unfold async, bind, this, try_finally, try_catch,
    completion_of, agent_of.
  simpl. rewrite Hfree. simpl.
  destruct (body (a, w)) as [[c s1] ev1].
  destruct c as [u| | |e]; simpl; auto.
Qed.

(** Entered with the guard set, the same function only prints a line. *)
Lemma guarded_tick_skipped (rest : M W unit) (a : PaymentAgent) (w : W) :
  isProcessing a = true ->
  async
    (a <- this ;;
     (if isProcessing a then console LAlreadyProcessing ;; return_
      else ret tt) ;;
     rest) (a, w)
  = (Normal tt, (a, w), [Console LAlreadyProcessing]).
Proof.
  intros Hset. unfold async, bind, this. simpl. rewrite Hset. reflexivity.
Qed.

End Guard.

(** ** Events of composed computations *)

Section Events.

Context {W : Type}.

Lemma events_bind {A B : Type} (m : M W A) (k : A -> M W B) (s : St W) :
  events_of (bind m k s)
  = events_of (m s)
    ++ match completion_of (m s) with
       | Normal a => events_of (k a (state_of (m s)))
       | _ => []
       end.
Proof.
  unfold bind, events_of, completion_of, state_of.
  destruct (m s) as [[c s1] ev1]. simpl.
  destruct c as [a| | |e]; simpl; try now rewrite app_nil_r.
  destruct (k a s1) as [[c2 s2] ev2]. reflexivity.
Qed.

Lemma events_try_catch {A : Type} (m : M W A) (h : Error -> M W A)
  (s : St W) :
  events_of (try_catch m h s)
  = events_of (m s)
    ++ match completion_of (m s) with
       | Throw e => events_of (h e (state_of (m s)))
       | _ => []
       end.
Proof.
  unfold try_catch, events_of, completion_of, state_of.
  destruct (m s) as [[c s1] ev1]. simpl.
  destruct c as [a| | |e]; simpl; try now rewrite app_nil_r.
  destruct (h e s1) as [[c2 s2] ev2]. reflexivity.
Qed.

Lemma events_async (m : M W unit) (s : St W) :
  events_of (async m s) = events_of (m s).
Proof.
  unfold async, events_of. destruct (m s) as [[c s1] ev1].
  destruct c; reflexivity.
Qed.

Lemma events_await {A : Type} (r : Request) (f : W -> result A * W)
  (s : St W) : events_of (await r f s) = [Call r].
Proof.
  unfold await, events_of. destruct (f (snd s)) as [[a|e] w']; reflexivity.
Qed.

Variable P : Event -> Prop.

Lemma emits_ret {A : Type} (a : A) : emits P (@ret W A a).
Proof. intros s. constructor. Qed.

Lemma emits_return {A : Type} : emits P (@return_ W A).
Proof. intros s. constructor. Qed.

Lemma emits_continue {A : Type} : emits P (@continue_ W A).
Proof. intros s. constructor. Qed.

Lemma emits_throw {A : Type} (e : Error) : emits P (@throw W A e).
Proof. intros s. constructor. Qed.

Lemma emits_this : emits P (@this W).
Proof. intros s. constructor. Qed.

Lemma emits_set_isProcessing (b : bool) : emits P (@set_isProcessing W b).
Proof. intros s. constructor. Qed.

Lemma emits_update (f : JsMap.t -> JsMap.t) :
  emits P (@update_retryQueue W f).
Proof. intros s. constructor. Qed.

Lemma emits_lift_result {A : Type} (r : result A) :
  emits P (@lift_result W A r).
Proof. destruct r; intros s; constructor. Qed.

Lemma emits_console (l : Line) : P (Console l) -> emits P (@console W l).
Proof. intros H s. repeat constructor. exact H. Qed.

Lemma emits_await {A : Type} (r : Request) (f : W -> result A * W) :
  P (Call r) -> emits P (await r f).
Proof. intros H s. rewrite events_await. repeat constructor. exact H. Qed.

Lemma emits_bind {A B : Type} (m : M W A) (k : A -> M W B) :
  emits P m -> (forall a, emits P (k a)) -> emits P (bind m k).
Proof.
  intros Hm Hk s. rewrite events_bind. apply Forall_app. split; [apply Hm|].
  destruct (completion_of (m s)); try constructor. apply Hk.
Qed.

Lemma emits_try_catch {A : Type} (m : M W A) (h : Error -> M W A) :
  emits P m -> (forall e, emits P (h e)) -> emits P (try_catch m h).
Proof.
  intros Hm Hh s. rewrite events_try_catch. apply Forall_app.
  split; [apply Hm|].
  destruct (completion_of (m s)); try constructor. apply Hh.
Qed.

Lemma emits_try_finally {A : Type} (m : M W A) (f : M W unit) :
  emits P m -> emits P f -> emits P (try_finally m f).
Proof.
  intros Hm Hf s. specialize (Hm s). unfold try_finally, events_of in *.
  destruct (m s) as [[c s1] ev1]. specialize (Hf s1).
  unfold events_of in Hf. destruct (f s1) as [[c2 s2] ev2].
  destruct c2; simpl in *; apply Forall_app; auto.
Qed.

Lemma emits_async (m : M W unit) : emits P m -> emits P (async m).
Proof. intros Hm s. rewrite events_async. apply Hm. Qed.

Lemma emits_for_of {X : Type} (l : list X) (body : X -> M W unit) :
  (forall x, emits P (body x)) -> emits P (for_of l body).
Proof.
  intros Hb. induction l as [|x l IH]; intros s; [constructor|].
  specialize (Hb x s). simpl. unfold events_of in *.
  destruct (body x s) as [[c s1] ev1]. simpl in Hb.
  destruct c as [a| | |e]; simpl; auto;
    specialize (IH s1); unfold events_of in IH;
    destruct (for_of l body s1) as [[c2 s2] ev2]; simpl in *;
    apply Forall_app; auto.
Qed.

Lemma emits_for_of_entries (l : list string) (body : string * Z -> M W unit) :
  (forall x, emits P (body x)) -> emits P (for_of_entries l body).
Proof.
  intros Hb. induction l as [|k l IH]; intros s; [constructor|].
  simpl. destruct (JsMap.get k (retryQueue (fst s))) as [v|]; [|apply IH].
  specialize (Hb (k, v) s). unfold events_of in *.
  destruct (body (k, v) s) as [[c s1] ev1]. simpl in Hb.
  destruct c as [a| | |e]; simpl; auto;
    specialize (IH s1); unfold events_of in IH;
    destruct (for_of_entries l body s1) as [[c2 s2] ev2]; simpl in *;
    apply Forall_app; auto.
Qed.

Lemma emits_if {A : Type} (b : bool) (m1 m2 : M W A) :
  emits P m1 -> emits P m2 -> emits P (if b then m1 else m2).
Proof. destruct b; auto. Qed.

End Events.

Create HintDb emits.
#[export] Hint Resolve emits_ret emits_return emits_continue emits_throw
  emits_this emits_set_isProcessing emits_update emits_lift_result
  emits_async emits_if : emits.

(** Walks through a method body, leaving the events to check. *)
Ltac emits_step :=
  match goal with
  | |- emits _ (bind _ _) => apply emits_bind; [|intro]
  | |- emits _ (try_catch _ _) => apply emits_try_catch; [|intro]
  | |- emits _ (try_finally _ _) => apply emits_try_finally
  | |- emits _ (async _) => apply emits_async
  | |- emits _ (for_of _ _) => apply emits_for_of; intro
  | |- emits _ (for_of_entries _ _) => apply emits_for_of_entries; intro
  | |- emits _ (if _ then _ else _) => apply emits_if
  | |- emits _ (let _ := _ in _) => cbv zeta
  | |- emits _ (console _) => apply emits_console
  | |- emits _ (await _ _) => apply emits_await
  | |- emits _ _ => solve [auto with emits]
  end.

(** ** The submission mode *)

Section Dispatch.

Context {W : Type}.
Variable gw : Gateway W.
Variable formatEther : Z -> string.
Variable config : Config.

Lemma timestamp_emits (P : Event -> Prop) : emits P (timestamp gw).
Proof. intros s. constructor. Qed.

Lemma now_seconds_emits (P : Event -> Prop) : emits P (now_seconds gw).
Proof. intros s. constructor. Qed.

Lemma toBigInt_emits (P : Event -> Prop) (k : string) :
  emits P (@toBigInt W k).
Proof. unfold toBigInt. destruct (BigInt k); auto with emits. Qed.

Hint Resolve timestamp_emits now_seconds_emits toBigInt_emits : emits.

Lemma sendWebhook_no_batch (data : Webhook) :
  emits (fun e => is_batch_request e = false) (sendWebhook gw config data).
Proof. unfold sendWebhook. repeat emits_step; reflexivity. Qed.

Hint Resolve sendWebhook_no_batch : emits.

Lemma processSinglePayment_no_batch (paymentId : Z) :
  emits (fun e => is_batch_request e = false)
        (processSinglePayment gw formatEther config paymentId).
Proof.
  unfold processSinglePayment, processSinglePayment_try,
    processSinglePayment_catch.
  repeat emits_step; reflexivity.
Qed.


Lemma batch_attempted_false (ev : list Event) :
  Forall (fun e => is_batch_request e = false) ev ->
  batch_attempted ev = false.
Proof.
  unfold batch_attempted. induction 1 as [|e ev He Hev IH]; simpl; auto.
  now rewrite He.
Qed.



End Dispatch.

(** ** What the failure handlers do to the retry queue *)

Section Handlers.

Context {W : Type}.
Variable gw : Gateway W.
Variable formatEther : Z -> string.
Variable config : Config.

Lemma agent_bind {A B : Type} (m : M W A) (k : A -> M W B) (s : St W) :
  agent_of (bind m k s)
  = match completion_of (m s) with
    | Normal a => agent_of (k a (state_of (m s)))
    | _ => agent_of (m s)
    end.
Proof.
  unfold bind, agent_of, completion_of, state_of.
  destruct (m s) as [[c s1] ev1]. simpl.
  destruct c as [a| | |e]; simpl; auto.
  destruct (k a s1) as [[c2 s2] ev2]. reflexivity.
Qed.

Lemma agent_try_catch {A : Type} (m : M W A) (h : Error -> M W A)
  (s : St W) :
  agent_of (try_catch m h s)
  = match completion_of (m s) with
    | Throw e => agent_of (h e (state_of (m s)))
    | _ => agent_of (m s)
    end.
Proof.
  unfold try_catch, agent_of, completion_of, state_of.
  destruct (m s) as [[c s1] ev1]. simpl.
  destruct c as [a| | |e]; simpl; auto.
  destruct (h e s1) as [[c2 s2] ev2]. reflexivity.
Qed.

Lemma agent_async (m : M W unit) (s : St W) :
  agent_of (async m s) = agent_of (m s).
Proof.
  unfold async, agent_of. destruct (m s) as [[c s1] ev1].
  destruct c; reflexivity.
Qed.

(** The drain's handler: the count goes up by one, or the entry goes when
    the new count reaches [MAX_RETRIES]. *)
Lemma retryEntry_catch_queue (paymentId : string) (retryCount : Z)
  (err : Error) (s : St W) :
  retryQueue
    (agent_of (retryEntry_catch gw formatEther config paymentId retryCount
                 err s))
  = if MAX_RETRIES <=? retryCount + 1
    then JsMap.delete paymentId (retryQueue (fst s))
    else JsMap.set paymentId (retryCount + 1) (retryQueue (fst s)).
Proof.
  unfold retryEntry_catch. cbv zeta. rewrite agent_bind. simpl.
  destruct (MAX_RETRIES <=? retryCount + 1); [|reflexivity].
  rewrite agent_bind. simpl. rewrite agent_bind. simpl.
  match goal with |- retryQueue (agent_of (?m ?s0)) = ?q =>
    apply (fun H : keeps (fun q' => q' = q) m => H s0 eq_refl) end.
  repeat keeps_step; try apply toBigInt_keeps; try apply timestamp_keeps;
    apply sendWebhook_keeps.
Qed.

(** The handler of the single-submission path: the count goes up by one
    while it is below [MAX_RETRIES]; at [MAX_RETRIES] the queue is not
    written. *)
Lemma processSinglePayment_catch_queue (paymentId : Z) (err : Error)
  (s : St W) :
  retryQueue
    (agent_of (processSinglePayment_catch gw formatEther config paymentId
                 err s))
  = let currentRetries :=
      get_or_0 (toString paymentId) (retryQueue (fst s)) in
    if currentRetries <? MAX_RETRIES
    then JsMap.set (toString paymentId) (currentRetries + 1)
           (retryQueue (fst s))
    else retryQueue (fst s).
Proof.
  unfold processSinglePayment_catch. cbv zeta. destruct s as [a w].
  rewrite agent_bind. simpl. rewrite agent_bind. simpl.
  destruct (get_or_0 (toString paymentId) (retryQueue a) <? MAX_RETRIES).
  - reflexivity.
  - rewrite agent_bind. simpl.
    match goal with |- retryQueue (agent_of (?m ?s0)) = ?q =>
      apply (fun H : keeps (fun q' => q' = q) m => H s0 eq_refl) end.
    repeat keeps_step; try apply timestamp_keeps; apply sendWebhook_keeps.
Qed.

End Handlers.

(** ** The bound on attempt counts *)

Lemma bounded_get (q : JsMap.t) (k : string) (c : Z) :
  bounded q -> JsMap.get k q = Some c -> c <= MAX_RETRIES.
Proof.
  intros Hq Hk. apply get_In in Hk. unfold bounded in Hq.
  rewrite Forall_forall in Hq. exact (Hq _ Hk).
Qed.

Lemma reachable_bounded {W : Type} (gw : Gateway W) (formatEther : Z -> string)
  (parseEther : string -> result Z) (address : string) (config : Config)
  (a : PaymentAgent) :
  reachable gw formatEther parseEther address config a ->
  bounded (retryQueue a).
Proof.
  induction 1 as [|a w o Ha IH].
  - constructor.
  - exact (run_op_bounded gw formatEther parseEther address config o (a, w) IH).
Qed.

(** C1 (amended).  In every state reachable from the constructor, whatever
    the contract, the provider and the webhook endpoint answer, every
    payment identifier present in [retryQueue] has an attempt count of at
    most [MAX_RETRIES]; and every method, run from any state whose queue
    satisfies this bound, leaves a queue that satisfies it.  The failure
    handling of the drain deletes the entry when the incremented count
    reaches [MAX_RETRIES] and stores the incremented count otherwise; the
    failure handling of [processSinglePayment] stores the incremented count
    whenever the count it read (absent as 0) is below [MAX_RETRIES]. *)
Theorem retryQueue_count_at_most_MAX_RETRIES :
  forall (W : Type) (gw : Gateway W) (formatEther : Z -> string)
         (parseEther : string -> result Z) (address : string)
         (config : Config),
    (forall a : PaymentAgent,
        reachable gw formatEther parseEther address config a ->
        forall (paymentId : string) (count : Z),
          JsMap.get paymentId (retryQueue a) = Some count ->
          count <= MAX_RETRIES)
    /\
    (forall (o : Op) (a : PaymentAgent) (w : W),
        bounded (retryQueue a) ->
        bounded (retryQueue
                   (agent_of (run_op gw formatEther parseEther address
                                config o (a, w)))))
    /\
    (forall (paymentId : string) (retryCount : Z) (err : Error) (s : St W),
        retryQueue
          (agent_of (retryEntry_catch gw formatEther config paymentId
                       retryCount err s))
        = if MAX_RETRIES <=? retryCount + 1
          then JsMap.delete paymentId (retryQueue (fst s))
          else JsMap.set paymentId (retryCount + 1) (retryQueue (fst s)))
    /\
    (forall (paymentId : Z) (err : Error) (s : St W),
        let currentRetries :=
          get_or_0 (toString paymentId) (retryQueue (fst s)) in
        currentRetries < MAX_RETRIES ->
        retryQueue
          (agent_of (processSinglePayment_catch gw formatEther config
                       paymentId err s))
        = JsMap.set (toString paymentId) (currentRetries + 1)
            (retryQueue (fst s))).
Proof.
  intros. split; [|split; [|split]].
  - intros a Ha k c Hk.
    exact (bounded_get _ _ _ (reachable_bounded _ _ _ _ _ _ Ha) Hk).
  - intros o a w Hq.
    exact (run_op_bounded gw formatEther parseEther address config o (a, w) Hq).
  - apply retryEntry_catch_queue.
  - intros paymentId err s currentRetries Hlt.
    rewrite processSinglePayment_catch_queue. cbv zeta. fold currentRetries.
    destruct (Z.ltb_spec currentRetries MAX_RETRIES); [reflexivity|lia].
Qed.

(** The bound at the state reached by three scan ticks during which the
    submission of payment 7 is rejected. *)
Lemma retryQueue_count_at_most_MAX_RETRIES_witness :
  let tick a :=
    agent_of (run_op Scenario.submission_fails Scenario.format_wei
                Scenario.parse_wei Scenario.wallet Scenario.config_default
                ScanTick (a, tt)) in
  JsMap.get "7" (retryQueue (tick (tick (tick new_PaymentAgent)))) = Some 3
  /\ 3 <= MAX_RETRIES.
Proof.
  intros tick. split; [reflexivity|].
  apply (proj1 (retryQueue_count_at_most_MAX_RETRIES unit
                  Scenario.submission_fails Scenario.format_wei
                  Scenario.parse_wei Scenario.wallet Scenario.config_default)
               (tick (tick (tick new_PaymentAgent)))
               (reachable_op _ _ _ _ _ _ tt ScanTick
                  (reachable_op _ _ _ _ _ _ tt ScanTick
                     (reachable_op _ _ _ _ _ _ tt ScanTick
                        (reachable_new _ _ _ _ _))))
               "7" 3).
  reflexivity.
Defined.

(** C1 as stated fails: three scan ticks during which the submission of
    payment 7 is rejected lead to a reachable state in which payment 7 is
    in the queue with count 3, which is not below [MAX_RETRIES]; the third
    failure found count 2 and stored 3 instead of deleting the entry. *)
Lemma retryQueue_count_reaches_MAX_RETRIES :
  let tick a :=
    agent_of (run_op Scenario.submission_fails Scenario.format_wei
                Scenario.parse_wei Scenario.wallet Scenario.config_default
                ScanTick (a, tt)) in
  reachable Scenario.submission_fails Scenario.format_wei Scenario.parse_wei
    Scenario.wallet Scenario.config_default (tick (tick (tick new_PaymentAgent)))
  /\ retryQueue (tick (tick new_PaymentAgent)) = [("7", 2)]
  /\ retryQueue (tick (tick (tick new_PaymentAgent))) = [("7", 3)]
  /\ ~ strictly_bounded (retryQueue (tick (tick (tick new_PaymentAgent)))).
Proof.
  intros tick. split; [|split; [|split]].
  - repeat apply reachable_op. apply reachable_new.
  - reflexivity.
  - reflexivity.
  - intros H. change (strictly_bounded [("7", 3)]) in H.
    inversion H as [|x l Hx Hl]. simpl in Hx. unfold MAX_RETRIES in Hx. lia.
Qed.

(** ** The drain on entries that are not eligible or cannot be checked *)

Section Drain.

Context {W : Type}.
Variable gw : Gateway W.
Variable formatEther : Z -> string.
Variable config : Config.

Lemma retryEntry_not_eligible (paymentId : string) (retryCount id : Z)
  (a : PaymentAgent) (w w' : W) :
  BigInt paymentId = Some id ->
  canProcessPayment gw id w = (Resolved false, w') ->
  retryEntry gw formatEther config (paymentId, retryCount) (a, w)
  = (Continue, (a, w'),
     [Console (LRetrying paymentId retryCount);
      Call (ReqCanProcessPayment id);
      Console (LKeepingInQueue paymentId)]).
Proof.
  intros Hid Hcan.
  unfold retryEntry, try_catch, retryEntry_try, bind, console, toBigInt, await.
  rewrite Hid. simpl. rewrite Hcan. reflexivity.
Qed.

Lemma for_of_entries_cons (k : string) (rest : list string)
  (body : string * Z -> M W unit) (s : St W) (v : Z) :
  JsMap.get k (retryQueue (fst s)) = Some v ->
  for_of_entries (k :: rest) body s
  = match body (k, v) s with
    | (Normal _, s1, ev1) | (Continue, s1, ev1) =>
        let '(c, s2, ev2) := for_of_entries rest body s1 in
        (c, s2, ev1 ++ ev2)
    | (Return, s1, ev1) => (Return, s1, ev1)
    | (Throw e, s1, ev1) => (Throw e, s1, ev1)
    end.
Proof. intros H. simpl. now rewrite H. Qed.

Lemma retryEntry_try_read_error (paymentId : string) (retryCount id : Z)
  (e : Error) (a : PaymentAgent) (w w' : W) :
  BigInt paymentId = Some id ->
  canProcessPayment gw id w = (Rejected e, w') ->
  retryEntry_try gw formatEther config paymentId retryCount (a, w)
  = (Throw e, (a, w'),
     [Console (LRetrying paymentId retryCount);
      Call (ReqCanProcessPayment id)]).
Proof.
  intros Hid Hcan.
  unfold retryEntry_try, bind, console, toBigInt, await.
  rewrite Hid. simpl. rewrite Hcan. reflexivity.
Qed.

End Drain.

(** C8 (amended).  During a drain, an entry whose eligibility re-check
    answers false is left as it is (the agent's state is untouched, three
    events are produced) and the drain goes on with the next entries.  An
    eligibility re-check that is rejected (a read error) is handled like a
    failed submission: the entry's count goes up by one, or the entry is
    deleted when the new count reaches [MAX_RETRIES]. *)
Theorem drain_not_eligible_unchanged_read_error_counted :
  forall (W : Type) (gw : Gateway W) (formatEther : Z -> string)
         (config : Config) (paymentId : string) (retryCount id : Z)
         (rest : list string) (a : PaymentAgent) (w w' : W),
    BigInt paymentId = Some id ->
    JsMap.get paymentId (retryQueue a) = Some retryCount ->
    (canProcessPayment gw id w = (Resolved false, w') ->
     for_of_entries (paymentId :: rest) (retryEntry gw formatEther config)
       (a, w)
     = let '(c, s2, ev2) :=
         for_of_entries rest (retryEntry gw formatEther config) (a, w') in
       (c, s2,
        [Console (LRetrying paymentId retryCount);
         Call (ReqCanProcessPayment id);
         Console (LKeepingInQueue paymentId)] ++ ev2))
    /\
    (forall e, canProcessPayment gw id w = (Rejected e, w') ->
     retryQueue
       (agent_of (retryEntry gw formatEther config (paymentId, retryCount)
                    (a, w)))
     = if MAX_RETRIES <=? retryCount + 1
       then JsMap.delete paymentId (retryQueue a)
       else JsMap.set paymentId (retryCount + 1) (retryQueue a)).
Proof.
  intros W gw formatEther config paymentId retryCount id rest a w w'
    Hid Hget. split.
  - intros Hcan.
    rewrite (for_of_entries_cons paymentId rest _ (a, w) retryCount Hget).
    rewrite (retryEntry_not_eligible gw formatEther config paymentId
               retryCount id a w w' Hid Hcan).
    reflexivity.
  - intros e Hcan. unfold retryEntry. rewrite agent_try_catch.
    rewrite (retryEntry_try_read_error gw formatEther config paymentId
               retryCount id e a w w' Hid Hcan).
    simpl. apply retryEntry_catch_queue.
Qed.

(** An entry that is not eligible stays, one whose check is rejected is
    charged an attempt. *)
Lemma drain_not_eligible_unchanged_read_error_counted_witness :
  let a := {| isProcessing := false; retryQueue := [("7", 1)] |} in
  for_of_entries ["7"]
    (retryEntry (Scenario.not_eligible 1700000000000) Scenario.format_wei
       Scenario.config_default) (a, tt)
  = (Normal tt, (a, tt),
     [Console (LRetrying "7" 1); Call (ReqCanProcessPayment 7);
      Console (LKeepingInQueue "7")])
  /\ retryQueue
       (agent_of (retryEntry Scenario.eligibility_read_fails
                    Scenario.format_wei Scenario.config_default ("7", 1)
                    (a, tt)))
     = [("7", 2)].
Proof.
  intros a. split.
  - rewrite (proj1 (drain_not_eligible_unchanged_read_error_counted unit
                      (Scenario.not_eligible 1700000000000)
                      Scenario.format_wei Scenario.config_default
                      "7" 1 7 [] a tt tt eq_refl eq_refl) eq_refl).
    reflexivity.
  - rewrite (proj2 (drain_not_eligible_unchanged_read_error_counted unit
                      Scenario.eligibility_read_fails
                      Scenario.format_wei Scenario.config_default
                      "7" 1 7 [] a tt tt eq_refl eq_refl)
               "network error" eq_refl).
    reflexivity.
Defined.

(** C8 as stated fails on its second half: when the eligibility re-check
    of a drain is rejected by the node, the entry is not skipped without
    penalty.  Payment 7, queued with count 1 by a scan tick whose
    submission failed, comes out of such a drain with count 2; queued with
    count 2 it is deleted and reported as failed, although no submission
    was attempted. *)
Lemma drain_read_error_is_penalised :
  fst (Scenario.after Scenario.submission_fails Scenario.config_default
         [ScanTick])
  = {| isProcessing := false; retryQueue := [("7", 1)] |}
  /\ processRetryQueue Scenario.eligibility_read_fails Scenario.format_wei
       Scenario.config_default
       ({| isProcessing := false; retryQueue := [("7", 1)] |}, tt)
     = (Normal tt, ({| isProcessing := false; retryQueue := [("7", 2)] |}, tt),
        [Console (LProcessingRetryQueue 1); Console (LRetrying "7" 1);
         Call (ReqCanProcessPayment 7);
         Console (LErrorRetrying "7" "network error")])
  /\ processRetryQueue Scenario.eligibility_read_fails Scenario.format_wei
       Scenario.config_default
       ({| isProcessing := false; retryQueue := [("7", 2)] |}, tt)
     = (Normal tt, ({| isProcessing := false; retryQueue := [] |}, tt),
        [Console (LProcessingRetryQueue 1); Console (LRetrying "7" 2);
         Call (ReqCanProcessPayment 7);
         Console (LErrorRetrying "7" "network error");
         Console (LRemovingFromQueue "7");
         Call (ReqRecurringPayments 7);
         Call (ReqAxiosPost "http://localhost:3001/webhook"
                 (RetryPaymentFailed "7" "0xB0b" "5" "network error"
                    1700000000000));
         Console (LWebhookSent
                    (RetryPaymentFailed "7" "0xB0b" "5" "network error"
                       1700000000000))]).
Proof. repeat split. Qed.

(** ** The due-time diagnosis of the scanner *)

Lemma round_f64_exact (x : Z) : Z.abs x < 2 ^ 53 -> round_f64 x = x.
Proof.
  intros H. unfold round_f64. cbv zeta.
  destruct (Z.ltb_spec (Z.abs x) (2 ^ 53)); [reflexivity|lia].
Qed.

Lemma nextPaymentTime_exact (p : Payment) :
  0 <= lastPayment p -> 0 <= interval p ->
  lastPayment p + interval p < 2 ^ 53 ->
  round_f64 (Number (lastPayment p) + Number (interval p))
  = lastPayment p + interval p.
Proof.
  intros Hl Hi Hs. unfold Number.
  rewrite (round_f64_exact (lastPayment p)) by lia.
  rewrite (round_f64_exact (interval p)) by lia.
  apply round_f64_exact. lia.
Qed.

Section Diagnosis.

Context {W : Type}.
Variable gw : Gateway W.
Variable config : Config.

(** The events of [sendWebhook]: nothing, or the post followed by one
    console line. *)
Lemma sendWebhook_events (data : Webhook) (s : St W) :
  Forall (fun e => match e with
                   | Call (ReqAxiosPost _ _) => True
                   | Console (LWebhookSent _) => True
                   | Console (LErrorWebhook _) => True
                   | _ => False
                   end)
         (events_of (sendWebhook gw config data s)).
Proof.
  revert s. change (emits (fun e => match e with
                   | Call (ReqAxiosPost _ _) => True
                   | Console (LWebhookSent _) => True
                   | Console (LErrorWebhook _) => True
                   | _ => False
                   end) (sendWebhook gw config data)).
  unfold sendWebhook. repeat emits_step; exact I.
Qed.

(** [sendWebhook] swallows every error of the post. *)
Lemma sendWebhook_resolves (data : Webhook) (s : St W) :
  completion_of (sendWebhook gw config data s) = Normal tt.
Proof.
  unfold sendWebhook, async, bind, try_catch, await, console, completion_of.
  destruct (truthy (webhookUrl config)); simpl; [|reflexivity].
  destruct (axios_post gw (webhookUrl config) data (snd s)) as [[u|e] w'];
    reflexivity.
Qed.




End Diagnosis.




(** ** The two limits of config.ts are not read *)

(** The methods read [webhookUrl] and [lowBalanceThreshold] only. *)
Lemma run_op_reads_two_fields {W : Type} (gw : Gateway W)
  (formatEther : Z -> string) (parseEther : string -> result Z)
  (address : string) (c1 c2 : Config) (o : Op) :
  webhookUrl c1 = webhookUrl c2 ->
  lowBalanceThreshold c1 = lowBalanceThreshold c2 ->
  run_op gw formatEther parseEther address c1 o
  = run_op gw formatEther parseEther address c2 o.
Proof.
  destruct c1, c2. simpl. intros -> ->. destruct o; reflexivity.
Qed.

(** C10.  Two runs of the agent whose configurations differ only in
    [retryLimit] and [batchProcessingThreshold] behave alike: every method,
    and every sequence of firings, yields the same completion, the same
    agent state, the same state of the outside and the same events; the
    retry bound is the constant [MAX_RETRIES = 3]. *)
Theorem limits_noninterference :
  forall (W : Type) (gw : Gateway W) (formatEther : Z -> string)
         (parseEther : string -> result Z) (address : string)
         (c1 c2 : Config),
    differ_only_in_limits c1 c2 ->
    (forall (o : Op) (s : St W),
        run_op gw formatEther parseEther address c1 o s
        = run_op gw formatEther parseEther address c2 o s)
    /\ (forall (l : list Op) (s : St W),
           run_ops gw formatEther parseEther address c1 l s
           = run_ops gw formatEther parseEther address c2 l s)
    /\ MAX_RETRIES = 3.
Proof.
  intros W gw formatEther parseEther address c1 c2
    (_ & _ & _ & Hurl & Hlow & _ & _).
  assert (Hop : forall o,
             run_op gw formatEther parseEther address c1 o
             = run_op gw formatEther parseEther address c2 o).
  { intros o. now apply run_op_reads_two_fields. }
  split; [|split; [|reflexivity]].
  - intros o s. now rewrite Hop.
  - induction l as [|o l IH]; intros s; simpl; [reflexivity|].
    rewrite Hop.
    destruct (run_op gw formatEther parseEther address c2 o s) as [[c s1] ev1].
    now rewrite IH.
Qed.

(** The default configuration and the one with both limits set to 5 give
    the same four scan ticks on an outside whose reads fail. *)
Lemma limits_noninterference_witness :
  run_ops Scenario.reads_fail Scenario.format_wei Scenario.parse_wei
    Scenario.wallet Scenario.config_default
    [ScanTick; ScanTick; ScanTick; ScanTick; RetryTick]
    (new_PaymentAgent, tt)
  = run_ops Scenario.reads_fail Scenario.format_wei Scenario.parse_wei
      Scenario.wallet Scenario.config_five
      [ScanTick; ScanTick; ScanTick; ScanTick; RetryTick]
      (new_PaymentAgent, tt).
Proof.
  apply (proj1 (proj2 (limits_noninterference unit Scenario.reads_fail
                         Scenario.format_wei Scenario.parse_wei
                         Scenario.wallet Scenario.config_default
                         Scenario.config_five
                         ltac:(repeat split)))).
Defined.

(** ** Where errors are contained *)

Section Containment.

Context {W : Type}.

Lemma no_throw_ret {A : Type} (a : A) : no_throw (@ret W A a).
Proof. intros s e. discriminate. Qed.

Lemma no_throw_console (l : Line) : no_throw (@console W l).
Proof. intros s e. discriminate. Qed.

Lemma no_throw_this : no_throw (@this W).
Proof. intros s e. discriminate. Qed.

Lemma no_throw_update (f : JsMap.t -> JsMap.t) :
  no_throw (@update_retryQueue W f).
Proof. intros s e. discriminate. Qed.

Lemma no_throw_bind {A B : Type} (m : M W A) (k : A -> M W B) :
  no_throw m -> (forall a, no_throw (k a)) -> no_throw (bind m k).
Proof.
  intros Hm Hk s e. specialize (Hm s). unfold bind, completion_of in *.
  destruct (m s) as [[c s1] ev1]. simpl in Hm.
  destruct c as [a| | |e']; simpl; try discriminate.
  - specialize (Hk a s1 e). unfold completion_of in Hk.
    destruct (k a s1) as [[c2 s2] ev2]. exact Hk.
  - destruct (Hm e' eq_refl).
Qed.

Lemma no_throw_try_catch {A : Type} (m : M W A) (h : Error -> M W A) :
  (forall e, no_throw (h e)) -> no_throw (try_catch m h).
Proof.
  intros Hh s e. unfold try_catch, completion_of.
  destruct (m s) as [[c s1] ev1].
  destruct c as [a| | |e']; simpl; try discriminate.
  specialize (Hh e' s1 e). unfold completion_of in Hh.
  destruct (h e' s1) as [[c2 s2] ev2]. exact Hh.
Qed.

Lemma no_throw_for_of {X : Type} (l : list X) (body : X -> M W unit) :
  (forall x, no_throw (body x)) -> no_throw (for_of l body).
Proof.
  intros Hb. induction l as [|x l IH]; intros s e; [discriminate|].
  specialize (Hb x s). simpl. unfold completion_of in *.
  destruct (body x s) as [[c s1] ev1]. simpl in Hb.
  destruct c as [a| | |e']; simpl; try discriminate;
    try (specialize (IH s1 e); unfold completion_of in IH;
         destruct (for_of l body s1) as [[c2 s2] ev2]; exact IH).
  destruct (Hb e' eq_refl).
Qed.

Lemma no_throw_for_of_entries (l : list string)
  (body : string * Z -> M W unit) :
  (forall x, no_throw (body x)) -> no_throw (for_of_entries l body).
Proof.
  intros Hb. induction l as [|k l IH]; intros s e; [discriminate|].
  simpl. destruct (JsMap.get k (retryQueue (fst s))) as [v|]; [|apply IH].
  specialize (Hb (k, v) s). unfold completion_of in *.
  destruct (body (k, v) s) as [[c s1] ev1]. simpl in Hb.
  destruct c as [a| | |e']; simpl; try discriminate;
    try (specialize (IH s1 e); unfold completion_of in IH;
         destruct (for_of_entries l body s1) as [[c2 s2] ev2]; exact IH).
  destruct (Hb e' eq_refl).
Qed.

Lemma no_throw_if {A : Type} (b : bool) (m1 m2 : M W A) :
  no_throw m1 -> no_throw m2 -> no_throw (if b then m1 else m2).
Proof. destruct b; auto. Qed.

(** An [async] function whose body cannot throw resolves. *)
Lemma async_resolves (m : M W unit) (s : St W) :
  no_throw m -> resolves (async m s).
Proof.
  intros Hm. specialize (Hm s). unfold resolves, async, completion_of in *.
  destruct (m s) as [[c s1] ev1]. simpl in Hm.
  destruct c as [[]| | |e]; try reflexivity. destruct (Hm e eq_refl).
Qed.

(** The promise of an [async] function resolves unless it rejects. *)
Lemma async_no_throw_resolves (m : M W unit) (s : St W) :
  no_throw (async m) -> resolves (async m s).
Proof.
  intros Hm. specialize (Hm s). unfold resolves, async, completion_of in *.
  destruct (m s) as [[c s1] ev1]. simpl in *.
  destruct c as [[]| | |e]; try reflexivity. destruct (Hm e eq_refl).
Qed.

Lemma no_throw_async (m : M W unit) : no_throw m -> no_throw (async m).
Proof.
  intros Hm s e. rewrite (async_resolves m s Hm). discriminate.
Qed.

Variable gw : Gateway W.
Variable formatEther : Z -> string.
Variable parseEther : string -> result Z.
Variable address : string.
Variable config : Config.

Lemma sendWebhook_no_throw (data : Webhook) :
  no_throw (sendWebhook gw config data).
Proof. intros s e. rewrite sendWebhook_resolves. discriminate. Qed.

(** The scan tick, the balance tick and the analysis tick resolve whatever
    the outside answers: their [catch] blocks only print. *)
Lemma checkAndProcessPayments_resolves (s : St W) :
  resolves (checkAndProcessPayments gw formatEther config s).
Proof.
  destruct s as [a w]. destruct (isProcessing a) eqn:Hguard.
  - unfold resolves, checkAndProcessPayments.
    now rewrite guarded_tick_skipped.
  - unfold resolves, checkAndProcessPayments.
    apply (guarded_tick_released _ LErrorInCheck a w Hguard).
Qed.

Lemma checkBalance_resolves (s : St W) :
  resolves (checkBalance gw formatEther parseEther address config s).
Proof.
  apply async_resolves, no_throw_try_catch. intros e. apply no_throw_console.
Qed.

Lemma analyzePaymentPatterns_resolves (s : St W) :
  resolves (analyzePaymentPatterns gw s).
Proof.
  apply async_resolves, no_throw_try_catch. intros e. apply no_throw_console.
Qed.

(** Without a webhook endpoint the failure handlers await nothing, and the
    single submission, the batch submission and the drain resolve too. *)
Hypothesis no_webhook : webhookUrl config = EmptyString.

Lemma processSinglePayment_catch_no_throw (paymentId : Z) (err : Error) :
  no_throw (processSinglePayment_catch gw formatEther config paymentId err).
Proof.
  unfold processSinglePayment_catch. rewrite no_webhook.
  change (truthy EmptyString) with false. cbv iota.
  apply no_throw_bind; [apply no_throw_console|intros _].
  apply no_throw_bind; [apply no_throw_this|intros a]. cbv zeta.
  apply no_throw_if;
    (apply no_throw_bind; [|intros _]);
    auto using no_throw_console, no_throw_update, no_throw_ret.
Qed.

Lemma processSinglePayment_no_throw (paymentId : Z) :
  no_throw (processSinglePayment gw formatEther config paymentId).
Proof.
  apply no_throw_async, no_throw_try_catch.
  apply processSinglePayment_catch_no_throw.
Qed.

Lemma processBatchPayments_no_throw (paymentIds : list Z) :
  no_throw (processBatchPayments gw formatEther config paymentIds).
Proof.
  apply no_throw_async, no_throw_try_catch. intros err.
  apply no_throw_bind; [apply no_throw_console|intros _].
  apply no_throw_bind; [apply no_throw_console|intros _].
  apply no_throw_for_of, processSinglePayment_no_throw.
Qed.

Lemma retryEntry_no_throw (entry : string * Z) :
  no_throw (retryEntry gw formatEther config entry).
Proof.
  destruct entry as [paymentId retryCount]. unfold retryEntry.
  apply no_throw_try_catch. intros err.
  unfold retryEntry_catch. rewrite no_webhook.
  change (truthy EmptyString) with false. cbv iota zeta.
  apply no_throw_bind; [apply no_throw_console|intros _].
  apply no_throw_if; [|apply no_throw_update].
  apply no_throw_bind; [apply no_throw_console|intros _].
  apply no_throw_bind; [apply no_throw_update|intros _].
  apply no_throw_ret.
Qed.

Lemma processRetryQueue_no_throw :
  no_throw (processRetryQueue gw formatEther config).
Proof.
  unfold processRetryQueue. apply no_throw_async.
  apply no_throw_bind; [apply no_throw_this|intros a].
  apply no_throw_bind;
    [apply no_throw_if; [discriminate|apply no_throw_ret]|intros _].
  apply no_throw_bind; [apply no_throw_console|intros _].
  apply no_throw_for_of_entries, retryEntry_no_throw.
Qed.

Lemma run_op_resolves_without_webhook (o : Op) (s : St W) :
  resolves (run_op gw formatEther parseEther address config o s).
Proof.
  destruct o; simpl.
  - apply checkAndProcessPayments_resolves.
  - apply checkBalance_resolves.
  - apply async_no_throw_resolves, processRetryQueue_no_throw.
  - apply analyzePaymentPatterns_resolves.
  - apply async_no_throw_resolves, processSinglePayment_no_throw.
  - apply async_no_throw_resolves, processBatchPayments_no_throw.
Qed.

End Containment.

(** ** A completed submission clears the retry state *)

Section Clearing.

Context {W : Type}.

Lemma establishes_bind {A B : Type} (Q : JsMap.t -> Prop) (m : M W A)
  (k : A -> M W B) :
  (forall a, establishes Q (k a)) -> establishes Q (bind m k).
Proof.
  intros Hk s b Hc. unfold bind, completion_of, agent_of in *.
  destruct (m s) as [[c s1] ev1].
  destruct c as [a| | |e]; simpl in Hc; try discriminate.
  specialize (Hk a s1 b). unfold completion_of, agent_of in Hk.
  destruct (k a s1) as [[c2 s2] ev2]. simpl in *. auto.
Qed.

Lemma establishes_update (Q : JsMap.t -> Prop) (f : JsMap.t -> JsMap.t) :
  (forall q, Q (f q)) -> establishes Q (@update_retryQueue W f).
Proof. intros Hf s a _. apply Hf. Qed.

Lemma absent_delete (k k' : string) (q : JsMap.t) :
  absent k q -> absent k (JsMap.delete k' q).
Proof.
  unfold absent. intros H. destruct (String.eqb_spec k' k) as [->|Hne].
  - apply get_delete_same.
  - now rewrite get_delete_other.
Qed.

Lemma for_of_delete (l : list Z) (s : St W) :
  for_of l (fun paymentId =>
              update_retryQueue (JsMap.delete (toString paymentId))) s
  = (Normal tt,
     ({| isProcessing := isProcessing (fst s);
         retryQueue :=
           fold_left (fun q paymentId => JsMap.delete (toString paymentId) q)
                     l (retryQueue (fst s)) |}, snd s),
     []).
Proof.
  revert s. induction l as [|x l IH]; intros [[g q] w]; [reflexivity|].
  simpl. rewrite IH. reflexivity.
Qed.

Lemma absent_fold_delete (k : string) (l : list Z) (q : JsMap.t) :
  absent k q \/ In k (map toString l) ->
  absent k
    (fold_left (fun q paymentId => JsMap.delete (toString paymentId) q) l q).
Proof.
  revert q. induction l as [|x l IH]; intros q [H|H]; simpl in *; auto.
  - contradiction.
  - apply IH. left. now apply absent_delete.
  - destruct H as [<-|H]; apply IH; [left|right; exact H].
    apply get_delete_same.
Qed.

Variable gw : Gateway W.
Variable formatEther : Z -> string.
Variable config : Config.

Lemma processSinglePayment_try_establishes (paymentId : Z) :
  establishes (absent (toString paymentId))
    (processSinglePayment_try gw formatEther config paymentId).
Proof.
  unfold processSinglePayment_try.
  repeat (apply establishes_bind; intro).
  apply establishes_update. intros q. apply get_delete_same.
Qed.

Lemma retryEntry_try_establishes (paymentId : string) (retryCount : Z) :
  establishes (absent paymentId)
    (retryEntry_try gw formatEther config paymentId retryCount).
Proof.
  unfold retryEntry_try.
  repeat (apply establishes_bind; intro).
  apply establishes_update. intros q. apply get_delete_same.
Qed.

(** Single submission: when the [try] block runs to its end, the payment
    is no longer in the queue. *)
Lemma processSinglePayment_success_clears (paymentId : Z) (s : St W) :
  completion_of (processSinglePayment_try gw formatEther config paymentId s)
  = Normal tt ->
  absent (toString paymentId)
    (retryQueue
       (agent_of (processSinglePayment gw formatEther config paymentId s))).
Proof.
  intros Hc. unfold processSinglePayment.
  rewrite agent_async, agent_try_catch, Hc.
  revert Hc. apply processSinglePayment_try_establishes.
Qed.

(** Batch submission: when the [try] block runs to its end, none of the
    payments of the batch is in the queue. *)
Lemma processBatchPayments_success_clears (paymentIds : list Z) (s : St W) :
  (exists tx w1 r w2,
      processMultiplePayments gw paymentIds 6000000 (snd s)
      = (Resolved tx, w1)
      /\ wait gw tx w1 = (Resolved r, w2)) ->
  forall paymentId,
    In paymentId paymentIds ->
    absent (toString paymentId)
      (retryQueue
         (agent_of (processBatchPayments gw formatEther config paymentIds s))).
Proof.
  intros (tx & w1 & r & w2 & Hsub & Hwait) paymentId Hin.
  destruct s as [a w]. simpl in Hsub.
  unfold processBatchPayments, async, try_catch, bind, await, console,
    timestamp, agent_of.
  simpl. rewrite Hsub. simpl. rewrite Hwait. simpl.
  destruct (truthy (webhookUrl config)).
  - pose proof (sendWebhook_resolves gw config
                  (BatchPaymentsProcessed (map toString paymentIds) (hash tx)
                     (Date_now gw w2)) (a, w2)) as Hres.
    pose proof (sendWebhook_keeps gw config
                  (fun q => q = retryQueue a)
                  (BatchPaymentsProcessed (map toString paymentIds) (hash tx)
                     (Date_now gw w2)) (a, w2) eq_refl) as Hq.
    unfold completion_of, agent_of in Hres, Hq.
    destruct (sendWebhook gw config _ (a, w2)) as [[c s'] ev].
    simpl in Hres, Hq. subst c. simpl. rewrite for_of_delete. simpl.
    apply absent_fold_delete. right. now apply in_map.
  - simpl. rewrite for_of_delete. simpl.
    apply absent_fold_delete. right. now apply in_map.
Qed.

(** Drain: when the [try] block of an entry runs to its end, the entry is
    no longer in the queue. *)
Lemma retryEntry_success_clears (paymentId : string) (retryCount : Z)
  (s : St W) :
  completion_of (retryEntry_try gw formatEther config paymentId retryCount s)
  = Normal tt ->
  absent paymentId
    (retryQueue
       (agent_of (retryEntry gw formatEther config (paymentId, retryCount) s))).
Proof.
  intros Hc. unfold retryEntry. rewrite agent_try_catch, Hc.
  revert Hc. apply retryEntry_try_establishes.
Qed.

(** A failure of the single submission of a payment that is not in the
    queue starts from count 0 and stores 1. *)
Lemma failure_after_clearing_starts_at_0 (paymentId : Z) (err : Error)
  (s : St W) :
  absent (toString paymentId) (retryQueue (fst s)) ->
  retryQueue
    (agent_of (processSinglePayment_catch gw formatEther config paymentId
                 err s))
  = JsMap.set (toString paymentId) 1 (retryQueue (fst s)).
Proof.
  intros Habs. rewrite processSinglePayment_catch_queue. cbv zeta.
  unfold get_or_0. unfold absent in Habs. rewrite !Habs. reflexivity.
Qed.

End Clearing.

(** ** The fallback of a failed batch *)

Section Fallback.

Context {W : Type}.
Variable gw : Gateway W.
Variable formatEther : Z -> string.
Variable config : Config.

Lemma single_path_entries_app (ev1 ev2 : list Event) :
  single_path_entries (ev1 ++ ev2)
  = single_path_entries ev1 ++ single_path_entries ev2.
Proof.
  induction ev1 as [|e ev1 IH]; simpl; [reflexivity|].
  destruct e as [r|l]; [exact IH|]. destruct l; simpl; now rewrite ?IH.
Qed.

Lemma single_path_entries_none (ev : list Event) :
  Forall (fun e => is_single_path_entry e = false) ev ->
  single_path_entries ev = [].
Proof.
  induction 1 as [|e ev He Hev IH]; simpl; [reflexivity|].
  destruct e as [r|l]; [exact IH|]. destruct l; simpl in *; auto.
  discriminate.
Qed.

Lemma sendWebhook_no_entry (data : Webhook) :
  emits (fun e => is_single_path_entry e = false)
        (sendWebhook gw config data).
Proof. unfold sendWebhook. repeat emits_step; reflexivity. Qed.

(** A run of [processSinglePayment] prints its entry line once. *)
Lemma processSinglePayment_enters_once (paymentId : Z) (s : St W) :
  single_path_entries
    (events_of (processSinglePayment gw formatEther config paymentId s))
  = [paymentId].
Proof.
  unfold processSinglePayment.
  rewrite events_async, events_try_catch, single_path_entries_app.
  unfold processSinglePayment_try at 1.
  rewrite events_bind, single_path_entries_app. simpl.
  f_equal. change (@nil Z) with (@nil Z ++ @nil Z). f_equal.
  - apply single_path_entries_none.
    match goal with |- Forall _ (events_of (?k ?s0)) =>
      apply (fun H : emits (fun e => is_single_path_entry e = false) k =>
               H s0) end.
    repeat emits_step; try reflexivity;
      try apply timestamp_emits; apply sendWebhook_no_entry.
  - apply single_path_entries_none.
    destruct (completion_of _); try constructor.
    match goal with |- Forall _ (events_of (?k ?s0)) =>
      apply (fun H : emits (fun e => is_single_path_entry e = false) k =>
               H s0) end.
    unfold processSinglePayment_catch.
    repeat emits_step; try reflexivity;
      try apply timestamp_emits; apply sendWebhook_no_entry.
Qed.

(** As long as no run of [processSinglePayment] rejects, a loop over the
    payments enters the single-submission path once for each, in order. *)
Lemma for_of_processSinglePayment_entries (l : list Z) (s : St W) :
  (forall paymentId,
      no_throw (processSinglePayment gw formatEther config paymentId)) ->
  let o := for_of l (processSinglePayment gw formatEther config) s in
  completion_of o = Normal tt /\ single_path_entries (events_of o) = l.
Proof.
  intros Hres. revert s. induction l as [|x l IH]; intros s; [now split|].
  pose proof (async_no_throw_resolves _ s (Hres x)) as Hx.
  pose proof (processSinglePayment_enters_once x s) as Hev.
  fold (processSinglePayment gw formatEther config x) in Hx.
  cbv zeta. simpl for_of. unfold resolves, completion_of, events_of in *.
  destruct (processSinglePayment gw formatEther config x s) as [[c s1] ev1].
  simpl in Hx, Hev. subst c.
  specialize (IH s1). cbv zeta in IH. unfold completion_of, events_of in IH.
  destruct (for_of l (processSinglePayment gw formatEther config) s1)
    as [[c2 s2] ev2].
  simpl in *. destruct IH as [-> IH]. split; [reflexivity|].
  now rewrite single_path_entries_app, Hev, IH.
Qed.

(** When the batch call is rejected and no run of [processSinglePayment]
    rejects (in particular without a webhook endpoint), the fallback
    contains the error and every payment of the batch enters the
    single-submission path exactly once, in batch order. *)
Lemma batch_fallback_each_once (paymentIds : list Z) (e : Error)
  (a : PaymentAgent) (w w' : W) :
  (forall paymentId,
      no_throw (processSinglePayment gw formatEther config paymentId)) ->
  processMultiplePayments gw paymentIds 6000000 w = (Rejected e, w') ->
  let o := processBatchPayments gw formatEther config paymentIds (a, w) in
  completion_of o = Normal tt
  /\ single_path_entries (events_of o) = paymentIds.
Proof.
  intros Hres Hbatch.
  pose proof (for_of_processSinglePayment_entries paymentIds (a, w') Hres)
    as Hloop.
  cbv zeta in *.
  unfold processBatchPayments, async, try_catch, bind, await, console,
    completion_of, events_of in *.
  simpl. rewrite Hbatch. simpl.
  destruct (for_of paymentIds (processSinglePayment gw formatEther config)
              (a, w')) as [[c2 s2] ev2].
  simpl in *. destruct Hloop as [-> Hloop]. now split.
Qed.

End Fallback.

(** ** The order of the single submissions *)

Section DispatchOrder.

Context {W : Type}.
Variable gw : Gateway W.
Variable formatEther : Z -> string.
Variable config : Config.



End DispatchOrder.




(** ** Runs on which the agent departs from its specification *)

(** Concrete runs are settled by evaluation. *)
Ltac by_running :=
  repeat match goal with |- _ /\ _ => split end;
  vm_compute; try reflexivity.

(** C2 (the code departs from the claim).  Payment 7 is eligible at every
    scan tick and its submission is rejected every time.  After three ticks
    it is queued with count [MAX_RETRIES].  The fourth failure, met with the
    count at [MAX_RETRIES], posts the [PaymentFailed] notification but
    leaves the entry in the queue, so that the next drain submits the
    payment once more: five submissions in all. *)
Theorem single_path_keeps_entry_at_ceiling :
  let s3 := Scenario.after Scenario.submission_fails Scenario.config_default
              [ScanTick; ScanTick; ScanTick] in
  let o := processSinglePayment Scenario.submission_fails Scenario.format_wei
             Scenario.config_default 7 s3 in
  retryQueue (fst s3) = [("7", MAX_RETRIES)]
  /\ completion_of o = Normal tt
  /\ notifications (events_of o)
     = [ProcessingPayment "7" "0xB0b" "5" 1700000000000;
        PaymentFailed "7" "0xB0b" "5" "execution reverted" 1700000000000]
  /\ map webhook_type (notifications (events_of o)) = [info; error]
  /\ JsMap.get "7" (retryQueue (agent_of o)) = Some MAX_RETRIES
  /\ single_submissions
       (snd (run_ops Scenario.submission_fails Scenario.format_wei
               Scenario.parse_wei Scenario.wallet Scenario.config_default
               [ScanTick; ScanTick; ScanTick; ScanTick; RetryTick]
               (new_PaymentAgent, tt)))
     = [7; 7; 7; 7; 7].
Proof. intros. by_running. Qed.

(** C4 (the code departs from the claim).  A scan tick fails to submit
    payment 7 and queues it with count 1.  The next drain submits it and the
    transaction is confirmed, but the read of the payment record for the
    success notification times out; the drain's handler takes this for a
    failed attempt, and the entry stays, now with count 2. *)
Theorem drain_success_not_cleared_when_record_read_fails :
  let s1 := fst (run_ops Scenario.record_read_glitch Scenario.format_wei
                   Scenario.parse_wei Scenario.wallet Scenario.config_default
                   [ScanTick] (new_PaymentAgent, 0%nat)) in
  let o := processRetryQueue Scenario.record_read_glitch Scenario.format_wei
             Scenario.config_default s1 in
  retryQueue (fst s1) = [("7", 1)]
  /\ events_of o
     = [Console (LProcessingRetryQueue 1); Console (LRetrying "7" 1);
        Call (ReqCanProcessPayment 7);
        Call (ReqProcessRecurringPayment 7 3000000);
        Console (LRetrySubmitted "0x7c1"); Call (ReqWait Scenario.tx1);
        Console (LRetryProcessed "7" (Some "0x7c1"));
        Call (ReqRecurringPayments 7);
        Console (LErrorRetrying "7" "timeout")]
  /\ completion_of o = Normal tt
  /\ retryQueue (agent_of o) = [("7", 2)].
Proof. intros s1 o. by_running. Qed.

(** C5 (the code departs from the claim).  Four payments are queued with
    count [MAX_RETRIES] and the node rejects both the batch call and the
    reads of payment records.  The fallback of [processBatchPayments] hands
    payment 1 to the single-submission path, whose handler throws; the
    error leaves [processBatchPayments], and payments 2, 3 and 4 never
    enter the single-submission path. *)
Theorem batch_fallback_aborted_by_failure_handler :
  let s3 := Scenario.after Scenario.reads_fail Scenario.config_default
              [ScanTick; ScanTick; ScanTick] in
  let o := processBatchPayments Scenario.reads_fail Scenario.format_wei
             Scenario.config_default [1; 2; 3; 4] s3 in
  retryQueue (fst s3)
  = [("1", MAX_RETRIES); ("2", MAX_RETRIES); ("3", MAX_RETRIES);
     ("4", MAX_RETRIES)]
  /\ batch_attempted (events_of o) = true
  /\ completion_of o = Throw "call revert exception"
  /\ single_path_entries (events_of o) = [1].
Proof. intros. by_running. Qed.

(** C7 (the code departs from the claim).  With a webhook configured and
    the node unreachable, [processSinglePayment] on a payment queued with
    count [MAX_RETRIES], and [processRetryQueue] on a payment queued with
    count [MAX_RETRIES - 1], both reject: their failure handlers await a
    read of the payment record, which is rejected outside any [try]. *)
Theorem failure_handlers_reject :
  let s3 := Scenario.after Scenario.submission_fails Scenario.config_default
              [ScanTick; ScanTick; ScanTick] in
  let s2 := Scenario.after Scenario.submission_fails Scenario.config_default
              [ScanTick; ScanTick] in
  retryQueue (fst s3) = [("7", 3)]
  /\ retryQueue (fst s2) = [("7", 2)]
  /\ processSinglePayment Scenario.node_down Scenario.format_wei
       Scenario.config_default 7 s3
     = (Throw "network error", s3,
        [Console (LProcessingPayment 7); Call (ReqRecurringPayments 7);
         Console (LErrorProcessing 7 "network error");
         Console (LFailedAfter 7); Call (ReqRecurringPayments 7)])
  /\ processRetryQueue Scenario.node_down Scenario.format_wei
       Scenario.config_default s2
     = (Throw "network error",
        ({| isProcessing := false; retryQueue := [] |}, tt),
        [Console (LProcessingRetryQueue 1); Console (LRetrying "7" 2);
         Call (ReqCanProcessPayment 7);
         Console (LErrorRetrying "7" "network error");
         Console (LRemovingFromQueue "7"); Call (ReqRecurringPayments 7)]).
Proof. intros. by_running. Qed.

(** * Further properties of the code *)

(** ** Stepping through a computation *)

Section Steps.

Context {W : Type}.

Lemma bind_normal {A B : Type} (m : M W A) (k : A -> M W B) (s s1 : St W)
  (a : A) (ev1 : list Event) :
  m s = (Normal a, s1, ev1) ->
  bind m k s = let '(c, s2, ev2) := k a s1 in (c, s2, ev1 ++ ev2).
Proof. intros H. unfold bind. now rewrite H. Qed.

Lemma bind_throw {A B : Type} (m : M W A) (k : A -> M W B) (s s1 : St W)
  (e : Error) (ev1 : list Event) :
  m s = (Throw e, s1, ev1) -> bind m k s = (Throw e, s1, ev1).
Proof. intros H. unfold bind. now rewrite H. Qed.

Lemma await_resolved {A : Type} (r : Request) (f : W -> result A * W)
  (a : PaymentAgent) (w w' : W) (x : A) :
  f w = (Resolved x, w') -> await r f (a, w) = (Normal x, (a, w'), [Call r]).
Proof. intros H. unfold await. simpl. now rewrite H. Qed.

Lemma await_rejected {A : Type} (r : Request) (f : W -> result A * W)
  (a : PaymentAgent) (w w' : W) (e : Error) :
  f w = (Rejected e, w') -> await r f (a, w) = (Throw e, (a, w'), [Call r]).
Proof. intros H. unfold await. simpl. now rewrite H. Qed.

Lemma existsb_quiet {A : Type} (f : Event -> bool) (m : M W A) (s : St W) :
  quiet f m -> existsb f (events_of (m s)) = false.
Proof.
  intros H. specialize (H s). induction H as [|e ev He Hev IH]; simpl; auto.
  now rewrite He.
Qed.

(** A [bind] whose continuation is only run on values satisfying [Q]. *)
Lemma emits_bind_post {A B : Type} (P : Event -> Prop) (Q : A -> Prop)
  (m : M W A) (k : A -> M W B) :
  (forall s a, completion_of (m s) = Normal a -> Q a) ->
  emits P m -> (forall a, Q a -> emits P (k a)) -> emits P (bind m k).
Proof.
  intros HQ Hm Hk s. rewrite events_bind. apply Forall_app.
  split; [apply Hm|].
  destruct (completion_of (m s)) eqn:Hc; try constructor.
  apply Hk. exact (HQ s a Hc).
Qed.

Lemma keeps_bind_post {A B : Type} (P : JsMap.t -> Prop) (Q : A -> Prop)
  (m : M W A) (k : A -> M W B) :
  (forall s a, completion_of (m s) = Normal a -> Q a) ->
  keeps P m -> (forall a, Q a -> keeps P (k a)) -> keeps P (bind m k).
Proof.
  intros HQ Hm Hk s H. specialize (Hm s H). specialize (HQ s).
  unfold bind, agent_of, completion_of in *.
  destruct (m s) as [[c s1] ev1]. simpl in *.
  destruct c as [a| | |e]; simpl; auto.
  specialize (Hk a (HQ a eq_refl) s1 Hm).
  destruct (k a s1) as [[c2 s2] ev2]. exact Hk.
Qed.

End Steps.

(** ** Computations that leave the agent alone *)

Section LeavesAgent.

Context {W : Type}.

Lemma leaves_ret {A : Type} (a : A) : leaves_agent (@ret W A a).
Proof. intros s. reflexivity. Qed.

Lemma leaves_return {A : Type} : leaves_agent (@return_ W A).
Proof. intros s. reflexivity. Qed.

Lemma leaves_continue {A : Type} : leaves_agent (@continue_ W A).
Proof. intros s. reflexivity. Qed.

Lemma leaves_throw {A : Type} (e : Error) : leaves_agent (@throw W A e).
Proof. intros s. reflexivity. Qed.

Lemma leaves_console (l : Line) : leaves_agent (@console W l).
Proof. intros s. reflexivity. Qed.

Lemma leaves_this : leaves_agent (@this W).
Proof. intros s. reflexivity. Qed.

Lemma leaves_lift_result {A : Type} (r : result A) :
  leaves_agent (@lift_result W A r).
Proof. destruct r; intros s; reflexivity. Qed.

Lemma leaves_await {A : Type} (r : Request) (f : W -> result A * W) :
  leaves_agent (await r f).
Proof.
  intros [a w]. unfold await, agent_of. simpl.
  destruct (f w) as [[x|e] w']; reflexivity.
Qed.

Lemma leaves_bind {A B : Type} (m : M W A) (k : A -> M W B) :
  leaves_agent m -> (forall a, leaves_agent (k a)) -> leaves_agent (bind m k).
Proof.
  intros Hm Hk s. specialize (Hm s). unfold bind, agent_of in *.
  destruct (m s) as [[c s1] ev1]. simpl in Hm.
  destruct c as [a| | |e]; simpl; auto.
  specialize (Hk a s1). unfold agent_of in Hk.
  destruct (k a s1) as [[c2 s2] ev2]. simpl in *. congruence.
Qed.

Lemma leaves_try_catch {A : Type} (m : M W A) (h : Error -> M W A) :
  leaves_agent m -> (forall e, leaves_agent (h e)) ->
  leaves_agent (try_catch m h).
Proof.
  intros Hm Hh s. specialize (Hm s). unfold try_catch, agent_of in *.
  destruct (m s) as [[c s1] ev1]. simpl in Hm.
  destruct c as [a| | |e]; simpl; auto.
  specialize (Hh e s1). unfold agent_of in Hh.
  destruct (h e s1) as [[c2 s2] ev2]. simpl in *. congruence.
Qed.

Lemma leaves_async (m : M W unit) : leaves_agent m -> leaves_agent (async m).
Proof.
  intros Hm s. specialize (Hm s). unfold async, agent_of in *.
  destruct (m s) as [[c s1] ev1]. destruct c; exact Hm.
Qed.

Lemma leaves_for_of {X : Type} (l : list X) (body : X -> M W unit) :
  (forall x, leaves_agent (body x)) -> leaves_agent (for_of l body).
Proof.
  intros Hb. induction l as [|x l IH]; intros s; [reflexivity|].
  specialize (Hb x s). simpl. unfold agent_of in *.
  destruct (body x s) as [[c s1] ev1]. simpl in Hb.
  destruct c as [a| | |e]; simpl; auto;
    specialize (IH s1); unfold agent_of in IH;
    destruct (for_of l body s1) as [[c2 s2] ev2]; simpl in *; congruence.
Qed.

Lemma leaves_if {A : Type} (b : bool) (m1 m2 : M W A) :
  leaves_agent m1 -> leaves_agent m2 -> leaves_agent (if b then m1 else m2).
Proof. destruct b; auto. Qed.

End LeavesAgent.

Create HintDb leaves.
#[export] Hint Resolve leaves_ret leaves_return leaves_continue leaves_throw
  leaves_console leaves_this leaves_lift_result leaves_await leaves_async
  leaves_if : leaves.

(** Walks through a method body that writes no field. *)
Ltac leaves_step :=
  match goal with
  | |- leaves_agent (bind _ _) => apply leaves_bind; [|intro]
  | |- leaves_agent (try_catch _ _) => apply leaves_try_catch; [|intro]
  | |- leaves_agent (async _) => apply leaves_async
  | |- leaves_agent (for_of _ _) => apply leaves_for_of; intro
  | |- leaves_agent (if _ then _ else _) => apply leaves_if
  | |- leaves_agent (let _ := _ in _) => cbv zeta
  | |- leaves_agent _ => solve [auto with leaves]
  end.

(** ** Notifications *)

Lemma truthy_false (s : string) : truthy s = false <-> s = EmptyString.
Proof.
  unfold truthy. destruct (String.eqb_spec s EmptyString) as [->|Hne]; simpl.
  - split; reflexivity.
  - split; [discriminate|contradiction].
Qed.

Section Notifications.

Context {W : Type}.
Variable gw : Gateway W.
Variable formatEther : Z -> string.
Variable parseEther : string -> result Z.
Variable address : string.
Variable config : Config.

Lemma sendWebhook_leaves (data : Webhook) :
  leaves_agent (sendWebhook gw config data).
Proof. unfold sendWebhook. repeat leaves_step. Qed.

Lemma timestamp_leaves : leaves_agent (timestamp gw).
Proof. intros s. reflexivity. Qed.

Lemma now_seconds_leaves : leaves_agent (now_seconds gw).
Proof. intros s. reflexivity. Qed.

Lemma sendWebhook_no_submission (data : Webhook) :
  quiet is_submission (sendWebhook gw config data).
Proof. unfold quiet, sendWebhook. repeat emits_step; reflexivity. Qed.

Hypothesis no_webhook : webhookUrl config = EmptyString.

(** Without an endpoint [sendWebhook] does nothing at all. *)
Lemma sendWebhook_silent (data : Webhook) (s : St W) :
  sendWebhook gw config data s = (Normal tt, s, []).
Proof.
  unfold sendWebhook. rewrite no_webhook.
  change (truthy EmptyString) with false. reflexivity.
Qed.

Lemma sendWebhook_no_post (data : Webhook) :
  quiet is_post (sendWebhook gw config data).
Proof. intros s. rewrite sendWebhook_silent. constructor. Qed.

Ltac no_post :=
  repeat emits_step; try reflexivity;
  try apply timestamp_emits; try apply now_seconds_emits;
  try apply toBigInt_emits; try apply sendWebhook_no_post.

Lemma processSinglePayment_no_post (paymentId : Z) :
  quiet is_post (processSinglePayment gw formatEther config paymentId).
Proof.
  unfold quiet, processSinglePayment, processSinglePayment_try,
    processSinglePayment_catch. no_post.
Qed.

Lemma processBatchPayments_no_post (paymentIds : list Z) :
  quiet is_post (processBatchPayments gw formatEther config paymentIds).
Proof.
  unfold quiet, processBatchPayments. no_post.
  apply processSinglePayment_no_post.
Qed.

Lemma processRetryQueue_no_post :
  quiet is_post (processRetryQueue gw formatEther config).
Proof.
  unfold quiet, processRetryQueue. repeat emits_step; try reflexivity.
  destruct x as [paymentId retryCount].
  unfold retryEntry, retryEntry_try, retryEntry_catch. no_post.
Qed.

Lemma checkPayments_no_post (ids acc : list Z) :
  quiet is_post (checkPayments gw config ids acc).
Proof.
  unfold quiet. revert acc. induction ids as [|id ids IH]; intros acc; simpl.
  - auto with emits.
  - apply emits_bind; [|intros acc'; apply IH].
    unfold checkPayment. no_post.
Qed.

Lemma checkAndProcessPayments_no_post :
  quiet is_post (checkAndProcessPayments gw formatEther config).
Proof.
  unfold quiet, checkAndProcessPayments, dispatch. no_post.
  - apply checkPayments_no_post.
  - apply processBatchPayments_no_post.
  - apply processSinglePayment_no_post.
Qed.

Lemma checkBalance_no_post :
  quiet is_post (checkBalance gw formatEther parseEther address config).
Proof. unfold quiet, checkBalance, checkUpcoming. no_post. Qed.

Lemma groupByInterval_quiet (f : Event -> bool) (ids : list Z)
  (o : JsObject.t) :
  (forall id, f (Call (ReqRecurringPayments id)) = false) ->
  quiet f (groupByInterval gw ids o).
Proof.
  intros Hf. unfold quiet. revert o.
  induction ids as [|id ids IH]; intros o; simpl.
  - auto with emits.
  - apply emits_bind; [apply emits_await, Hf|intros p; apply IH].
Qed.

Lemma run_op_no_post (o : Op) :
  quiet is_post (run_op gw formatEther parseEther address config o).
Proof.
  destruct o; simpl.
  - apply checkAndProcessPayments_no_post.
  - apply checkBalance_no_post.
  - apply processRetryQueue_no_post.
  - unfold quiet, analyzePaymentPatterns. repeat emits_step; try reflexivity.
    apply groupByInterval_quiet. reflexivity.
  - apply processSinglePayment_no_post.
  - apply processBatchPayments_no_post.
Qed.

Lemma run_ops_no_post (l : list Op) (s : St W) :
  existsb is_post
    (snd (run_ops gw formatEther parseEther address config l s)) = false.
Proof.
  revert s. induction l as [|o l IH]; intros s; [reflexivity|].
  simpl. pose proof (existsb_quiet is_post _ s (run_op_no_post o)) as Ho.
  unfold events_of in Ho.
  destruct (run_op gw formatEther parseEther address config o s)
    as [[c s1] ev1].
  specialize (IH s1).
  destruct (run_ops gw formatEther parseEther address config l s1)
    as [s2 ev2].
  simpl in *. rewrite existsb_app, Ho, IH. reflexivity.
Qed.

End Notifications.

(** X1.  [sendWebhook] never rejects and never touches the agent's fields.
    Without an endpoint it does nothing; with one it issues exactly one
    post of its argument to [config.webhookUrl], and a rejected post only
    changes the console line that follows. *)
Theorem sendWebhook_swallows_delivery_errors :
  forall (W : Type) (gw : Gateway W) (config : Config) (data : Webhook)
         (s : St W),
    let o := sendWebhook gw config data s in
    resolves o
    /\ agent_of o = fst s
    /\ (webhookUrl config = EmptyString -> o = (Normal tt, s, []))
    /\ (webhookUrl config <> EmptyString ->
        forall w',
          (axios_post gw (webhookUrl config) data (snd s) = (Resolved tt, w') ->
           o = (Normal tt, (fst s, w'),
                [Call (ReqAxiosPost (webhookUrl config) data);
                 Console (LWebhookSent data)]))
          /\ (forall e,
                 axios_post gw (webhookUrl config) data (snd s)
                 = (Rejected e, w') ->
                 o = (Normal tt, (fst s, w'),
                      [Call (ReqAxiosPost (webhookUrl config) data);
                       Console (LErrorWebhook e)]))).
Proof.
  intros W gw config data s o. split; [|split; [|split]].
  - apply sendWebhook_resolves.
  - apply sendWebhook_leaves.
  - intros Hurl. now apply sendWebhook_silent.
  - intros Hurl w'.
    assert (Ht : truthy (webhookUrl config) = true).
    { destruct (truthy (webhookUrl config)) eqn:E; [reflexivity|].
      apply truthy_false in E. contradiction. }
    unfold o, sendWebhook, async, bind, try_catch, await, console.
    rewrite Ht. simpl. split.
    + intros Hpost. rewrite Hpost. reflexivity.
    + intros e Hpost. rewrite Hpost. reflexivity.
Qed.

(** A rejected post is swallowed. *)
Lemma sendWebhook_swallows_delivery_errors_witness :
  sendWebhook
    (Scenario.scripted (Resolved [7]) (Resolved true) (Resolved Scenario.salary)
       (Resolved Scenario.tx1) (Resolved Scenario.tx1)
       (Resolved (Some "0x7c1")) 1700000000000)
    Scenario.config_default (LowBalanceAlert "7" 0) (new_PaymentAgent, tt)
  = (Normal tt, (new_PaymentAgent, tt),
     [Call (ReqAxiosPost "http://localhost:3001/webhook"
              (LowBalanceAlert "7" 0));
      Console (LWebhookSent (LowBalanceAlert "7" 0))]).
Proof.
  apply (proj1 (proj2 (proj2 (proj2
           (sendWebhook_swallows_delivery_errors unit
              (Scenario.scripted (Resolved [7]) (Resolved true)
                 (Resolved Scenario.salary) (Resolved Scenario.tx1)
                 (Resolved Scenario.tx1) (Resolved (Some "0x7c1"))
                 1700000000000)
              Scenario.config_default (LowBalanceAlert "7" 0)
              (new_PaymentAgent, tt))))
           ltac:(discriminate) tt)).
  reflexivity.
Defined.

(** X2.  With [config.webhookUrl] empty, no method and no sequence of
    firings ever posts to a webhook endpoint, whatever the outside
    answers. *)
Theorem no_webhook_no_post :
  forall (W : Type) (gw : Gateway W) (formatEther : Z -> string)
         (parseEther : string -> result Z) (address : string)
         (config : Config),
    webhookUrl config = EmptyString ->
    forall (l : list Op) (s : St W),
      existsb is_post
        (snd (run_ops gw formatEther parseEther address config l s)) = false.
Proof. intros. now apply run_ops_no_post. Qed.

(** Four scan ticks and a drain on an outside whose reads fail, without an
    endpoint: nothing is posted. *)
Lemma no_webhook_no_post_witness :
  existsb is_post
    (snd (run_ops Scenario.reads_fail Scenario.format_wei Scenario.parse_wei
            Scenario.wallet Example.config_silent
            [ScanTick; ScanTick; ScanTick; ScanTick; RetryTick]
            (new_PaymentAgent, tt))) = false.
Proof.
  apply (no_webhook_no_post unit Scenario.reads_fail Scenario.format_wei
           Scenario.parse_wei Scenario.wallet Example.config_silent eq_refl).
Defined.

(** ** The ticks that only read *)

Section ReadOnly.

Context {W : Type}.
Variable gw : Gateway W.
Variable formatEther : Z -> string.
Variable parseEther : string -> result Z.
Variable address : string.
Variable config : Config.

Lemma checkBalance_leaves :
  leaves_agent (checkBalance gw formatEther parseEther address config).
Proof.
  unfold checkBalance, checkUpcoming.
  repeat leaves_step; try apply timestamp_leaves;
    try apply now_seconds_leaves; apply sendWebhook_leaves.
Qed.

Lemma checkBalance_no_submission :
  quiet is_submission (checkBalance gw formatEther parseEther address config).
Proof.
  unfold quiet, checkBalance, checkUpcoming.
  repeat emits_step; try reflexivity;
    try apply timestamp_emits; try apply now_seconds_emits;
    apply sendWebhook_no_submission.
Qed.

Lemma groupByInterval_leaves (ids : list Z) (o : JsObject.t) :
  leaves_agent (groupByInterval gw ids o).
Proof.
  revert o. induction ids as [|id ids IH]; intros o; simpl.
  - auto with leaves.
  - apply leaves_bind; [auto with leaves|intros p; apply IH].
Qed.

Lemma analyzePaymentPatterns_leaves :
  leaves_agent (analyzePaymentPatterns gw).
Proof.
  unfold analyzePaymentPatterns. repeat leaves_step.
  apply groupByInterval_leaves.
Qed.

Lemma groupByInterval_emits (P : Event -> Prop) (ids : list Z)
  (o : JsObject.t) :
  (forall id, P (Call (ReqRecurringPayments id))) ->
  emits P (groupByInterval gw ids o).
Proof.
  intros Hr. revert o. induction ids as [|id ids IH]; intros o; simpl.
  - auto with emits.
  - apply emits_bind; [apply emits_await, Hr|intros p; apply IH].
Qed.

Lemma analyzePaymentPatterns_emits (P : Event -> Prop) :
  (forall l, P (Console l)) ->
  P (Call ReqGetActivePaymentIds) ->
  (forall id, P (Call (ReqRecurringPayments id))) ->
  emits P (analyzePaymentPatterns gw).
Proof.
  intros Hc Ha Hr. unfold analyzePaymentPatterns.
  repeat emits_step; auto. now apply groupByInterval_emits.
Qed.

Lemma requests_Forall (R : Request -> Prop) (ev : list Event) :
  Forall (fun e => match e with Call r => R r | Console _ => True end) ev ->
  Forall R (requests ev).
Proof.
  induction 1 as [|e ev He Hev IH]; simpl; [constructor|].
  destruct e as [r|l]; [constructor; assumption|assumption].
Qed.

End ReadOnly.

(** X3.  The balance tick only reads: whatever the outside answers and
    whatever the configuration, its promise resolves, the agent's fields
    are as before, and no transaction is submitted. *)
Theorem checkBalance_read_only :
  forall (W : Type) (gw : Gateway W) (formatEther : Z -> string)
         (parseEther : string -> result Z) (address : string)
         (config : Config) (s : St W),
    let o := checkBalance gw formatEther parseEther address config s in
    resolves o
    /\ agent_of o = fst s
    /\ existsb is_submission (events_of o) = false.
Proof.
  intros. split; [|split].
  - apply checkBalance_resolves.
  - apply checkBalance_leaves.
  - apply existsb_quiet, checkBalance_no_submission.
Qed.

(** X4.  The analysis tick is diagnostic only: its promise resolves, the
    agent's fields are as before, and it neither submits a transaction nor
    posts a notification; its only requests are the list of active
    payments and the payment records. *)
Theorem analyzePaymentPatterns_diagnostic_only :
  forall (W : Type) (gw : Gateway W) (s : St W),
    let o := analyzePaymentPatterns gw s in
    resolves o
    /\ agent_of o = fst s
    /\ existsb is_submission (events_of o) = false
    /\ existsb is_post (events_of o) = false
    /\ Forall (fun r => r = ReqGetActivePaymentIds
                        \/ exists id, r = ReqRecurringPayments id)
              (requests (events_of o)).
Proof.
  intros W gw s o. split; [|split; [|split; [|split]]].
  - apply analyzePaymentPatterns_resolves.
  - apply analyzePaymentPatterns_leaves.
  - apply existsb_quiet. unfold quiet.
    apply analyzePaymentPatterns_emits; reflexivity.
  - apply existsb_quiet. unfold quiet.
    apply analyzePaymentPatterns_emits; reflexivity.
  - apply requests_Forall.
    apply (analyzePaymentPatterns_emits gw
             (fun e => match e with
                       | Call r => r = ReqGetActivePaymentIds
                                   \/ exists id, r = ReqRecurringPayments id
                       | Console _ => True
                       end)).
    + intros l. exact I.
    + now left.
    + intros id. right. now exists id.
Qed.

(** X5.  Without a webhook endpoint every method resolves, whatever the
    outside answers: the failure handlers then await nothing. *)
Theorem no_webhook_every_method_resolves :
  forall (W : Type) (gw : Gateway W) (formatEther : Z -> string)
         (parseEther : string -> result Z) (address : string)
         (config : Config),
    webhookUrl config = EmptyString ->
    forall (o : Op) (s : St W),
      resolves (run_op gw formatEther parseEther address config o s).
Proof. intros. now apply run_op_resolves_without_webhook. Qed.

(** The drain on an unreachable node, with an entry one failure away from
    the ceiling and no endpoint: the promise resolves. *)
Lemma no_webhook_every_method_resolves_witness :
  resolves
    (run_op Scenario.node_down Scenario.format_wei Scenario.parse_wei
       Scenario.wallet Example.config_silent RetryTick
       ({| isProcessing := false; retryQueue := [("7", 2)] |}, tt)).
Proof.
  apply (no_webhook_every_method_resolves unit Scenario.node_down
           Scenario.format_wei Scenario.parse_wei Scenario.wallet
           Example.config_silent eq_refl).
Defined.

(** ** The balance tick *)

Section Balance.

Context {W : Type}.
Variable gw : Gateway W.
Variable formatEther : Z -> string.
Variable parseEther : string -> result Z.
Variable address : string.
Variable config : Config.

Lemma events_bind_normal {A B : Type} (m : M W A) (k : A -> M W B)
  (s s1 : St W) (a : A) (ev1 : list Event) :
  m s = (Normal a, s1, ev1) ->
  events_of (bind m k s) = ev1 ++ events_of (k a s1).
Proof.
  intros H. rewrite (bind_normal m k s s1 a ev1 H). unfold events_of.
  destruct (k a s1) as [[c2 s2] ev2]. reflexivity.
Qed.

Lemma events_bind_throw {A B : Type} (m : M W A) (k : A -> M W B)
  (s s1 : St W) (e : Error) (ev1 : list Event) :
  m s = (Throw e, s1, ev1) -> events_of (bind m k s) = ev1.
Proof. intros H. now rewrite (bind_throw m k s s1 e ev1 H). Qed.

(** What follows a computation whose continuation is quiet. *)
Lemma existsb_bind_quiet {A B : Type} (f : Event -> bool) (m : M W A)
  (k : A -> M W B) (s : St W) :
  (forall a, quiet f (k a)) ->
  existsb f (events_of (bind m k s)) = existsb f (events_of (m s)).
Proof.
  intros Hk. rewrite events_bind, existsb_app.
  destruct (completion_of (m s)); simpl; rewrite ?orb_false_r; auto.
  now rewrite (existsb_quiet f (k a) _ (Hk a)), orb_false_r.
Qed.

Lemma existsb_try_catch_quiet {A : Type} (f : Event -> bool) (m : M W A)
  (h : Error -> M W A) (s : St W) :
  (forall e, quiet f (h e)) ->
  existsb f (events_of (try_catch m h s)) = existsb f (events_of (m s)).
Proof.
  intros Hh. rewrite events_try_catch, existsb_app.
  destruct (completion_of (m s)); simpl; rewrite ?orb_false_r; auto.
  now rewrite (existsb_quiet f (h e) _ (Hh e)), orb_false_r.
Qed.

Lemma sendWebhook_emits (P : Event -> Prop) (data : Webhook) :
  P (Call (ReqAxiosPost (webhookUrl config) data)) ->
  P (Console (LWebhookSent data)) ->
  (forall e, P (Console (LErrorWebhook e))) ->
  emits P (sendWebhook gw config data).
Proof. intros Hp Hs He. unfold sendWebhook. repeat emits_step; auto. Qed.

(** With an endpoint, [sendWebhook] posts its argument. *)
Lemma sendWebhook_posts (data : Webhook) (s : St W) :
  truthy (webhookUrl config) = true ->
  exists l,
    events_of (sendWebhook gw config data s)
    = [Call (ReqAxiosPost (webhookUrl config) data); Console l].
Proof.
  intros Ht. unfold sendWebhook, async, bind, try_catch, await, console,
    events_of.
  rewrite Ht. simpl.
  destruct (axios_post gw (webhookUrl config) data (snd s)) as [[[]|e] w'];
    simpl; eauto.
Qed.

Ltac quiet_balance :=
  unfold quiet; repeat emits_step; try reflexivity;
  try apply timestamp_emits; try apply now_seconds_emits;
  try (apply sendWebhook_emits; [reflexivity|reflexivity|intros; reflexivity]).

Lemma checkUpcoming_no_wallet_line (contractBalance paymentId : Z) :
  quiet is_wallet_low_line (checkUpcoming gw formatEther config
                              contractBalance paymentId).
Proof. unfold checkUpcoming. quiet_balance. Qed.

Lemma checkUpcoming_no_wallet_post (contractBalance paymentId : Z) :
  quiet is_wallet_low_post (checkUpcoming gw formatEther config
                              contractBalance paymentId).
Proof. unfold checkUpcoming. quiet_balance. Qed.

(** The events of the balance tick up to the comparison of the wallet
    balance with the threshold decide whether the wallet warning appears. *)
Lemma checkBalance_wallet_warning (f : Event -> bool) (a : PaymentAgent)
  (w w1 : W) (balance threshold : Z) :
  (forall l, is_wallet_low_line (Console l) = false -> f (Console l) = false) ->
  (forall r, is_wallet_low_post (Call r) = false -> f (Call r) = false) ->
  (forall c id, quiet f (checkUpcoming gw formatEther config c id)) ->
  getBalance gw address w = (Resolved balance, w1) ->
  parseEther (lowBalanceThreshold config) = Resolved threshold ->
  existsb f
    (events_of (checkBalance gw formatEther parseEther address config (a, w)))
  = if balance <? threshold
    then existsb f
           (events_of
              ((console LWalletLow ;;
                (if truthy (webhookUrl config) then
                   ts <- timestamp gw ;;
                   sendWebhook gw config
                     (AgentWalletLowBalance address (formatEther balance)
                        (lowBalanceThreshold config) ts)
                 else ret tt)) (a, w1)))
    else false.
Proof.
  intros Hline Hcall Hup Hbal Hparse. unfold checkBalance.
  rewrite events_async.
  rewrite existsb_try_catch_quiet
    by (intros e; unfold quiet; apply emits_console, Hline; reflexivity).
  erewrite events_bind_normal by reflexivity.
  erewrite events_bind_normal by (apply await_resolved; exact Hbal).
  erewrite events_bind_normal by reflexivity.
  rewrite Hparse.
  erewrite events_bind_normal by reflexivity.
  rewrite !existsb_app. simpl existsb at 1 2 3 4.
  rewrite (Hline LCheckingBalance eq_refl).
  rewrite (Hcall (ReqGetBalance address) eq_refl).
  rewrite (Hline (LWalletBalance (formatEther balance)) eq_refl).
  simpl orb.
  rewrite existsb_bind_quiet.
  - destruct (balance <? threshold); reflexivity.
  - intros _. unfold quiet. repeat emits_step;
      try (apply Hline; reflexivity); try (apply Hcall; reflexivity).
    apply Hup.
Qed.

End Balance.

(** X6.  When the wallet balance and the configured threshold are read,
    the balance tick prints the low-wallet warning iff the balance is
    strictly below the threshold, and posts the [Agent Wallet Low Balance]
    notification iff, in addition, an endpoint is configured. *)
Theorem wallet_warning_iff_below_threshold :
  forall (W : Type) (gw : Gateway W) (formatEther : Z -> string)
         (parseEther : string -> result Z) (address : string)
         (config : Config) (a : PaymentAgent) (w w1 : W)
         (balance threshold : Z),
    getBalance gw address w = (Resolved balance, w1) ->
    parseEther (lowBalanceThreshold config) = Resolved threshold ->
    let ev :=
      events_of
        (checkBalance gw formatEther parseEther address config (a, w)) in
    existsb is_wallet_low_line ev = (balance <? threshold)
    /\ existsb is_wallet_low_post ev
       = (balance <? threshold) && truthy (webhookUrl config).
Proof.
  intros W gw formatEther parseEther address config a w w1 balance threshold
    Hbal Hparse ev. unfold ev. split.
  - rewrite (checkBalance_wallet_warning gw formatEther parseEther address
               config is_wallet_low_line a w w1 balance threshold);
      auto using checkUpcoming_no_wallet_line.
    destruct (balance <? threshold); [|reflexivity].
    erewrite events_bind_normal by reflexivity. reflexivity.
  - rewrite (checkBalance_wallet_warning gw formatEther parseEther address
               config is_wallet_low_post a w w1 balance threshold);
      auto using checkUpcoming_no_wallet_post.
    destruct (balance <? threshold); [|reflexivity].
    erewrite events_bind_normal by reflexivity. simpl.
    destruct (truthy (webhookUrl config)) eqn:Ht; [|reflexivity].
    erewrite events_bind_normal by reflexivity. simpl.
    destruct (sendWebhook_posts gw config
                (AgentWalletLowBalance address (formatEther balance)
                   (lowBalanceThreshold config) (Date_now gw w1))
                (a, w1) Ht) as [l Hl].
    rewrite Hl. reflexivity.
Qed.

(** A wallet of 50 against a threshold of 100: the warning is printed. *)
Lemma wallet_warning_iff_below_threshold_witness :
  existsb is_wallet_low_line
    (events_of
       (checkBalance (Example2.balances 50 1000 1700000000000)
          Scenario.format_wei Scenario.parse_wei Scenario.wallet
          Scenario.config_default (new_PaymentAgent, tt)))
  = true.
Proof.
  apply (proj1 (wallet_warning_iff_below_threshold unit
                  (Example2.balances 50 1000 1700000000000)
                  Scenario.format_wei Scenario.parse_wei Scenario.wallet
                  Scenario.config_default new_PaymentAgent tt tt 50 100
                  eq_refl eq_refl)).
Defined.

(** X7.  A failed read at the start of the balance tick abandons the tick:
    when the wallet balance cannot be read, or when the configured
    threshold is not an amount, the contract balance is not requested and
    no payment is inspected; the promise resolves and the agent is
    unchanged. *)
Theorem balance_check_abandoned_on_error :
  forall (W : Type) (gw : Gateway W) (formatEther : Z -> string)
         (parseEther : string -> result Z) (address : string)
         (config : Config) (a : PaymentAgent) (w w1 : W),
    (forall e,
        getBalance gw address w = (Rejected e, w1) ->
        checkBalance gw formatEther parseEther address config (a, w)
        = (Normal tt, (a, w1),
           [Console LCheckingBalance; Call (ReqGetBalance address);
            Console (LErrorBalances e)]))
    /\
    (forall balance e,
        getBalance gw address w = (Resolved balance, w1) ->
        parseEther (lowBalanceThreshold config) = Rejected e ->
        checkBalance gw formatEther parseEther address config (a, w)
        = (Normal tt, (a, w1),
           [Console LCheckingBalance; Call (ReqGetBalance address);
            Console (LWalletBalance (formatEther balance));
            Console (LErrorBalances e)])).
Proof.
  intros W gw formatEther parseEther address config a w w1. split.
  - intros e Hbal.
    unfold checkBalance, async, try_catch, bind, await, console.
    simpl. rewrite Hbal. reflexivity.
  - intros balance e Hbal Hparse.
    unfold checkBalance, async, try_catch, bind, await, console, lift_result.
    simpl. rewrite Hbal. simpl. rewrite Hparse. reflexivity.
Qed.

(** A threshold that is not an amount. *)
Lemma balance_check_abandoned_on_error_witness :
  checkBalance (Example2.balances 50 1000 1700000000000)
    Scenario.format_wei (fun _ => Rejected "invalid decimal value")
    Scenario.wallet Scenario.config_default (new_PaymentAgent, tt)
  = (Normal tt, (new_PaymentAgent, tt),
     [Console LCheckingBalance; Call (ReqGetBalance Scenario.wallet);
      Console (LWalletBalance "50");
      Console (LErrorBalances "invalid decimal value")]).
Proof.
  apply (proj2 (balance_check_abandoned_on_error unit
                  (Example2.balances 50 1000 1700000000000)
                  Scenario.format_wei (fun _ => Rejected "invalid decimal value")
                  Scenario.wallet Scenario.config_default
                  new_PaymentAgent tt tt) 50 "invalid decimal value"
               eq_refl eq_refl).
Defined.

(** X8.  For a payment whose record is read, the balance tick warns about
    an upcoming payment iff the payment falls due within the next 24 hours
    (strictly in the future, at most 86400 seconds away) and its amount
    exceeds the contract balance; a payment that is already due is not
    reported.  The warning carries the seconds remaining, and the
    notification the whole hours remaining, [floor(seconds / 3600)].
    (Timestamps are below 2^53.) *)
Theorem upcoming_payment_warning_window :
  forall (W : Type) (gw : Gateway W) (formatEther : Z -> string)
         (config : Config) (contractBalance paymentId : Z)
         (a : PaymentAgent) (w w1 : W) (p : Payment),
    recurringPayments gw paymentId w = (Resolved p, w1) ->
    0 <= lastPayment p -> 0 <= interval p ->
    lastPayment p + interval p < 2 ^ 53 ->
    0 <= Date_now gw w1 / 1000 < 2 ^ 53 ->
    let timeUntilNext :=
      lastPayment p + interval p - Date_now gw w1 / 1000 in
    let warned :=
      (timeUntilNext <=? 86400) && (0 <? timeUntilNext)
      && (contractBalance <? amount p) in
    let ev :=
      events_of (checkUpcoming gw formatEther config contractBalance
                   paymentId (a, w)) in
    existsb is_insufficient_line ev = warned
    /\ existsb is_post ev = warned && truthy (webhookUrl config)
    /\ (warned = true ->
        In (Console (LInsufficientFor paymentId timeUntilNext)) ev)
    /\ (warned = true -> truthy (webhookUrl config) = true ->
        In (Call (ReqAxiosPost (webhookUrl config)
                    (UpcomingInsufficientBalance (toString paymentId)
                       (recipient p) (formatEther (amount p))
                       (formatEther contractBalance)
                       (timeUntilNext / 3600) (Date_now gw w1)))) ev).
Proof.
  intros W gw formatEther config contractBalance paymentId a w w1 p
    Hrec Hl Hi Hs Hnow timeUntilNext warned ev.
  assert (Hev :
            ev = Call (ReqRecurringPayments paymentId)
                 :: (if warned
                     then events_of
                            ((console (LInsufficientFor paymentId
                                         timeUntilNext) ;;
                              (if truthy (webhookUrl config) then
                                 ts <- timestamp gw ;;
                                 sendWebhook gw config
                                   (UpcomingInsufficientBalance
                                      (toString paymentId) (recipient p)
                                      (formatEther (amount p))
                                      (formatEther contractBalance)
                                      (timeUntilNext / 3600) ts)
                               else ret tt)) (a, w1))
                     else [])).
  { unfold ev, checkUpcoming.
    erewrite events_bind_normal by (apply await_resolved; exact Hrec).
    rewrite (nextPaymentTime_exact p Hl Hi Hs).
    erewrite events_bind_normal by reflexivity.
    change (snd (a, w1)) with w1.
    rewrite (round_f64_exact
               (lastPayment p + interval p - Date_now gw w1 / 1000)) by lia.
    fold timeUntilNext. unfold warned. simpl app.
    destruct ((timeUntilNext <=? 86400) && (0 <? timeUntilNext));
      [|reflexivity].
    destruct (contractBalance <? amount p); reflexivity. }
  rewrite Hev. destruct warned.
  - erewrite events_bind_normal by reflexivity.
    destruct (truthy (webhookUrl config)) eqn:Ht.
    + erewrite events_bind_normal by reflexivity.
      destruct (sendWebhook_posts gw config
                  (UpcomingInsufficientBalance (toString paymentId)
                     (recipient p) (formatEther (amount p))
                     (formatEther contractBalance) (timeUntilNext / 3600)
                     (Date_now gw w1)) (a, w1) Ht) as [l Hl'].
      simpl snd. rewrite Hl'. simpl. repeat split; auto.
    + simpl. repeat split; auto. discriminate.
  - simpl. repeat split; auto; discriminate.
Qed.

(** The salary payment, due in 1800 seconds, against a contract that holds
    less than its amount. *)
Lemma upcoming_payment_warning_window_witness :
  In (Console (LInsufficientFor 7 1800))
     (events_of
        (checkUpcoming (Example2.balances 50 3 1700001800000)
           Scenario.format_wei Scenario.config_default 3 7
           (new_PaymentAgent, tt))).
Proof.
  assert (Hl : 0 <= lastPayment Scenario.salary) by (vm_compute; discriminate).
  assert (Hi : 0 <= interval Scenario.salary) by (vm_compute; discriminate).
  assert (Hs : lastPayment Scenario.salary + interval Scenario.salary < 2 ^ 53)
    by (vm_compute; reflexivity).
  assert (Hnow : 0 <= Date_now (Example2.balances 50 3 1700001800000) tt / 1000
                 < 2 ^ 53)
    by (split; vm_compute; [discriminate|reflexivity]).
  apply (proj1 (proj2 (proj2
           (upcoming_payment_warning_window unit
              (Example2.balances 50 3 1700001800000) Scenario.format_wei
              Scenario.config_default 3 7 new_PaymentAgent tt tt
              Scenario.salary eq_refl Hl Hi Hs Hnow)))).
  vm_compute. reflexivity.
Defined.

(** ** The scanning phase *)

Section Scanner.

Context {W : Type}.
Variable gw : Gateway W.
Variable formatEther : Z -> string.
Variable config : Config.

(** One iteration never throws; it appends the payment iff the contract
    reported it processable. *)
Lemma checkPayment_outcome (acc : list Z) (paymentId : Z) (s : St W) :
  completion_of (checkPayment gw config acc paymentId s) = Normal acc
  \/ (completion_of (checkPayment gw config acc paymentId s)
      = Normal (acc ++ [paymentId])
      /\ exists w',
          canProcessPayment gw paymentId (snd s) = (Resolved true, w')).
Proof.
  destruct s as [a w].
  unfold checkPayment, try_catch, bind, await, now_seconds, console,
    completion_of.
  simpl. destruct (canProcessPayment gw paymentId w) as [[[|]|e] w1]; simpl.
  - right. split; [reflexivity|]. now exists w1.
  - left. destruct (recurringPayments gw paymentId w1) as [[p|e] w2]; simpl;
      [|reflexivity].
    destruct (isActive p); simpl; [|reflexivity].
    destruct (_ <? _); simpl; [reflexivity|].
    destruct (truthy (webhookUrl config) && _); simpl; [|reflexivity].
    unfold timestamp. simpl.
    match goal with |- context [sendWebhook gw config ?d ?s0] =>
      pose proof (sendWebhook_resolves gw config d s0) as Hres;
      unfold resolves, completion_of in Hres;
      destruct (sendWebhook gw config d s0) as [[c s'] ev]
    end.
    simpl in Hres. subst c. reflexivity.
  - left. reflexivity.
Qed.


Lemma checkPayment_no_submission (acc : list Z) (paymentId : Z) :
  quiet is_submission (checkPayment gw config acc paymentId).
Proof.
  unfold quiet, checkPayment.
  repeat emits_step; try reflexivity;
    try apply timestamp_emits; try apply now_seconds_emits;
    apply sendWebhook_no_submission.
Qed.


Lemma checkPayments_no_submission (ids acc : list Z) :
  quiet is_submission (checkPayments gw config ids acc).
Proof.
  unfold quiet. revert acc. induction ids as [|id ids IH]; intros acc; simpl.
  - auto with emits.
  - apply emits_bind; [apply checkPayment_no_submission|intros acc'; apply IH].
Qed.

Lemma checkPayments_outcome (ids acc : list Z) (s : St W) :
  exists l,
    completion_of (checkPayments gw config ids acc s) = Normal (acc ++ l)
    /\ subsequence l ids
    /\ forall id, In id l ->
         exists w w', canProcessPayment gw id w = (Resolved true, w').
Proof.
  revert acc s. induction ids as [|id ids IH]; intros acc s.
  - exists []. simpl. rewrite app_nil_r.
    split; [reflexivity|]. split; [constructor|]. intros id [].
  - simpl checkPayments.
    pose proof (checkPayment_outcome acc id s) as Hone.
    unfold bind, completion_of in *.
    destruct (checkPayment gw config acc id s) as [[c s1] ev1]. simpl in Hone.
    destruct Hone as [->|[-> [w' Hcan]]].
    + destruct (IH acc s1) as [l [Hc [Hsub Hall]]].
      exists l. unfold completion_of in Hc.
      destruct (checkPayments gw config ids acc s1) as [[c2 s2] ev2].
      simpl in *. split; [exact Hc|]. split; [now constructor|exact Hall].
    + destruct (IH (acc ++ [id]) s1) as [l [Hc [Hsub Hall]]].
      exists (id :: l). unfold completion_of in Hc.
      destruct (checkPayments gw config ids (acc ++ [id]) s1)
        as [[c2 s2] ev2].
      simpl in *. split; [now rewrite <- app_assoc in Hc|].
      split; [now constructor|].
      intros id' [<-|Hin]; [now exists (snd s), w'|now apply Hall].
Qed.

End Scanner.


Section NothingProcessable.

Context {W : Type}.
Variable gw : Gateway W.
Variable formatEther : Z -> string.
Variable config : Config.

Hypothesis none_processable :
  forall id w, fst (canProcessPayment gw id w) <> Resolved true.

Lemma checkPayments_selects_nothing (ids : list Z) (s : St W) (l : list Z) :
  completion_of (checkPayments gw config ids [] s) = Normal l -> l = [].
Proof.
  intros Hc. destruct (checkPayments_outcome gw config ids [] s)
    as [l' [Hc' [_ Hall]]].
  rewrite Hc in Hc'. injection Hc' as ->. simpl.
  destruct l' as [|id l']; [reflexivity|].
  destruct (Hall id (or_introl eq_refl)) as [w [w' Hcan]].
  destruct (none_processable id w). now rewrite Hcan.
Qed.

Lemma dispatch_nil : dispatch gw formatEther config [] = ret tt.
Proof. reflexivity. Qed.

Lemma checkAndProcessPayments_no_submission :
  quiet is_submission (checkAndProcessPayments gw formatEther config).
Proof.
  unfold quiet, checkAndProcessPayments.
  apply emits_async.
  apply emits_bind; [auto with emits|intros a].
  apply emits_bind; [repeat emits_step; reflexivity|intros _].
  apply emits_try_finally; [|auto with emits].
  apply emits_try_catch; [|intros e; apply emits_console; reflexivity].
  apply emits_bind; [auto with emits|intros _].
  apply emits_bind; [apply emits_console; reflexivity|intros _].
  apply emits_bind; [apply emits_await; reflexivity|intros ids].
  apply emits_bind; [apply emits_console; reflexivity|intros _].
  apply emits_bind; [auto with emits|intros _].
  apply (emits_bind_post _ (fun l => l = [])).
  - intros s l. apply checkPayments_selects_nothing.
  - apply checkPayments_no_submission.
  - intros l ->. rewrite dispatch_nil. auto with emits.
Qed.

Lemma checkAndProcessPayments_keeps_queue (P : JsMap.t -> Prop) :
  keeps P (checkAndProcessPayments gw formatEther config).
Proof.
  unfold checkAndProcessPayments.
  apply keeps_async.
  apply keeps_bind; [auto with keeps|intros a].
  apply keeps_bind; [repeat keeps_step|intros _].
  apply keeps_try_finally; [|auto with keeps].
  apply keeps_try_catch; [|intros e; auto with keeps].
  apply keeps_bind; [auto with keeps|intros _].
  apply keeps_bind; [auto with keeps|intros _].
  apply keeps_bind; [auto with keeps|intros ids].
  apply keeps_bind; [auto with keeps|intros _].
  apply keeps_bind; [auto with keeps|intros _].
  apply (keeps_bind_post _ (fun l => l = [])).
  - intros s l. apply checkPayments_selects_nothing.
  - apply checkPayments_keeps.
  - intros l ->. rewrite dispatch_nil. auto with keeps.
Qed.

End NothingProcessable.

(** X10.  A scan tick during which the contract reports no payment as
    processable submits no transaction and leaves the retry queue as it
    was, whatever else the outside answers. *)
Theorem scan_tick_without_processable_payment :
  forall (W : Type) (gw : Gateway W) (formatEther : Z -> string)
         (config : Config),
    (forall id w, fst (canProcessPayment gw id w) <> Resolved true) ->
    forall s : St W,
      let o := checkAndProcessPayments gw formatEther config s in
      existsb is_submission (events_of o) = false
      /\ retryQueue (agent_of o) = retryQueue (fst s).
Proof.
  intros W gw formatEther config Hnone s o. split.
  - apply existsb_quiet.
    now apply checkAndProcessPayments_no_submission.
  - exact (checkAndProcessPayments_keeps_queue gw formatEther config Hnone
             (fun q => q = retryQueue (fst s)) s eq_refl).
Qed.

(** A tick on an outside where payment 7 is not eligible, with payment 7
    already queued: nothing is submitted and the queue stays. *)
Lemma scan_tick_without_processable_payment_witness :
  let s := ({| isProcessing := false; retryQueue := [("7", 2)] |}, tt) in
  let o := checkAndProcessPayments (Scenario.not_eligible 1700003599000)
             Scenario.format_wei Scenario.config_default s in
  existsb is_submission (events_of o) = false
  /\ retryQueue (agent_of o) = [("7", 2)].
Proof.
  apply (scan_tick_without_processable_payment unit
           (Scenario.not_eligible 1700003599000) Scenario.format_wei
           Scenario.config_default
           ltac:(intros id w; discriminate)).
Defined.

(** ** The single submission *)

Section Single.

Context {W : Type}.
Variable gw : Gateway W.
Variable formatEther : Z -> string.
Variable config : Config.

Lemma single_submissions_app (ev1 ev2 : list Event) :
  single_submissions (ev1 ++ ev2)
  = single_submissions ev1 ++ single_submissions ev2.
Proof.
  induction ev1 as [|e ev1 IH]; simpl; [reflexivity|].
  destruct e as [r|l]; [|exact IH]. destruct r; simpl; now rewrite ?IH.
Qed.

Lemma single_submissions_quiet {A : Type} (m : M W A) (s : St W) :
  quiet is_single_submission m -> single_submissions (events_of (m s)) = [].
Proof.
  intros H. specialize (H s).
  induction H as [|e ev He Hev IH]; simpl; [reflexivity|].
  destruct e as [r|l]; [|exact IH]. destruct r; simpl in *; auto.
  discriminate.
Qed.

Lemma sendWebhook_no_single_submission (data : Webhook) :
  quiet is_single_submission (sendWebhook gw config data).
Proof. unfold quiet, sendWebhook. repeat emits_step; reflexivity. Qed.

Ltac quiet_single :=
  unfold quiet; repeat emits_step; try reflexivity;
  try apply timestamp_emits; try apply sendWebhook_no_single_submission.

(** A run of [processSinglePayment] submits at most once, and only the
    payment it was given. *)
Lemma processSinglePayment_submits_at_most_once (paymentId : Z) (s : St W) :
  single_submissions
    (events_of (processSinglePayment gw formatEther config paymentId s)) = []
  \/ single_submissions
       (events_of (processSinglePayment gw formatEther config paymentId s))
     = [paymentId].
Proof.
  unfold processSinglePayment.
  rewrite events_async, events_try_catch, single_submissions_app.
  match goal with |- context [single_submissions ?x ++ single_submissions ?y] =>
    assert (Hh : single_submissions y = []) end.
  { destruct (completion_of _); try reflexivity.
    apply single_submissions_quiet.
    unfold processSinglePayment_catch. quiet_single. }
  rewrite Hh, app_nil_r. clear Hh.
  unfold processSinglePayment_try.
  rewrite events_bind, single_submissions_app. simpl.
  rewrite events_bind, single_submissions_app, events_await. simpl.
  destruct (completion_of (await _ _ _)) as [p| | |e]; auto.
  rewrite events_bind, single_submissions_app.
  rewrite single_submissions_quiet by quiet_single. simpl.
  destruct (completion_of _) as [u| | |e]; auto.
  rewrite events_bind, single_submissions_app, events_await. simpl.
  right. f_equal.
  destruct (completion_of _) as [tx| | |e]; auto.
  apply single_submissions_quiet. quiet_single.
Qed.

End Single.

(** X11.  One run of [processSinglePayment] requests at most one
    transaction, for the payment it was given, and never a batch
    transaction, whatever the outside answers. *)
Theorem processSinglePayment_submits_once_at_most :
  forall (W : Type) (gw : Gateway W) (formatEther : Z -> string)
         (config : Config) (paymentId : Z) (s : St W),
    let ev :=
      events_of (processSinglePayment gw formatEther config paymentId s) in
    (single_submissions ev = [] \/ single_submissions ev = [paymentId])
    /\ batch_attempted ev = false.
Proof.
  intros. split.
  - apply processSinglePayment_submits_at_most_once.
  - apply batch_attempted_false, processSinglePayment_no_batch.
Qed.

(** ** Outcomes of the single submission *)

Section SingleOutcome.

Context {W : Type}.

Lemma completes_ret {A : Type} (a : A) : completes (@ret W A a).
Proof. intros s. now exists a. Qed.

Lemma completes_console (l : Line) : completes (@console W l).
Proof. intros s. now exists tt. Qed.

Lemma completes_update (f : JsMap.t -> JsMap.t) :
  completes (@update_retryQueue W f).
Proof. intros s. now exists tt. Qed.

Lemma completes_await {A : Type} (r : Request) (f : W -> result A * W) :
  answers f -> completes (await r f).
Proof.
  intros Hf [a w]. destruct (Hf w) as [x [w' Hx]]. exists x.
  unfold await, completion_of. simpl. now rewrite Hx.
Qed.

Lemma completes_bind {A B : Type} (m : M W A) (k : A -> M W B) :
  completes m -> (forall a, completes (k a)) -> completes (bind m k).
Proof.
  intros Hm Hk s. destruct (Hm s) as [a Ha].
  unfold bind, completion_of in *.
  destruct (m s) as [[c s1] ev1]. simpl in Ha. subst c.
  destruct (Hk a s1) as [b Hb]. exists b. unfold completion_of in Hb.
  destruct (k a s1) as [[c2 s2] ev2]. exact Hb.
Qed.

Lemma completes_if {A : Type} (b : bool) (m1 m2 : M W A) :
  completes m1 -> completes m2 -> completes (if b then m1 else m2).
Proof. destruct b; auto. Qed.

Lemma throws_clean_update (f : JsMap.t -> JsMap.t) :
  throws_clean (@update_retryQueue W f).
Proof. intros s e H. discriminate. Qed.

Lemma throws_clean_bind {A B : Type} (m : M W A) (k : A -> M W B) :
  leaves_agent m -> (forall a, throws_clean (k a)) ->
  throws_clean (bind m k).
Proof.
  intros Hm Hk s e. specialize (Hm s).
  unfold bind, completion_of, agent_of in *.
  destruct (m s) as [[c s1] ev1]. simpl in Hm.
  destruct c as [a| | |e']; simpl; auto.
  specialize (Hk a s1 e). unfold completion_of, agent_of in Hk.
  destruct (k a s1) as [[c2 s2] ev2]. simpl in *.
  intros Hc. rewrite (Hk Hc). exact Hm.
Qed.

Variable gw : Gateway W.
Variable formatEther : Z -> string.
Variable config : Config.

Lemma sendWebhook_completes (data : Webhook) :
  completes (sendWebhook gw config data).
Proof. intros s. exists tt. apply sendWebhook_resolves. Qed.

Lemma timestamp_completes : completes (timestamp gw).
Proof. intros s. now exists (Date_now gw (snd s)). Qed.

Lemma processSinglePayment_try_completes (paymentId : Z) :
  answers (recurringPayments gw paymentId) ->
  answers (processRecurringPayment gw paymentId 3000000) ->
  (forall tx, answers (wait gw tx)) ->
  completes (processSinglePayment_try gw formatEther config paymentId).
Proof.
  intros Hrec Hsub Hwait. unfold processSinglePayment_try.
  repeat (apply completes_bind; [|intro]);
    repeat apply completes_if;
    repeat (apply completes_bind; [|intro]);
    auto using completes_console, completes_await, completes_update,
      completes_ret, sendWebhook_completes, timestamp_completes.
Qed.

Lemma processSinglePayment_try_throws_clean (paymentId : Z) :
  throws_clean (processSinglePayment_try gw formatEther config paymentId).
Proof.
  unfold processSinglePayment_try.
  repeat (apply throws_clean_bind;
          [repeat leaves_step; try apply timestamp_leaves;
           apply sendWebhook_leaves|intro]).
  apply throws_clean_update.
Qed.

(** The submission of one payment writes no other payment's entry. *)
Lemma processSinglePayment_frame (paymentId : Z) (k : string) (v : option Z) :
  k <> toString paymentId ->
  keeps (fun q => JsMap.get k q = v)
        (processSinglePayment gw formatEther config paymentId).
Proof.
  intros Hk. unfold processSinglePayment, processSinglePayment_try,
    processSinglePayment_catch.
  repeat keeps_step; try apply timestamp_keeps; try apply sendWebhook_keeps;
    apply keeps_update; intros q Hq;
    now rewrite ?get_delete_other, ?get_set_other by congruence.
Qed.

End SingleOutcome.

(** X12.  When the record read, the submission and the confirmation of a
    payment all answer, [processSinglePayment] resolves and the payment is
    no longer in the retry queue, whatever its count was before and
    whether or not the notifications are delivered. *)
Theorem single_submission_success_clears :
  forall (W : Type) (gw : Gateway W) (formatEther : Z -> string)
         (config : Config) (paymentId : Z),
    answers (recurringPayments gw paymentId) ->
    answers (processRecurringPayment gw paymentId 3000000) ->
    (forall tx, answers (wait gw tx)) ->
    forall s : St W,
      let o := processSinglePayment gw formatEther config paymentId s in
      resolves o
      /\ JsMap.get (toString paymentId) (retryQueue (agent_of o)) = None.
Proof.
  intros W gw formatEther config paymentId Hrec Hsub Hwait s o.
  destruct (processSinglePayment_try_completes gw formatEther config
              paymentId Hrec Hsub Hwait s) as [[] Hc].
  split.
  - unfold o, resolves, processSinglePayment, async, try_catch, completion_of.
    unfold completion_of in Hc.
    destruct (processSinglePayment_try gw formatEther config paymentId s)
      as [[c s1] ev1].
    simpl in Hc. subst c. reflexivity.
  - now apply processSinglePayment_success_clears.
Qed.

(** Payment 3, queued with count 2, goes through on a healthy outside. *)
Lemma single_submission_success_clears_witness :
  let s := ({| isProcessing := false; retryQueue := [("3", 2); ("4", 1)] |},
            tt) in
  let o := processSinglePayment Scenario.healthy Scenario.format_wei
             Scenario.config_default 3 s in
  resolves o /\ JsMap.get (toString 3) (retryQueue (agent_of o)) = None.
Proof.
  apply (single_submission_success_clears unit Scenario.healthy
           Scenario.format_wei Scenario.config_default 3).
  - intros w. now exists Scenario.salary, w.
  - intros w. now exists Scenario.tx1, w.
  - intros tx w. now exists (Some "0x7c1"), w.
Defined.

(** X13.  Whenever the submission path of a payment that is not in the
    retry queue fails (its [try] block throws, whatever the cause), the
    payment is queued with count 1. *)
Theorem first_failure_enqueues_with_count_1 :
  forall (W : Type) (gw : Gateway W) (formatEther : Z -> string)
         (config : Config) (paymentId : Z) (s : St W) (e : Error),
    completion_of (processSinglePayment_try gw formatEther config paymentId s)
    = Throw e ->
    JsMap.get (toString paymentId) (retryQueue (fst s)) = None ->
    retryQueue
      (agent_of (processSinglePayment gw formatEther config paymentId s))
    = JsMap.set (toString paymentId) 1 (retryQueue (fst s)).
Proof.
  intros W gw formatEther config paymentId s e Hc Habs.
  pose proof (processSinglePayment_try_throws_clean gw formatEther config
                paymentId s e Hc) as Hclean.
  unfold processSinglePayment.
  rewrite agent_async, agent_try_catch, Hc.
  rewrite failure_after_clearing_starts_at_0.
  - unfold agent_of, state_of in *. now rewrite Hclean.
  - unfold absent, agent_of, state_of in *. now rewrite Hclean.
Qed.

(** The node rejects the submission of payment 7, which was not queued. *)
Lemma first_failure_enqueues_with_count_1_witness :
  retryQueue
    (agent_of (processSinglePayment Scenario.submission_fails
                 Scenario.format_wei Scenario.config_default 7
                 ({| isProcessing := false; retryQueue := [("4", 2)] |}, tt)))
  = [("4", 2); ("7", 1)].
Proof.
  apply (first_failure_enqueues_with_count_1 unit Scenario.submission_fails
           Scenario.format_wei Scenario.config_default 7
           ({| isProcessing := false; retryQueue := [("4", 2)] |}, tt)
           "execution reverted");
    vm_compute; reflexivity.
Defined.

(** X14.  A run of [processSinglePayment] never changes the retry entry of
    another payment: every other payment has the same count, or the same
    absence, before and after. *)
Theorem single_submission_touches_own_entry_only :
  forall (W : Type) (gw : Gateway W) (formatEther : Z -> string)
         (config : Config) (paymentId other : Z) (s : St W),
    other <> paymentId ->
    JsMap.get (toString other)
      (retryQueue
         (agent_of (processSinglePayment gw formatEther config paymentId s)))
    = JsMap.get (toString other) (retryQueue (fst s)).
Proof.
  intros W gw formatEther config paymentId other s Hne.
  apply (processSinglePayment_frame gw formatEther config paymentId
           (toString other) (JsMap.get (toString other) (retryQueue (fst s)))).
  - intros H. apply toString_inj in H. contradiction.
  - reflexivity.
Qed.

(** Payment 7 fails while payment 4 is queued with count 2. *)
Lemma single_submission_touches_own_entry_only_witness :
  JsMap.get (toString 4)
    (retryQueue
       (agent_of (processSinglePayment Scenario.submission_fails
                    Scenario.format_wei Scenario.config_default 7
                    ({| isProcessing := false;
                        retryQueue := [("4", 2); ("7", 2)] |}, tt))))
  = JsMap.get (toString 4) [("4", 2); ("7", 2)].
Proof.
  apply (single_submission_touches_own_entry_only unit
           Scenario.submission_fails Scenario.format_wei
           Scenario.config_default 7 4
           ({| isProcessing := false; retryQueue := [("4", 2); ("7", 2)] |},
            tt)).
  discriminate.
Defined.

(** ** Outcomes of the batch submission *)

Section BatchOutcome.

Context {W : Type}.
Variable gw : Gateway W.
Variable formatEther : Z -> string.
Variable config : Config.

Lemma get_fold_delete_other (k : string) (l : list Z) (q : JsMap.t) :
  (forall id, In id l -> k <> toString id) ->
  JsMap.get k
    (fold_left (fun q paymentId => JsMap.delete (toString paymentId) q) l q)
  = JsMap.get k q.
Proof.
  revert q. induction l as [|x l IH]; intros q Hk; simpl; [reflexivity|].
  rewrite IH by (intros id Hin; apply Hk; now right).
  apply get_delete_other. intros H. apply (Hk x); [now left|now symmetry].
Qed.

(** The outcome of a batch whose transaction is submitted and confirmed. *)
Lemma processBatchPayments_confirmed (paymentIds : list Z) (a : PaymentAgent)
  (w w1 w2 : W) (tx : Tx) (r : Receipt) :
  processMultiplePayments gw paymentIds 6000000 w = (Resolved tx, w1) ->
  wait gw tx w1 = (Resolved r, w2) ->
  exists w3 posts,
    Forall (fun e => match e with
                     | Call (ReqAxiosPost _ _) => True
                     | Console (LWebhookSent _) => True
                     | Console (LErrorWebhook _) => True
                     | _ => False
                     end) posts
    /\ processBatchPayments gw formatEther config paymentIds (a, w)
       = (Normal tt,
          ({| isProcessing := isProcessing a;
              retryQueue :=
                fold_left
                  (fun q paymentId => JsMap.delete (toString paymentId) q)
                  paymentIds (retryQueue a) |}, w3),
          [Console (LProcessingBatch (len paymentIds));
           Call (ReqProcessMultiplePayments paymentIds 6000000);
           Console (LBatchSubmitted (hash tx)); Call (ReqWait tx);
           Console (LBatchProcessed r)] ++ posts).
Proof.
  intros Hsub Hwait.
  unfold processBatchPayments, async, try_catch, bind, await, console,
    timestamp.
  simpl. rewrite Hsub. simpl. rewrite Hwait. simpl.
  destruct (truthy (webhookUrl config)).
  - pose proof (sendWebhook_resolves gw config
                  (BatchPaymentsProcessed (map toString paymentIds) (hash tx)
                     (Date_now gw w2)) (a, w2)) as Hres.
    pose proof (sendWebhook_leaves gw config
                  (BatchPaymentsProcessed (map toString paymentIds) (hash tx)
                     (Date_now gw w2)) (a, w2)) as Hag.
    pose proof (sendWebhook_events gw config
                  (BatchPaymentsProcessed (map toString paymentIds) (hash tx)
                     (Date_now gw w2)) (a, w2)) as Hev.
    unfold resolves, completion_of, agent_of, events_of in Hres, Hag, Hev.
    destruct (sendWebhook gw config _ (a, w2)) as [[c [a' w3]] ev].
    simpl in Hres, Hag, Hev. subst c a'. simpl. rewrite for_of_delete. simpl.
    exists w3, ev. split; [exact Hev|]. now rewrite app_nil_r.
  - simpl. rewrite for_of_delete. simpl. exists w2, []. split; [constructor|].
    reflexivity.
Qed.

Lemma posts_enter_nothing (posts : list Event) :
  Forall (fun e => match e with
                   | Call (ReqAxiosPost _ _) => True
                   | Console (LWebhookSent _) => True
                   | Console (LErrorWebhook _) => True
                   | _ => False
                   end) posts ->
  single_path_entries posts = [].
Proof.
  induction 1 as [|e ev He Hev IH]; [reflexivity|].
  destruct e as [r|l]; [exact IH|]. destruct l; try contradiction; exact IH.
Qed.

Lemma posts_submit_nothing (posts : list Event) :
  Forall (fun e => match e with
                   | Call (ReqAxiosPost _ _) => True
                   | Console (LWebhookSent _) => True
                   | Console (LErrorWebhook _) => True
                   | _ => False
                   end) posts ->
  single_submissions posts = [].
Proof.
  induction 1 as [|e ev He Hev IH]; [reflexivity|].
  destruct e as [r|l]; [|exact IH]. destruct r; try contradiction; exact IH.
Qed.

End BatchOutcome.

(** X15.  When the batch transaction is submitted and confirmed,
    [processBatchPayments] resolves, every payment of the batch is out of
    the retry queue, every other entry is as before, and no payment enters
    the single-submission path: the only transaction is the batch. *)
Theorem batch_success_clears_whole_batch :
  forall (W : Type) (gw : Gateway W) (formatEther : Z -> string)
         (config : Config) (paymentIds : list Z) (a : PaymentAgent)
         (w w1 w2 : W) (tx : Tx) (r : Receipt),
    processMultiplePayments gw paymentIds 6000000 w = (Resolved tx, w1) ->
    wait gw tx w1 = (Resolved r, w2) ->
    let o := processBatchPayments gw formatEther config paymentIds (a, w) in
    resolves o
    /\ (forall id, In id paymentIds ->
          JsMap.get (toString id) (retryQueue (agent_of o)) = None)
    /\ (forall k, (forall id, In id paymentIds -> k <> toString id) ->
          JsMap.get k (retryQueue (agent_of o)) = JsMap.get k (retryQueue a))
    /\ single_path_entries (events_of o) = []
    /\ single_submissions (events_of o) = [].
Proof.
  intros W gw formatEther config paymentIds a w w1 w2 tx r Hsub Hwait o.
  destruct (processBatchPayments_confirmed gw formatEther config paymentIds
              a w w1 w2 tx r Hsub Hwait) as [w3 [posts [Hposts Ho]]].
  unfold o. rewrite Ho. unfold resolves, completion_of, agent_of, events_of.
  simpl. split; [reflexivity|]. split; [|split; [|split]].
  - intros id Hin. apply absent_fold_delete. right. now apply in_map.
  - intros k Hk. now apply get_fold_delete_other.
  - now apply posts_enter_nothing.
  - now apply posts_submit_nothing.
Qed.

(** Four queued payments go through as one batch on a healthy outside. *)
Lemma batch_success_clears_whole_batch_witness :
  let a := {| isProcessing := true;
              retryQueue := [("1", 1); ("9", 2); ("3", 3)] |} in
  let o := processBatchPayments Scenario.healthy Scenario.format_wei
             Scenario.config_default [1; 2; 3; 4] (a, tt) in
  resolves o /\ retryQueue (agent_of o) = [("9", 2)].
Proof.
  intros a o. split.
  - apply (proj1 (batch_success_clears_whole_batch unit Scenario.healthy
                    Scenario.format_wei Scenario.config_default [1; 2; 3; 4]
                    a tt tt tt Scenario.tx1 (Some "0x7c1") eq_refl eq_refl)).
  - vm_compute. reflexivity.
Defined.

Section FallbackAfterConfirmation.

Context {W : Type}.
Variable gw : Gateway W.
Variable formatEther : Z -> string.
Variable config : Config.

(** The fallback also runs when the batch was submitted but its
    confirmation failed. *)
Lemma batch_fallback_after_unconfirmed (paymentIds : list Z) (e : Error)
  (tx : Tx) (a : PaymentAgent) (w w1 w2 : W) :
  (forall paymentId,
      no_throw (processSinglePayment gw formatEther config paymentId)) ->
  processMultiplePayments gw paymentIds 6000000 w = (Resolved tx, w1) ->
  wait gw tx w1 = (Rejected e, w2) ->
  let o := processBatchPayments gw formatEther config paymentIds (a, w) in
  completion_of o = Normal tt
  /\ single_path_entries (events_of o) = paymentIds.
Proof.
  intros Hres Hbatch Hwait.
  pose proof (for_of_processSinglePayment_entries gw formatEther config
                paymentIds (a, w2) Hres) as Hloop.
  cbv zeta in *.
  unfold processBatchPayments, async, try_catch, bind, await, console,
    completion_of, events_of in *.
  simpl. rewrite Hbatch. simpl. rewrite Hwait. simpl.
  destruct (for_of paymentIds (processSinglePayment gw formatEther config)
              (a, w2)) as [[c2 s2] ev2].
  simpl in *. destruct Hloop as [-> Hloop]. now split.
Qed.

End FallbackAfterConfirmation.

(** X16.  Without a webhook endpoint, a batch whose submission is
    rejected, or whose confirmation fails after the submission, does not
    reject: [processBatchPayments] resolves, and every payment of the batch
    then enters the single-submission path exactly once, in batch order. *)
Theorem batch_failure_falls_back_to_each_payment :
  forall (W : Type) (gw : Gateway W) (formatEther : Z -> string)
         (config : Config) (paymentIds : list Z) (a : PaymentAgent) (w : W),
    webhookUrl config = EmptyString ->
    let o := processBatchPayments gw formatEther config paymentIds (a, w) in
    (forall e w',
        processMultiplePayments gw paymentIds 6000000 w = (Rejected e, w') ->
        resolves o /\ single_path_entries (events_of o) = paymentIds)
    /\
    (forall tx w1 e w2,
        processMultiplePayments gw paymentIds 6000000 w = (Resolved tx, w1) ->
        wait gw tx w1 = (Rejected e, w2) ->
        resolves o /\ single_path_entries (events_of o) = paymentIds).
Proof.
  intros W gw formatEther config paymentIds a w Hurl o. split.
  - intros e w' Hbatch.
    apply (batch_fallback_each_once gw formatEther config paymentIds e a w w');
      [|exact Hbatch].
    intros id. now apply processSinglePayment_no_throw.
  - intros tx w1 e w2 Hbatch Hwait.
    apply (batch_fallback_after_unconfirmed gw formatEther config paymentIds
             e tx a w w1 w2); [|exact Hbatch|exact Hwait].
    intros id. now apply processSinglePayment_no_throw.
Qed.

(** Four payments at the ceiling, reads and batch call rejected, no
    endpoint: the fallback visits all four. *)
Lemma batch_failure_falls_back_to_each_payment_witness :
  let a := {| isProcessing := true;
              retryQueue := [("1", 3); ("2", 3); ("3", 3); ("4", 3)] |} in
  let o := processBatchPayments Scenario.reads_fail Scenario.format_wei
             Example.config_silent [1; 2; 3; 4] (a, tt) in
  resolves o /\ single_path_entries (events_of o) = [1; 2; 3; 4].
Proof.
  intros a o.
  apply (proj1 (batch_failure_falls_back_to_each_payment unit
                  Scenario.reads_fail Scenario.format_wei
                  Example.config_silent [1; 2; 3; 4] a tt eq_refl)
           "execution reverted" tt eq_refl).
Defined.

(** ** The drain as a whole *)

Section DrainWhole.

Context {W : Type}.
Variable gw : Gateway W.
Variable formatEther : Z -> string.
Variable config : Config.

Lemma get_in_keys (k : string) (v : Z) (q : JsMap.t) :
  JsMap.get k q = Some v -> In k (JsMap.keys q).
Proof.
  intros H. apply get_In in H. change k with (fst (k, v)).
  unfold JsMap.keys. now apply in_map.
Qed.

(** A loop over entries whose body keeps [P] on the keys it is given. *)
Lemma keeps_for_of_entries_in (P : JsMap.t -> Prop) (l : list string)
  (body : string * Z -> M W unit) :
  (forall k v, In k l -> keeps P (body (k, v))) ->
  keeps P (for_of_entries l body).
Proof.
  induction l as [|k l IH]; intros Hb s H; [exact H|].
  simpl. destruct (JsMap.get k (retryQueue (fst s))) as [v|].
  - pose proof (Hb k v (or_introl eq_refl) s H) as Hk. unfold agent_of in *.
    destruct (body (k, v) s) as [[c s1] ev1]. simpl in Hk.
    assert (IH' := IH (fun k' v' Hin => Hb k' v' (or_intror Hin)) s1 Hk).
    unfold agent_of in IH'.
    destruct (for_of_entries l body s1) as [[c2 s2] ev2].
    destruct c as [u| | |e]; simpl in *; auto.
  - apply IH; [|exact H]. intros k' v' Hin. apply Hb. now right.
Qed.

(** An entry's iteration adds no key to a queue that holds only keys of
    [K], as long as its own key is in [K]. *)
Lemma retryEntry_adds_no_key (K : list string) (paymentId : string)
  (retryCount : Z) :
  In paymentId K ->
  keeps (fun q => incl (JsMap.keys q) K)
        (retryEntry gw formatEther config (paymentId, retryCount)).
Proof.
  intros Hin. unfold retryEntry, retryEntry_try, retryEntry_catch.
  repeat keeps_step; try apply toBigInt_keeps; try apply timestamp_keeps;
    try apply sendWebhook_keeps;
    apply keeps_update; intros q Hq x Hx.
  - apply Hq. now apply in_keys_delete in Hx.
  - apply Hq. now apply in_keys_delete in Hx.
  - apply in_keys_set in Hx. destruct Hx as [Hx| ->]; auto.
Qed.

End DrainWhole.

(** X17.  A drain never adds a payment to the retry queue: every key
    present after [processRetryQueue] was present before it, whatever the
    outside answers.  On an empty queue the drain returns at once, without
    a request and without a console line. *)
Theorem drain_adds_no_entry :
  forall (W : Type) (gw : Gateway W) (formatEther : Z -> string)
         (config : Config) (a : PaymentAgent) (w : W),
    incl (JsMap.keys
            (retryQueue
               (agent_of (processRetryQueue gw formatEther config (a, w)))))
         (JsMap.keys (retryQueue a))
    /\ (retryQueue a = [] ->
        processRetryQueue gw formatEther config (a, w)
        = (Normal tt, (a, w), [])).
Proof.
  intros W gw formatEther config a w. split.
  - unfold processRetryQueue.
    rewrite agent_async, agent_bind. simpl.
    rewrite agent_bind.
    destruct (JsMap.size (retryQueue a) =? 0); simpl; [apply incl_refl|].
    rewrite agent_bind. simpl.
    apply (keeps_for_of_entries_in
             (fun q => incl (JsMap.keys q) (JsMap.keys (retryQueue a)))
             (JsMap.keys (retryQueue a))
             (retryEntry gw formatEther config)).
    + intros k v Hin. now apply retryEntry_adds_no_key.
    + apply incl_refl.
  - intros Hempty. unfold processRetryQueue, async, bind, this.
    simpl. rewrite Hempty. reflexivity.
Qed.

(** The drain of a fresh agent does nothing. *)
Lemma drain_adds_no_entry_witness :
  processRetryQueue Scenario.healthy Scenario.format_wei
    Scenario.config_default (new_PaymentAgent, tt)
  = (Normal tt, (new_PaymentAgent, tt), []).
Proof.
  apply (proj2 (drain_adds_no_entry unit Scenario.healthy Scenario.format_wei
                  Scenario.config_default new_PaymentAgent tt)).
  reflexivity.
Defined.

(** X18.  In a drain, an entry whose payment is eligible, whose
    transaction is submitted and confirmed and, when an endpoint is
    configured, whose record is then read, completes its iteration
    normally and is removed from the queue; its payment was submitted
    exactly once. *)
Theorem drain_entry_success_removes_entry :
  forall (W : Type) (gw : Gateway W) (formatEther : Z -> string)
         (config : Config) (paymentId : string) (retryCount id : Z)
         (a : PaymentAgent) (w w1 w2 w3 : W) (tx : Tx) (r : Receipt),
    BigInt paymentId = Some id ->
    canProcessPayment gw id w = (Resolved true, w1) ->
    processRecurringPayment gw id 3000000 w1 = (Resolved tx, w2) ->
    wait gw tx w2 = (Resolved r, w3) ->
    (truthy (webhookUrl config) = true ->
     exists p w4, recurringPayments gw id w3 = (Resolved p, w4)) ->
    let o := retryEntry gw formatEther config (paymentId, retryCount) (a, w) in
    completion_of o = Normal tt
    /\ JsMap.get paymentId (retryQueue (agent_of o)) = None
    /\ single_submissions (events_of o) = [id].
Proof.
  intros W gw formatEther config paymentId retryCount id a w w1 w2 w3 tx r
    Hid Hcan Hsub Hwait Hrec o.
  assert (Htry :
            exists s' posts,
              retryEntry_try gw formatEther config paymentId retryCount (a, w)
              = (Normal tt, s',
                 [Console (LRetrying paymentId retryCount);
                  Call (ReqCanProcessPayment id);
                  Call (ReqProcessRecurringPayment id 3000000);
                  Console (LRetrySubmitted (hash tx)); Call (ReqWait tx);
                  Console (LRetryProcessed paymentId r)] ++ posts)
              /\ single_submissions posts = []).
  { unfold retryEntry_try, bind, console, toBigInt, await, timestamp.
    rewrite Hid. simpl. rewrite Hcan. simpl. rewrite Hsub. simpl.
    rewrite Hwait. simpl.
    destruct (truthy (webhookUrl config)) eqn:Ht.
    - destruct (Hrec eq_refl) as [p [w4 Hp]]. simpl. rewrite Hp. simpl.
      match goal with |- context [sendWebhook gw config ?d ?s0] =>
        pose proof (sendWebhook_resolves gw config d s0) as Hres;
        pose proof (sendWebhook_events gw config d s0) as Hev;
        unfold resolves, completion_of, events_of in Hres, Hev;
        destruct (sendWebhook gw config d s0) as [[c s'] ev]
      end.
      simpl in Hres, Hev. subst c. simpl.
      eexists. exists (Call (ReqRecurringPayments id) :: ev).
      split; [now rewrite app_nil_r|].
      simpl. now apply posts_submit_nothing.
    - simpl. eexists. exists []. split; reflexivity. }
  destruct Htry as [s' [posts [Htry Hposts]]].
  split; [|split].
  - unfold o, retryEntry, try_catch. now rewrite Htry.
  - apply retryEntry_success_clears. now rewrite Htry.
  - unfold o, retryEntry, try_catch. rewrite Htry.
    unfold events_of. simpl. now rewrite Hposts.
Qed.

(** Payment 7, queued with count 2, goes through in a drain. *)
Lemma drain_entry_success_removes_entry_witness :
  let a := {| isProcessing := false; retryQueue := [("7", 2); ("9", 1)] |} in
  let o := retryEntry Scenario.healthy Scenario.format_wei
             Scenario.config_default ("7", 2) (a, tt) in
  completion_of o = Normal tt
  /\ JsMap.get "7" (retryQueue (agent_of o)) = None
  /\ single_submissions (events_of o) = [7].
Proof.
  intros a o.
  apply (drain_entry_success_removes_entry unit Scenario.healthy
           Scenario.format_wei Scenario.config_default "7" 2 7 a
           tt tt tt tt Scenario.tx1 (Some "0x7c1")
           eq_refl eq_refl eq_refl eq_refl).
  intros _. now exists Scenario.salary, tt.
Defined.

(** ** The grouping of the analysis tick *)

Section ObjectLemmas.

Lemma object_get_In (k : string) (v : list Z) (o : JsObject.t) :
  JsObject.get k o = Some v -> In (k, v) o.
Proof.
  induction o as [|[k' v'] o IH]; simpl; [discriminate|].
  destruct (String.eqb_spec k' k) as [->|Hne].
  - intros [= ->]. now left.
  - auto.
Qed.

Lemma object_In_get (k : string) (v : list Z) (o : JsObject.t) :
  object_wf o -> In (k, v) o -> JsObject.get k o = Some v.
Proof.
  unfold object_wf. induction o as [|[k' v'] o IH]; simpl; [intros _ []|].
  intros Hwf [Heq|Hin]; inversion Hwf as [|x l Hx Hl]; subst.
  - injection Heq as -> ->. now rewrite String.eqb_refl.
  - destruct (String.eqb_spec k' k) as [->|Hne]; [|now apply IH].
    destruct Hx. change k with (fst (k, v)). now apply in_map.
Qed.

Lemma object_keys_push (k : string) (x : Z) (o : JsObject.t) :
  map fst (JsObject.push k x o) = map fst o.
Proof.
  induction o as [|[k' v'] o IH]; simpl; [reflexivity|].
  destruct (k' =? k)%string; simpl; now rewrite ?IH.
Qed.

Lemma object_get_none_keys (k : string) (o : JsObject.t) :
  JsObject.get k o = None -> ~ In k (map fst o).
Proof.
  induction o as [|[k' v'] o IH]; simpl; [intros _ []|].
  destruct (String.eqb_spec k' k) as [->|Hne]; [discriminate|].
  intros H [Heq|Hin]; [contradiction|now apply IH].
Qed.

Lemma object_wf_add (k : string) (x : Z) (o : JsObject.t) :
  object_wf o -> object_wf (JsObject.add k x o).
Proof.
  unfold object_wf, JsObject.add. intros Hwf.
  destruct (JsObject.get k o) eqn:Hget.
  - now rewrite object_keys_push.
  - rewrite map_app. simpl. apply NoDup_app; auto.
    + constructor; [intros []|constructor].
    + intros y Hy [<-|[]]. now apply (object_get_none_keys k o Hget).
Qed.

Lemma object_get_push_same (k : string) (x : Z) (o : JsObject.t)
  (v : list Z) :
  JsObject.get k o = Some v ->
  JsObject.get k (JsObject.push k x o) = Some (v ++ [x]).
Proof.
  induction o as [|[k' v'] o IH]; simpl; [discriminate|].
  destruct (k' =? k)%string eqn:E; simpl; rewrite E; auto.
  now intros [= ->].
Qed.

Lemma object_get_push_other (k k' : string) (x : Z) (o : JsObject.t) :
  k <> k' -> JsObject.get k' (JsObject.push k x o) = JsObject.get k' o.
Proof.
  intros Hne. induction o as [|[k0 v0] o IH]; simpl; [reflexivity|].
  destruct (String.eqb_spec k0 k) as [->|Hk]; simpl.
  - destruct (String.eqb_spec k k'); [contradiction|reflexivity].
  - destruct (k0 =? k')%string; auto.
Qed.

Lemma object_get_app_none (k : string) (o o' : JsObject.t) :
  JsObject.get k o = None -> JsObject.get k (o ++ o') = JsObject.get k o'.
Proof.
  induction o as [|[k0 v0] o IH]; simpl; [reflexivity|].
  destruct (k0 =? k)%string; [discriminate|auto].
Qed.

Lemma object_get_app_some (k : string) (o o' : JsObject.t) (v : list Z) :
  JsObject.get k o = Some v -> JsObject.get k (o ++ o') = Some v.
Proof.
  induction o as [|[k0 v0] o IH]; simpl; [discriminate|].
  destruct (k0 =? k)%string; auto.
Qed.

Lemma object_get_add_same (k : string) (x : Z) (o : JsObject.t) :
  JsObject.get k (JsObject.add k x o)
  = Some (match JsObject.get k o with
          | Some v => v ++ [x]
          | None => [x]
          end).
Proof.
  unfold JsObject.add. destruct (JsObject.get k o) eqn:Hget.
  - now apply object_get_push_same.
  - rewrite object_get_app_none by exact Hget. simpl.
    now rewrite String.eqb_refl.
Qed.

Lemma object_get_add_other (k k' : string) (x : Z) (o : JsObject.t) :
  k <> k' -> JsObject.get k' (JsObject.add k x o) = JsObject.get k' o.
Proof.
  intros Hne. unfold JsObject.add. destruct (JsObject.get k o) eqn:Hget.
  - now apply object_get_push_other.
  - destruct (JsObject.get k' o) eqn:Hk'.
    + now apply object_get_app_some.
    + rewrite object_get_app_none by exact Hk'. simpl.
      destruct (String.eqb_spec k k'); [contradiction|reflexivity].
Qed.

Lemma In_insert_sorted (n : Z) (e : string * list Z)
  (l : list (Z * (string * list Z))) (x : Z * (string * list Z)) :
  In x (JsObject.insert_sorted n e l) <-> x = (n, e) \/ In x l.
Proof.
  induction l as [|[n' e'] l IH]; simpl.
  - intuition.
  - destruct (n <? n'); simpl; rewrite ?IH; intuition.
Qed.

Lemma In_indexed (n : Z) (e : string * list Z) (o : JsObject.t) :
  In (n, e) (JsObject.indexed o)
  <-> In e o /\ JsObject.array_index (fst e) = Some n.
Proof.
  induction o as [|[k v] o IH]; simpl; [intuition|].
  destruct (JsObject.array_index k) as [m|] eqn:Hk.
  - rewrite In_insert_sorted, IH. split.
    + intros [[= -> ->]|[Hin Hidx]]; auto.
    + intros [[<-|Hin] Hidx]; auto. left. simpl in Hidx. congruence.
  - rewrite IH. split.
    + intros [Hin Hidx]. auto.
    + intros [[<-|Hin] Hidx]; auto. simpl in Hidx. congruence.
Qed.

(** [Object.entries] lists the properties of the object, each one. *)
Lemma In_entries (e : string * list Z) (o : JsObject.t) :
  In e (JsObject.entries o) <-> In e o.
Proof.
  unfold JsObject.entries, JsObject.named.
  rewrite in_app_iff, in_map_iff, filter_In. split.
  - intros [[[n e'] [Heq Hin]]|[Hin _]]; auto.
    simpl in Heq. subst e'. now apply In_indexed in Hin.
  - intros Hin. destruct (JsObject.array_index (fst e)) as [n|] eqn:Hidx.
    + left. exists (n, e). split; [reflexivity|]. now apply In_indexed.
    + right. now split.
Qed.

End ObjectLemmas.

Section Analysis.

Context {W : Type}.
Variable gw : Gateway W.
Variable record : Z -> Payment.

Hypothesis reads_answer :
  forall id w, exists w', recurringPayments gw id w = (Resolved (record id), w').

Lemma groupByInterval_outcome (ids : list Z) (o : JsObject.t) (s : St W) :
  exists w',
    groupByInterval gw ids o s
    = (Normal (grouped record ids o), (fst s, w'),
       map (fun id => Call (ReqRecurringPayments id)) ids).
Proof.
  revert o s. induction ids as [|id ids IH]; intros o [a w]; simpl.
  - exists w. reflexivity.
  - destruct (reads_answer id w) as [w1 Hr].
    destruct (IH (JsObject.add (toString (interval (record id))) id o)
                 (a, w1)) as [w2 Hg].
    exists w2. unfold bind, await. simpl. rewrite Hr, Hg. reflexivity.
Qed.

Lemma grouped_wf (ids : list Z) (o : JsObject.t) :
  object_wf o -> object_wf (grouped record ids o).
Proof.
  revert o. induction ids as [|id ids IH]; intros o Hwf; simpl; auto.
  apply IH. now apply object_wf_add.
Qed.

Lemma grouped_get (i : Z) (ids : list Z) (o : JsObject.t) :
  JsObject.get (toString i) (grouped record ids o)
  = match JsObject.get (toString i) o with
    | Some v => Some (v ++ payments_with_interval record i ids)
    | None =>
        match payments_with_interval record i ids with
        | [] => None
        | m => Some m
        end
    end.
Proof.
  revert o. induction ids as [|id ids IH]; intros o; simpl.
  - destruct (JsObject.get (toString i) o); [now rewrite app_nil_r|easy].
  - rewrite IH. destruct (Z.eqb_spec (interval (record id)) i) as [->|Hne].
    + rewrite object_get_add_same.
      destruct (JsObject.get (toString i) o); [|reflexivity].
      now rewrite <- app_assoc.
    + rewrite object_get_add_other; [reflexivity|].
      intros H. now apply toString_inj in H.
Qed.

Lemma for_of_console {X : Type} (l : list X) (f : X -> Line) (s : St W) :
  for_of l (fun e => console (f e)) s
  = (Normal tt, s, map (fun e => Console (f e)) l).
Proof.
  revert s. induction l as [|x l IH]; intros s; [reflexivity|].
  cbn [for_of]. unfold console at 1. cbv beta iota. now rewrite IH.
Qed.

Lemma for_of_console_if {X : Type} (l : list X) (c : X -> bool)
  (f : X -> Line) (s : St W) :
  for_of l (fun e => if c e then console (f e) else ret tt) s
  = (Normal tt, s, map (fun e => Console (f e)) (filter c l)).
Proof.
  revert s. induction l as [|x l IH]; intros s; [reflexivity|].
  cbn [for_of filter]. destruct (c x).
  - unfold console at 1. cbv beta iota. now rewrite IH.
  - unfold ret at 1. cbv beta iota. now rewrite IH.
Qed.

Lemma analyzePaymentPatterns_outcome (a : PaymentAgent) (w w1 : W)
  (ids : list Z) :
  getActivePaymentIds gw w = (Resolved ids, w1) ->
  exists w2,
    analyzePaymentPatterns gw (a, w)
    = (Normal tt, (a, w2),
       [Console LAnalyzing; Call ReqGetActivePaymentIds]
       ++ map (fun id => Call (ReqRecurringPayments id)) ids
       ++ [Console LPatternsHeader]
       ++ map (fun e => Console (LIntervalGroup (fst e) (len (snd e))))
            (JsObject.entries (grouped record ids []))
       ++ map (fun e => Console (LRecommendation (fst e)))
            (filter (fun e => 3 <? len (snd e))
               (JsObject.entries (grouped record ids [])))).
Proof.
  intros Hids.
  destruct (groupByInterval_outcome ids [] (a, w1)) as [w2 Hg].
  exists w2. unfold analyzePaymentPatterns, async, try_catch, bind, await.
  simpl. rewrite Hids. simpl. rewrite Hg.
  rewrite (for_of_console _
             (fun e : string * list Z => LIntervalGroup (fst e) (len (snd e)))).
  rewrite (for_of_console_if _ (fun e : string * list Z => 3 <? len (snd e))
             (fun e => LRecommendation (fst e))).
  reflexivity.
Qed.

Lemma grouped_entry (i : Z) (ids v : list Z) :
  In (toString i, v) (JsObject.entries (grouped record ids []))
  <-> v = payments_with_interval record i ids /\ v <> [].
Proof.
  rewrite In_entries. split.
  - intros H. apply object_In_get in H; [|apply grouped_wf; constructor].
    rewrite grouped_get in H. simpl in H.
    destruct (payments_with_interval record i ids); [discriminate|].
    injection H as <-. split; [reflexivity|discriminate].
  - intros [-> Hne]. apply object_get_In. rewrite grouped_get. simpl.
    destruct (payments_with_interval record i ids); congruence.
Qed.

Lemma len_pos_iff {X : Type} (l : list X) : 0 < len l <-> l <> [].
Proof.
  unfold len. destruct l; simpl; split.
  - lia.
  - congruence.
  - discriminate.
  - lia.
Qed.

(** X19. In an analysis tick whose reads of the contract succeed and return
    the records [record], the payments are grouped by interval: for every
    interval [i], the group of [i] is reported exactly when at least one
    active payment has that interval, with the number of those payments, and
    batch processing is recommended for [i] exactly when more than 3 active
    payments have it. *)
Theorem analysis_groups_by_interval (a : PaymentAgent) (w w1 : W)
  (ids : list Z) (i : Z)
  (Hids : getActivePaymentIds gw w = (Resolved ids, w1)) :
  (In (Console (LRecommendation (toString i)))
      (events_of (analyzePaymentPatterns gw (a, w)))
   <-> 3 < len (payments_with_interval record i ids))
  /\ (forall n,
        In (Console (LIntervalGroup (toString i) n))
           (events_of (analyzePaymentPatterns gw (a, w)))
        <-> n = len (payments_with_interval record i ids) /\ 0 < n).
Proof.
  destruct (analyzePaymentPatterns_outcome a w w1 ids Hids) as [w2 ->].
  unfold events_of. cbn [snd]. split; [|intros n].
  - split.
    + intros H. cbn [app In] in H.
      destruct H as [H|[H|H]]; try discriminate.
      apply in_app_or in H. destruct H as [H|H].
      { apply in_map_iff in H. destruct H as [x [Hx _]]. discriminate. }
      cbn [app In] in H. destruct H as [H|H]; [discriminate|].
      apply in_app_or in H. destruct H as [H|H].
      { apply in_map_iff in H. destruct H as [x [Hx _]]. discriminate. }
      apply in_map_iff in H. destruct H as [[k v] [Hk Hin]].
      apply filter_In in Hin. destruct Hin as [Hin Hbig].
      simpl in Hk, Hbig. injection Hk as ->.
      apply grouped_entry in Hin. destruct Hin as [<- _].
      now apply Z.ltb_lt.
    + intros H. cbn [app In]. right. right. apply in_or_app. right.
      cbn [app In]. right. apply in_or_app. right.
      apply in_map_iff.
      exists (toString i, payments_with_interval record i ids).
      split; [reflexivity|]. apply filter_In. split.
      * apply grouped_entry. split; [reflexivity|].
        apply len_pos_iff. lia.
      * simpl. now apply Z.ltb_lt.
  - split.
    + intros H. cbn [app In] in H.
      destruct H as [H|[H|H]]; try discriminate.
      apply in_app_or in H. destruct H as [H|H].
      { apply in_map_iff in H. destruct H as [x [Hx _]]. discriminate. }
      cbn [app In] in H. destruct H as [H|H]; [discriminate|].
      apply in_app_or in H. destruct H as [H|H].
      * apply in_map_iff in H. destruct H as [[k v] [Hk Hin]].
        simpl in Hk. injection Hk as -> <-.
        apply grouped_entry in Hin. destruct Hin as [<- Hne].
        split; [reflexivity|now apply len_pos_iff].
      * apply in_map_iff in H. destruct H as [x [Hx _]]. discriminate.
    + intros [-> Hpos]. cbn [app In]. right. right. apply in_or_app. right.
      cbn [app In]. right. apply in_or_app. left.
      apply in_map_iff.
      exists (toString i, payments_with_interval record i ids).
      split; [reflexivity|].
      apply grouped_entry. split; [reflexivity|now apply len_pos_iff].
Qed.

End Analysis.

Lemma analysis_groups_by_interval_witness :
  In (Console (LRecommendation "2592000"))
     (events_of (analyzePaymentPatterns Example3.payroll
                   (new_PaymentAgent, tt)))
  /\ ~ In (Console (LRecommendation "604800"))
         (events_of (analyzePaymentPatterns Example3.payroll
                       (new_PaymentAgent, tt))).
Proof.
  assert (Hreads : forall (id : Z) (w : unit), exists w',
             recurringPayments Example3.payroll id w
             = (Resolved (Example3.record id), w'))
    by (intros id w; exists w; reflexivity).
  split.
  - apply (proj1 (@analysis_groups_by_interval unit Example3.payroll
                    Example3.record Hreads new_PaymentAgent tt tt
                    [1; 2; 5; 3; 4] 2592000 eq_refl)).
    vm_compute. reflexivity.
  - intros H.
    apply (proj1 (@analysis_groups_by_interval unit Example3.payroll
                    Example3.record Hreads new_PaymentAgent tt tt
                    [1; 2; 5; 3; 4] 604800 eq_refl)) in H.
    vm_compute in H. discriminate.
Defined.

(** ** The guard of the scan tick *)

Section Guard.

Context {W : Type}.

Lemma guard_ret {A : Type} (a : A) : restores_guard (@ret W A a).
Proof. intros s. reflexivity. Qed.

Lemma guard_return {A : Type} : restores_guard (@return_ W A).
Proof. intros s. reflexivity. Qed.

Lemma guard_continue {A : Type} : restores_guard (@continue_ W A).
Proof. intros s. reflexivity. Qed.

Lemma guard_throw {A : Type} (e : Error) : restores_guard (@throw W A e).
Proof. intros s. reflexivity. Qed.

Lemma guard_console (l : Line) : restores_guard (@console W l).
Proof. intros s. reflexivity. Qed.

Lemma guard_this : restores_guard (@this W).
Proof. intros s. reflexivity. Qed.

Lemma guard_update (f : JsMap.t -> JsMap.t) :
  restores_guard (@update_retryQueue W f).
Proof. intros s. reflexivity. Qed.

Lemma guard_await {A : Type} (r : Request) (f : W -> result A * W) :
  restores_guard (await r f).
Proof.
  intros [a w]. unfold await, agent_of. simpl.
  destruct (f w) as [[x|e] w']; reflexivity.
Qed.

Lemma guard_lift_result {A : Type} (r : result A) :
  restores_guard (@lift_result W A r).
Proof. destruct r; intros s; reflexivity. Qed.

Lemma guard_bind {A B : Type} (m : M W A) (k : A -> M W B) :
  restores_guard m -> (forall a, restores_guard (k a)) ->
  restores_guard (bind m k).
Proof.
  intros Hm Hk s. specialize (Hm s). unfold bind, agent_of in *.
  destruct (m s) as [[c s1] ev1]. simpl in Hm.
  destruct c as [a| | |e]; simpl; auto.
  specialize (Hk a s1). unfold agent_of in Hk.
  destruct (k a s1) as [[c2 s2] ev2]. simpl in *. congruence.
Qed.

Lemma guard_try_catch {A : Type} (m : M W A) (h : Error -> M W A) :
  restores_guard m -> (forall e, restores_guard (h e)) ->
  restores_guard (try_catch m h).
Proof.
  intros Hm Hh s. specialize (Hm s). unfold try_catch, agent_of in *.
  destruct (m s) as [[c s1] ev1]. simpl in Hm.
  destruct c as [a| | |e]; simpl; auto.
  specialize (Hh e s1). unfold agent_of in Hh.
  destruct (h e s1) as [[c2 s2] ev2]. simpl in *. congruence.
Qed.

Lemma guard_async (m : M W unit) : restores_guard m -> restores_guard (async m).
Proof.
  intros Hm s. specialize (Hm s). unfold async, agent_of in *.
  destruct (m s) as [[c s1] ev1]. destruct c; exact Hm.
Qed.

Lemma guard_for_of {X : Type} (l : list X) (body : X -> M W unit) :
  (forall x, restores_guard (body x)) -> restores_guard (for_of l body).
Proof.
  intros Hb. induction l as [|x l IH]; intros s; [reflexivity|].
  specialize (Hb x s). simpl. unfold agent_of in *.
  destruct (body x s) as [[c s1] ev1]. simpl in Hb.
  destruct c as [a| | |e]; simpl; auto;
    specialize (IH s1); unfold agent_of in IH;
    destruct (for_of l body s1) as [[c2 s2] ev2]; simpl in *; congruence.
Qed.

Lemma guard_for_of_entries (l : list string)
  (body : string * Z -> M W unit) :
  (forall x, restores_guard (body x)) ->
  restores_guard (for_of_entries l body).
Proof.
  intros Hb. induction l as [|k l IH]; intros s; [reflexivity|].
  simpl. destruct (JsMap.get k (retryQueue (fst s))) as [v|]; [|apply IH].
  specialize (Hb (k, v) s). unfold agent_of in *.
  destruct (body (k, v) s) as [[c s1] ev1]. simpl in Hb.
  destruct c as [a| | |e]; simpl; auto;
    specialize (IH s1); unfold agent_of in IH;
    destruct (for_of_entries l body s1) as [[c2 s2] ev2]; simpl in *;
    congruence.
Qed.

Lemma guard_if {A : Type} (b : bool) (m1 m2 : M W A) :
  restores_guard m1 -> restores_guard m2 ->
  restores_guard (if b then m1 else m2).
Proof. destruct b; auto. Qed.

Lemma guard_leaves {A : Type} (m : M W A) :
  leaves_agent m -> restores_guard m.
Proof. intros H s. now rewrite H. Qed.

End Guard.

Create HintDb guard.
#[export] Hint Resolve guard_ret guard_return guard_continue guard_throw
  guard_console guard_this guard_update guard_await guard_lift_result
  guard_async guard_if : guard.

(** Walks through a method body that does not write [isProcessing]. *)
Ltac guard_step :=
  match goal with
  | |- restores_guard (bind _ _) => apply guard_bind; [|intro]
  | |- restores_guard (try_catch _ _) => apply guard_try_catch; [|intro]
  | |- restores_guard (async _) => apply guard_async
  | |- restores_guard (for_of _ _) => apply guard_for_of; intro
  | |- restores_guard (for_of_entries _ _) =>
      apply guard_for_of_entries; intro
  | |- restores_guard (if _ then _ else _) => apply guard_if
  | |- restores_guard (let _ := _ in _) => cbv zeta
  | |- restores_guard (match ?x with Some _ => _ | None => _ end) =>
      destruct x
  | |- restores_guard _ => solve [auto with guard]
  end.

Section GuardOfMethods.

Context {W : Type}.
Variable gw : Gateway W.
Variable formatEther : Z -> string.
Variable parseEther : string -> result Z.
Variable address : string.
Variable config : Config.

Lemma sendWebhook_guard (data : Webhook) :
  restores_guard (sendWebhook gw config data).
Proof. apply guard_leaves, sendWebhook_leaves. Qed.

Lemma timestamp_guard : restores_guard (timestamp gw).
Proof. intros s. reflexivity. Qed.

Lemma now_seconds_guard : restores_guard (now_seconds gw).
Proof. intros s. reflexivity. Qed.

Lemma toBigInt_guard (k : string) : restores_guard (@toBigInt W k).
Proof. unfold toBigInt. destruct (BigInt k); auto with guard. Qed.

Hint Resolve sendWebhook_guard timestamp_guard now_seconds_guard
  toBigInt_guard : guard.

Lemma processSinglePayment_guard (paymentId : Z) :
  restores_guard (processSinglePayment gw formatEther config paymentId).
Proof.
  unfold processSinglePayment, processSinglePayment_try,
    processSinglePayment_catch. repeat guard_step.
Qed.

Lemma processBatchPayments_guard (paymentIds : list Z) :
  restores_guard (processBatchPayments gw formatEther config paymentIds).
Proof.
  unfold processBatchPayments. repeat guard_step.
  apply processSinglePayment_guard.
Qed.

Lemma processRetryQueue_guard :
  restores_guard (processRetryQueue gw formatEther config).
Proof.
  unfold processRetryQueue. repeat guard_step.
  destruct x as [paymentId retryCount].
  unfold retryEntry, retryEntry_try, retryEntry_catch. repeat guard_step.
Qed.

Lemma scan_tick_restores_guard :
  restores_guard (checkAndProcessPayments gw formatEther config).
Proof.
  intros [a w]. destruct (isProcessing a) eqn:Hguard.
  - unfold checkAndProcessPayments.
    rewrite guarded_tick_skipped by exact Hguard. reflexivity.
  - simpl. rewrite Hguard.
    exact (proj2 (guarded_tick_released _ LErrorInCheck a w Hguard)).
Qed.

Lemma run_op_guard (o : Op) :
  restores_guard (run_op gw formatEther parseEther address config o).
Proof.
  destruct o; simpl.
  - apply scan_tick_restores_guard.
  - apply guard_leaves, checkBalance_leaves.
  - apply processRetryQueue_guard.
  - apply guard_leaves, analyzePaymentPatterns_leaves.
  - apply processSinglePayment_guard.
  - apply processBatchPayments_guard.
Qed.

End GuardOfMethods.

Section SkipLine.

Context {W : Type}.
Variable gw : Gateway W.
Variable formatEther : Z -> string.
Variable parseEther : string -> result Z.
Variable address : string.
Variable config : Config.

Lemma sendWebhook_no_skip_line (data : Webhook) :
  quiet is_skip_line (sendWebhook gw config data).
Proof. apply sendWebhook_emits; reflexivity. Qed.

Ltac no_skip_line :=
  repeat emits_step; try reflexivity;
  try apply timestamp_emits; try apply now_seconds_emits;
  try apply toBigInt_emits; try apply sendWebhook_no_skip_line.

Lemma processSinglePayment_no_skip_line (paymentId : Z) :
  quiet is_skip_line (processSinglePayment gw formatEther config paymentId).
Proof.
  unfold quiet, processSinglePayment, processSinglePayment_try,
    processSinglePayment_catch. no_skip_line.
Qed.

Lemma processBatchPayments_no_skip_line (paymentIds : list Z) :
  quiet is_skip_line (processBatchPayments gw formatEther config paymentIds).
Proof.
  unfold quiet, processBatchPayments. no_skip_line.
  apply processSinglePayment_no_skip_line.
Qed.

Lemma processRetryQueue_no_skip_line :
  quiet is_skip_line (processRetryQueue gw formatEther config).
Proof.
  unfold quiet, processRetryQueue. repeat emits_step; try reflexivity.
  destruct x as [paymentId retryCount].
  unfold retryEntry, retryEntry_try, retryEntry_catch. no_skip_line.
Qed.

Lemma checkPayments_no_skip_line (ids acc : list Z) :
  quiet is_skip_line (checkPayments gw config ids acc).
Proof.
  unfold quiet. revert acc. induction ids as [|id ids IH]; intros acc; simpl.
  - auto with emits.
  - apply emits_bind; [|intros acc'; apply IH].
    unfold checkPayment. no_skip_line.
Qed.

(** Entered with the guard free, the guarded function prints what its body
    and its handler print. *)
Lemma guarded_tick_events (P : Event -> Prop) (body : M W unit)
  (h : Error -> Line) (a : PaymentAgent) (w : W) :
  isProcessing a = false ->
  emits P body ->
  (forall e, P (Console (h e))) ->
  Forall P
    (events_of
       (async
          (a <- this ;;
           (if isProcessing a then console LAlreadyProcessing ;; return_
            else ret tt) ;;
           try_finally (try_catch body (fun e => console (h e)))
                       (set_isProcessing false)) (a, w))).
Proof.
  intros Hfree Hbody Hh. specialize (Hbody (a, w)).
  unfold async, bind, this, try_finally, try_catch, events_of in *.
  simpl. rewrite Hfree. simpl.
  destruct (body (a, w)) as [[c s1] ev1]. simpl in Hbody.
  destruct c as [u| | |e]; simpl; rewrite ?app_nil_r; auto.
  apply Forall_app. split; [exact Hbody|]. constructor; [apply Hh|constructor].
Qed.

Lemma checkAndProcessPayments_no_skip_line (a : PaymentAgent) (w : W) :
  isProcessing a = false ->
  Forall (fun e => is_skip_line e = false)
    (events_of (checkAndProcessPayments gw formatEther config (a, w))).
Proof.
  intros Hfree. unfold checkAndProcessPayments.
  apply guarded_tick_events; [exact Hfree| |reflexivity].
  unfold dispatch. no_skip_line.
  - apply checkPayments_no_skip_line.
  - apply processBatchPayments_no_skip_line.
  - apply processSinglePayment_no_skip_line.
Qed.

Lemma run_op_no_skip_line (o : Op) (s : St W) :
  isProcessing (fst s) = false ->
  Forall (fun e => is_skip_line e = false)
    (events_of (run_op gw formatEther parseEther address config o s)).
Proof.
  intros Hfree. destruct o; simpl.
  - destruct s as [a w]. now apply checkAndProcessPayments_no_skip_line.
  - unfold checkBalance, checkUpcoming.
    match goal with |- Forall _ (events_of (?m s)) =>
      enough (H : quiet is_skip_line m) by apply H end.
    unfold quiet. no_skip_line.
  - apply processRetryQueue_no_skip_line.
  - match goal with |- Forall _ (events_of (?m s)) =>
      enough (H : quiet is_skip_line m) by apply H end.
    unfold quiet, analyzePaymentPatterns. repeat emits_step; try reflexivity.
    apply groupByInterval_quiet. reflexivity.
  - apply processSinglePayment_no_skip_line.
  - apply processBatchPayments_no_skip_line.
Qed.

End SkipLine.

(** X20.  Every method ends with the guard [isProcessing] as it found it,
    whatever the outside answers: the scan tick, the only writer of the
    field, clears it in its [finally] block when it had set it, and leaves
    it set when it found it set. *)
Theorem every_method_restores_guard :
  forall (W : Type) (gw : Gateway W) (formatEther : Z -> string)
         (parseEther : string -> result Z) (address : string)
         (config : Config) (o : Op) (s : St W),
    isProcessing
      (agent_of (run_op gw formatEther parseEther address config o s))
    = isProcessing (fst s).
Proof. intros. apply run_op_guard. Qed.

(** X21.  When the methods run one after the other from a state with the
    guard free, the guard is free at the end and no scan tick is skipped:
    the line of the skipped tick is never printed. *)
Theorem sequential_ticks_never_skipped :
  forall (W : Type) (gw : Gateway W) (formatEther : Z -> string)
         (parseEther : string -> result Z) (address : string)
         (config : Config) (l : list Op) (s : St W),
    isProcessing (fst s) = false ->
    isProcessing
      (fst (fst (run_ops gw formatEther parseEther address config l s)))
    = false
    /\ existsb is_skip_line
         (snd (run_ops gw formatEther parseEther address config l s))
       = false.
Proof.
  intros W gw formatEther parseEther address config l.
  induction l as [|o l IH]; intros s Hfree; [split; [exact Hfree|reflexivity]|].
  simpl.
  pose proof (run_op_guard gw formatEther parseEther address config o s)
    as Hg.
  pose proof (run_op_no_skip_line gw formatEther parseEther address config
                o s Hfree) as Hq.
  unfold agent_of, events_of in Hg, Hq.
  destruct (run_op gw formatEther parseEther address config o s)
    as [[c s1] ev1].
  simpl in Hg, Hq. rewrite Hfree in Hg. specialize (IH s1 Hg).
  destruct (run_ops gw formatEther parseEther address config l s1)
    as [s2 ev2].
  simpl in *. destruct IH as [IH1 IH2]. split; [exact IH1|].
  rewrite existsb_app, IH2, Bool.orb_false_r.
  clear -Hq. induction Hq as [|e ev He Hev IHev]; [reflexivity|].
  simpl. now rewrite He.
Qed.

Lemma sequential_ticks_never_skipped_witness :
  existsb is_skip_line
    (snd (run_ops Scenario.submission_fails Scenario.format_wei
            Scenario.parse_wei Scenario.wallet Scenario.config_default
            [ScanTick; RetryTick; ScanTick] (new_PaymentAgent, tt)))
  = false.
Proof.
  apply (proj2 (sequential_ticks_never_skipped unit Scenario.submission_fails
                  Scenario.format_wei Scenario.parse_wei Scenario.wallet
                  Scenario.config_default [ScanTick; RetryTick; ScanTick]
                  (new_PaymentAgent, tt) eq_refl)).
Defined.

(** ** The wallet key and the configuration *)

Lemma startsWith_0x (k : string) :
  startsWith k "0x" = true <-> exists rest, k = ("0x" ++ rest)%string.
Proof.
  unfold startsWith. split.
  - destruct k as [|c1 [|c2 rest]]; cbn [String.prefix]; try discriminate.
    + destruct (ascii_dec "0" c1); discriminate.
    + destruct (ascii_dec "0" c1) as [<-|]; [|discriminate].
      destruct (ascii_dec "x" c2) as [<-|]; [|discriminate].
      intros _. exists rest. reflexivity.
  - intros [rest ->]. cbn [String.prefix String.append].
    destruct (ascii_dec "0" "0"); [|contradiction].
    destruct (ascii_dec "x" "x"); [|contradiction].
    now destruct rest.
Qed.

Lemma or_default_empty (v : option string) :
  or_default v EmptyString = EmptyString
  <-> v = None \/ v = Some EmptyString.
Proof.
  unfold or_default. destruct v as [s|]; [|intuition].
  destruct (truthy s) eqn:Ht.
  - split.
    + intros ->. discriminate.
    + intros [H|H]; [discriminate|]. injection H as ->. discriminate.
  - apply truthy_false in Ht. subst s. intuition.
Qed.

(** X22.  The key the constructor hands to the wallet always starts with
    [0x]; normalising is idempotent and changes exactly the keys that lack
    the prefix.  When [AGENT_PRIVATE_KEY] is unset, empty or the bare
    prefix, and only then, the wallet is created from the bare prefix. *)
Theorem wallet_key_normalised :
  forall (parseInt : string -> option Z) (parseFloat : string -> spec_float)
         (env : string -> option string) (k : string),
    startsWith (fixedKey k) "0x" = true
    /\ fixedKey (fixedKey k) = fixedKey k
    /\ (fixedKey k = k <-> startsWith k "0x" = true)
    /\ (fixedKey (privateKey (config_ts parseInt parseFloat env)) = "0x"
        <-> env "AGENT_PRIVATE_KEY" = None
            \/ env "AGENT_PRIVATE_KEY" = Some EmptyString
            \/ env "AGENT_PRIVATE_KEY" = Some "0x").
Proof.
  intros parseInt parseFloat env k.
  assert (Hpre : forall k', startsWith (fixedKey k') "0x" = true).
  { intros k'. unfold fixedKey. destruct (startsWith k' "0x") eqn:E.
    - exact E.
    - apply startsWith_0x. now exists k'. }
  split; [apply Hpre|]. split; [|split].
  - unfold fixedKey at 1. now rewrite Hpre.
  - split.
    + intros <-. apply Hpre.
    + intros H. unfold fixedKey. now rewrite H.
  - simpl. split.
    + unfold fixedKey.
      destruct (startsWith (or_default (env "AGENT_PRIVATE_KEY") EmptyString)
                  "0x") eqn:E.
      * unfold or_default. destruct (env "AGENT_PRIVATE_KEY") as [s|].
        -- destruct (truthy s); [|discriminate]. intros ->. auto.
        -- discriminate.
      * intros H. injection H as H. apply or_default_empty in H.
        destruct H as [H|H]; auto.
    + intros [H|[H|H]]; rewrite H; reflexivity.
Qed.

Section ConfigAndAgent.

Context {W : Type}.
Variable gw : Gateway W.
Variable formatEther : Z -> string.
Variable parseEther : string -> result Z.
Variable address : string.
Variable parseInt : string -> option Z.
Variable parseFloat : string -> spec_float.

(** X23.  The agent posts notifications only when [WEBHOOK_URL] is set to a
    non-empty string: when the variable is unset or empty, no sequence of
    the methods issues a post, and otherwise the posts of [sendWebhook] go
    to the value of the variable. *)
Theorem notifications_need_WEBHOOK_URL :
  forall (env : string -> option string),
    (env "WEBHOOK_URL" = None \/ env "WEBHOOK_URL" = Some EmptyString ->
     forall l s,
       existsb is_post
         (snd (run_ops gw formatEther parseEther address
                 (config_ts parseInt parseFloat env) l s)) = false)
    /\ (forall url data s,
          env "WEBHOOK_URL" = Some url -> url <> EmptyString ->
          In (Call (ReqAxiosPost url data))
             (events_of
                (sendWebhook gw (config_ts parseInt parseFloat env) data s))).
Proof.
  intros env. split.
  - intros Hunset l s. apply run_ops_no_post. simpl.
    now apply or_default_empty.
  - intros url data s Hurl Hne.
    assert (Ht : truthy url = true).
    { destruct (truthy url) eqn:E; [reflexivity|].
      apply truthy_false in E. contradiction. }
    destruct (sendWebhook_posts gw (config_ts parseInt parseFloat env) data s)
      as [l Hl].
    + simpl. rewrite Hurl. simpl. now rewrite Ht.
    + rewrite Hl. simpl. rewrite Hurl. simpl. rewrite Ht. now left.
Qed.

End ConfigAndAgent.

Lemma notifications_need_WEBHOOK_URL_witness :
  existsb is_post
    (snd (run_ops Scenario.healthy Scenario.format_wei Scenario.parse_wei
            Scenario.wallet
            (config_ts (fun _ => Some 3) (fun _ => S754_zero false)
               (fun _ => None))
            [ScanTick; BalanceTick; RetryTick] (new_PaymentAgent, tt)))
  = false.
Proof.
  apply (proj1 (@notifications_need_WEBHOOK_URL unit Scenario.healthy
                  Scenario.format_wei Scenario.parse_wei Scenario.wallet
                  (fun _ => Some 3) (fun _ => S754_zero false)
                  (fun _ => None))).
  left. reflexivity.
Defined.

(** ** The webhook server *)

Section Server.

Import WebhookServer.

Context {B : Type}.
Variable type_of : B -> JsValue.
Variable paymentId_of : B -> JsValue.
Variable message_of : B -> JsValue.

Lemma report_not_log (webhookData : B) :
  match report type_of paymentId_of message_of webhookData with
  | OLogEvent _ => true
  | _ => false
  end = false.
Proof.
  unfold report. destruct (type_of webhookData) as [|t|]; try reflexivity.
  destruct (t =? "success")%string; [reflexivity|].
  destruct (t =? "warning")%string; [reflexivity|].
  destruct (t =? "error")%string; reflexivity.
Qed.

(** X24.  The endpoint answers 401 exactly when the JSON middleware lets
    the request through and the request carries a key that is a non-empty
    string other than the secret, or not a string.  It answers 200 exactly
    when the body was parsed and the key is absent, empty or the secret,
    whatever the secret is; then, and only then, the body is logged, once.
    A body refused by the middleware is answered with the status of the
    refusal (400 for text that is not JSON) whatever the key, and a request
    that passes the key check with [req.body] undefined with 500; in both
    cases, as for 401, the handler prints and logs nothing. *)
Theorem webhook_endpoint_checks_only_present_keys :
  forall (WEBHOOK_SECRET : string) (requestSecret : QueryValue)
         (body : RequestBody B),
    (status (snd (post_webhook type_of paymentId_of message_of WEBHOOK_SECRET
                    requestSecret body)) = 401
     <-> (forall e, body <> Refused e)
         /\ (requestSecret = QNested
             \/ exists s, requestSecret = QString s /\ s <> EmptyString
                          /\ s <> WEBHOOK_SECRET))
    /\ (status (snd (post_webhook type_of paymentId_of message_of
                       WEBHOOK_SECRET requestSecret body)) = 200
        <-> (exists webhookData, body = Parsed webhookData)
            /\ (requestSecret = QAbsent
                \/ requestSecret = QString EmptyString
                \/ requestSecret = QString WEBHOOK_SECRET))
    /\ (forall webhookData,
          body = Parsed webhookData ->
          status (snd (post_webhook type_of paymentId_of message_of
                         WEBHOOK_SECRET requestSecret body)) = 200 ->
          post_webhook type_of paymentId_of message_of WEBHOOK_SECRET
            requestSecret body
          = ([OReceived (type_of webhookData); OLogEvent webhookData;
              report type_of paymentId_of message_of webhookData],
             {| status := 200; json := Received |}))
    /\ (status (snd (post_webhook type_of paymentId_of message_of
                       WEBHOOK_SECRET requestSecret body)) <> 200 ->
        fst (post_webhook type_of paymentId_of message_of WEBHOOK_SECRET
               requestSecret body) = [])
    /\ (forall e,
          body = Refused e ->
          post_webhook type_of paymentId_of message_of WEBHOOK_SECRET
            requestSecret body
          = ([], {| status := refusal_status e; json := ErrorPage |}))
    /\ (body = NotParsed ->
        status (snd (post_webhook type_of paymentId_of message_of
                       WEBHOOK_SECRET requestSecret body)) = 401
        \/ post_webhook type_of paymentId_of message_of WEBHOOK_SECRET
             requestSecret body
           = ([], {| status := 500; json := ErrorPage |}))
    /\ List.length
         (filter (fun o => match o with OLogEvent _ => true | _ => false end)
            (fst (post_webhook type_of paymentId_of message_of WEBHOOK_SECRET
                    requestSecret body)))
       = (if status (snd (post_webhook type_of paymentId_of message_of
                            WEBHOOK_SECRET requestSecret body))
             =? 200
          then 1%nat else 0%nat).
Proof.
  intros secret key body.
  assert (Hkey : truthy_query key && differs key secret = true
                 <-> key = QNested
                     \/ exists s, key = QString s /\ s <> EmptyString
                                  /\ s <> secret).
  { destruct key as [|s|]; simpl.
    - split; [discriminate|]. intros [H|[s [H _]]]; discriminate.
    - destruct (truthy s) eqn:Ht; simpl.
      + destruct (String.eqb_spec s secret) as [->|Hne]; simpl.
        * split; [discriminate|].
          intros [H|[s [H [_ Hs]]]]; [discriminate|]. injection H as <-.
          contradiction.
        * split; [|reflexivity]. intros _. right. exists s.
          split; [reflexivity|]. split; [|exact Hne].
          intros ->. discriminate.
      + apply truthy_false in Ht. subst s.
        split; [discriminate|].
        intros [H|[s [H [Hs _]]]]; [discriminate|]. injection H as <-.
        contradiction.
    - split; [|reflexivity]. intros _. now left. }
  assert (Hpass : truthy_query key && differs key secret = false
                  <-> key = QAbsent \/ key = QString EmptyString
                      \/ key = QString secret).
  { destruct key as [|s|]; simpl.
    - split; auto.
    - destruct (truthy s) eqn:Ht; simpl.
      + destruct (String.eqb_spec s secret) as [->|Hne]; simpl.
        * split; auto.
        * split; [discriminate|].
          intros [H|[H|H]]; try discriminate.
          -- injection H as ->. discriminate.
          -- injection H as ->. contradiction.
      + apply truthy_false in Ht. subst s. split; auto.
    - split; [discriminate|]. intros [H|[H|H]]; discriminate. }
  unfold post_webhook, handler.
  destruct body as [e| |d]; simpl.
  - refine (conj _ (conj _ (conj _ (conj _ (conj _ (conj _ _)))))).
    + split; [destruct e; discriminate|].
      intros [Hno _]. destruct (Hno e eq_refl).
    + split; [destruct e; discriminate|]. intros [[d H] _]. discriminate.
    + intros d H. discriminate.
    + reflexivity.
    + intros e' H. now injection H as <-.
    + discriminate.
    + destruct e; reflexivity.
  - destruct (truthy_query key && differs key secret) eqn:Hc; simpl.
    + refine (conj _ (conj _ (conj _ (conj _ (conj _ (conj _ _)))))).
      * split; [|reflexivity]. intros _. split; [discriminate|].
        now apply Hkey.
      * split; [discriminate|]. intros [[d H] _]. discriminate.
      * intros d H. discriminate.
      * reflexivity.
      * intros e H. discriminate.
      * intros _. now left.
      * reflexivity.
    + refine (conj _ (conj _ (conj _ (conj _ (conj _ (conj _ _)))))).
      * split; [discriminate|]. intros [_ H]. apply Hkey in H. congruence.
      * split; [discriminate|]. intros [[d H] _]. discriminate.
      * intros d H. discriminate.
      * reflexivity.
      * intros e H. discriminate.
      * intros _. now right.
      * reflexivity.
  - pose proof (report_not_log d) as Hrep.
    destruct (truthy_query key && differs key secret) eqn:Hc; simpl.
    + refine (conj _ (conj _ (conj _ (conj _ (conj _ (conj _ _)))))).
      * split; [|reflexivity]. intros _. split; [discriminate|].
        now apply Hkey.
      * split; [discriminate|]. intros [_ H]. apply Hpass in H. congruence.
      * intros d' _ H. discriminate.
      * reflexivity.
      * intros e H. discriminate.
      * discriminate.
      * reflexivity.
    + rewrite Hrep.
      refine (conj _ (conj _ (conj _ (conj _ (conj _ (conj _ _)))))).
      * split; [discriminate|]. intros [_ H]. apply Hkey in H. congruence.
      * split; [|reflexivity]. intros _. split; [now exists d|].
        now apply Hpass.
      * intros d' H _. now injection H as <-.
      * intros H. now destruct H.
      * intros e H. discriminate.
      * discriminate.
      * reflexivity.
Qed.

End Server.

Section AgentAndServer.

Import WebhookServer.

Variable message_of : Webhook -> JsValue.

(** X25.  A notification of the agent that reaches the endpoint, is parsed
    by the JSON middleware and comes without a key or with the secret as
    key is answered 200, logged, and reported by
    its [type]: a success as a processed payment with the [paymentId] of
    the notification, a warning or an error by its message, the
    [Processing Payment] notification, of type [info], by its type alone.
    The payment reported is undefined exactly for the notification of a
    batch, which carries [paymentIds] instead. *)
Theorem agent_notifications_at_the_endpoint :
  forall (WEBHOOK_SECRET : string) (requestSecret : QueryValue) (d : Webhook),
    requestSecret = QAbsent \/ requestSecret = QString WEBHOOK_SECRET ->
    post_webhook webhook_type_of webhook_paymentId message_of WEBHOOK_SECRET
      requestSecret (Parsed d)
    = ([OReceived (VString (type_name (webhook_type d))); OLogEvent d;
        match webhook_type d with
        | success => OPaymentProcessed (webhook_paymentId d)
        | warning => OWarning (message_of d)
        | error => OError (message_of d)
        | info => OEventType (VString "info")
        end],
       {| status := 200; json := Received |})
    /\ (report webhook_type_of webhook_paymentId message_of d
        = OPaymentProcessed VUndefined
        <-> exists paymentIds transactionHash timestamp,
              d = BatchPaymentsProcessed paymentIds transactionHash timestamp).
Proof.
  intros secret key d Hkey. split.
  - assert (Hpass : truthy_query key && differs key secret = false).
    { destruct Hkey as [->| ->]; [reflexivity|]. simpl.
      rewrite String.eqb_refl. apply Bool.andb_false_r. }
    unfold post_webhook, handler. simpl. rewrite Hpass.
    unfold report, webhook_type_of.
    destruct d; reflexivity.
  - split.
    + unfold report, webhook_type_of. destruct d; simpl; try discriminate.
      intros _. eauto.
    + intros [ids [h [ts ->]]]. reflexivity.
Qed.

End AgentAndServer.

Lemma agent_notifications_at_the_endpoint_witness :
  fst (WebhookServer.post_webhook
         WebhookServer.webhook_type_of WebhookServer.webhook_paymentId
         (fun _ => WebhookServer.VString "Successfully processed 4 payments in a batch.")
         "s3cret" (WebhookServer.QString "s3cret")
         (WebhookServer.Parsed
            (BatchPaymentsProcessed ["1"; "2"; "3"; "4"] "0x7c1"
               1700000000000)))
  = [WebhookServer.OReceived (WebhookServer.VString "success");
     WebhookServer.OLogEvent
       (BatchPaymentsProcessed ["1"; "2"; "3"; "4"] "0x7c1" 1700000000000);
     WebhookServer.OPaymentProcessed WebhookServer.VUndefined].
Proof.
  exact (f_equal fst
           (proj1 (agent_notifications_at_the_endpoint
                     (fun _ => WebhookServer.VString
                        "Successfully processed 4 payments in a batch.")
                     "s3cret" (WebhookServer.QString "s3cret")
                     (BatchPaymentsProcessed ["1"; "2"; "3"; "4"] "0x7c1"
                        1700000000000)
                     (or_intror eq_refl)))).
Defined.

(** ** Observed runs *)

Section Observation.

Context {W : Type}.

Lemma requests_app (ev1 ev2 : list Event) :
  requests (ev1 ++ ev2) = requests ev1 ++ requests ev2.
Proof.
  induction ev1 as [|e ev1 IH]; [reflexivity|].
  destruct e as [r|l]; simpl; now rewrite IH.
Qed.

(** Undisturbed, the observed run is the run of the computation itself. *)
Lemma observe_forget {A : Type} {m : M W A} (p : Prog A m) :
  forall s : St (Observed W),
    forget (observe (fun s0 => s0) p s) = m (fst s, fst (snd s)).
Proof.
  induction p as [A m Hm|A r f|A B m k p IHp q IHq|A m h p IHp q IHq
                 |A m f p IHp q IHq|X l body q IHq|m p IHp];
    intros s; simpl.
  - unfold step_observed. destruct s as [a [w seen0]]. simpl.
    destruct (m (a, w)) as [[c [a1 w1]] ev1]. reflexivity.
  - unfold await_observed, await. destruct s as [a [w seen0]]. simpl.
    destruct (f w) as [[x|e] w1]; reflexivity.
  - unfold bind. specialize (IHp s).
    destruct (observe (fun s0 => s0) p s) as [[c s1] ev1].
    destruct c as [x| | |e];
      try (destruct s1 as [a1 [w1 seen1]]; simpl in *; rewrite <- IHp;
           reflexivity).
    specialize (IHq x s1).
    destruct (observe (fun s0 => s0) (q x) s1) as [[c2 s2] ev2].
    destruct s1 as [a1 [w1 seen1]], s2 as [a2 [w2 seen2]]. simpl in *.
    rewrite <- IHp, <- IHq. reflexivity.
  - unfold try_catch. specialize (IHp s).
    destruct (observe (fun s0 => s0) p s) as [[c s1] ev1].
    destruct c as [x| | |e];
      try (destruct s1 as [a1 [w1 seen1]]; simpl in *; rewrite <- IHp;
           reflexivity).
    specialize (IHq e s1).
    destruct (observe (fun s0 => s0) (q e) s1) as [[c2 s2] ev2].
    destruct s1 as [a1 [w1 seen1]], s2 as [a2 [w2 seen2]]. simpl in *.
    rewrite <- IHp, <- IHq. reflexivity.
  - unfold try_finally. specialize (IHp s).
    destruct (observe (fun s0 => s0) p s) as [[c s1] ev1].
    specialize (IHq s1).
    destruct (observe (fun s0 => s0) q s1) as [[c2 s2] ev2].
    destruct s1 as [a1 [w1 seen1]], s2 as [a2 [w2 seen2]]. simpl in *.
    rewrite <- IHp, <- IHq. destruct c2 as [x| | |e]; reflexivity.
  - revert s. induction l as [|x l IHl]; intros s.
    + destruct s as [a [w seen0]]. reflexivity.
    + simpl. specialize (IHq x s).
      destruct (observe (fun s0 => s0) (q x) s) as [[c s1] ev1].
      specialize (IHl s1).
      destruct (for_of l (fun x0 => observe (fun s0 => s0) (q x0)) s1)
        as [[c2 s2] ev2].
      destruct s1 as [a1 [w1 seen1]], s2 as [a2 [w2 seen2]]. simpl in *.
      rewrite <- IHq.
      destruct c as [u| | |e]; try reflexivity; rewrite <- IHl; reflexivity.
  - unfold async. specialize (IHp s).
    destruct (observe (fun s0 => s0) p s) as [[c s1] ev1].
    destruct s1 as [a1 [w1 seen1]]. simpl in *. rewrite <- IHp.
    destruct c as [x| | |e]; reflexivity.
Qed.

End Observation.

Section ObservationFacts.

Context {W : Type}.
Variable interference : St W -> St W.

(** The observer records one entry per request, in the order of the
    requests. *)
Lemma observe_requests {A : Type} {m : M W A} (p : Prog A m) :
  forall s : St (Observed W),
  exists new,
    seen (observe interference p s) = snd (snd s) ++ new
    /\ map fst new = requests (events_of (observe interference p s)).
Proof.
  unfold seen, events_of.
  induction p as [A m Hm|A r f|A B m k p IHp q IHq|A m h p IHp q IHq
                 |A m f p IHp q IHq|X l body q IHq|m p IHp];
    intros s; simpl.
  - exists []. unfold step_observed. specialize (Hm (fst s, fst (snd s))).
    unfold events_of in Hm.
    destruct (m (fst s, fst (snd s))) as [[c [a1 w1]] ev1]. simpl in *.
    rewrite app_nil_r. split; [reflexivity|]. now rewrite Hm.
  - exists [(r, fst s)]. unfold await_observed.
    destruct (f (fst (snd s))) as [res w1].
    destruct (interference (fst s, w1)) as [a1 w2].
    destruct res as [x|e]; split; reflexivity.
  - unfold bind. destruct (IHp s) as [new1 [Hs1 Hr1]].
    destruct (observe interference p s) as [[c s1] ev1]. simpl in *.
    destruct c as [x| | |e]; try (exists new1; split; assumption).
    destruct (IHq x s1) as [new2 [Hs2 Hr2]].
    destruct (observe interference (q x) s1) as [[c2 s2] ev2]. simpl in *.
    exists (new1 ++ new2). split.
    + now rewrite Hs2, Hs1, app_assoc.
    + now rewrite map_app, requests_app, Hr1, Hr2.
  - unfold try_catch. destruct (IHp s) as [new1 [Hs1 Hr1]].
    destruct (observe interference p s) as [[c s1] ev1]. simpl in *.
    destruct c as [x| | |e]; try (exists new1; split; assumption).
    destruct (IHq e s1) as [new2 [Hs2 Hr2]].
    destruct (observe interference (q e) s1) as [[c2 s2] ev2]. simpl in *.
    exists (new1 ++ new2). split.
    + now rewrite Hs2, Hs1, app_assoc.
    + now rewrite map_app, requests_app, Hr1, Hr2.
  - unfold try_finally. destruct (IHp s) as [new1 [Hs1 Hr1]].
    destruct (observe interference p s) as [[c s1] ev1]. simpl in *.
    destruct (IHq s1) as [new2 [Hs2 Hr2]].
    destruct (observe interference q s1) as [[c2 s2] ev2]. simpl in *.
    exists (new1 ++ new2).
    destruct c2 as [x| | |e]; simpl; split;
      try (now rewrite Hs2, Hs1, app_assoc);
      now rewrite map_app, requests_app, Hr1, Hr2.
  - revert s. induction l as [|x l IHl]; intros s.
    + exists []. simpl. now rewrite app_nil_r.
    + simpl. destruct (IHq x s) as [new1 [Hs1 Hr1]].
      destruct (observe interference (q x) s) as [[c s1] ev1]. simpl in *.
      destruct (IHl s1) as [new2 [Hs2 Hr2]].
      destruct (for_of l (fun x0 => observe interference (q x0)) s1)
        as [[c2 s2] ev2].
      simpl in *.
      destruct c as [u| | |e]; simpl;
        try (exists new1; split; assumption);
        (exists (new1 ++ new2); split;
         [now rewrite Hs2, Hs1, app_assoc
         |now rewrite map_app, requests_app, Hr1, Hr2]).
  - unfold async. destruct (IHp s) as [new1 [Hs1 Hr1]].
    destruct (observe interference p s) as [[c s1] ev1]. simpl in *.
    exists new1. destruct c as [x| | |e]; split; assumption.
Qed.

Hypothesis interference_keeps_guard :
  forall s, isProcessing (fst (interference s)) = isProcessing (fst s).

(** Entered with the guard set, a computation none of whose steps clears
    it reaches each of its awaits, and its end, with the guard set. *)
Lemma observe_guard {A : Type} {m : M W A} (p : Prog A m) :
  steps_keep_guard p ->
  forall s : St (Observed W),
    isProcessing (fst s) = true ->
    isProcessing (agent_of (observe interference p s)) = true
    /\ exists new,
         seen (observe interference p s) = snd (snd s) ++ new
         /\ Forall (fun e => isProcessing (snd e) = true) new.
Proof.
  unfold seen, agent_of.
  induction p as [A m Hm|A r f|A B m k p IHp q IHq|A m h p IHp q IHq
                 |A m f p IHp q IHq|X l body q IHq|m p IHp];
    simpl; intros Hsteps s Hset.
  - unfold step_observed. specialize (Hsteps (fst s, fst (snd s)) Hset).
    unfold agent_of in Hsteps.
    destruct (m (fst s, fst (snd s))) as [[c [a1 w1]] ev1]. simpl in *.
    split; [exact Hsteps|]. exists []. now rewrite app_nil_r.
  - unfold await_observed.
    destruct (f (fst (snd s))) as [res w1].
    pose proof (interference_keeps_guard (fst s, w1)) as Hk.
    destruct (interference (fst s, w1)) as [a1 w2]. simpl in Hk.
    destruct res as [x|e]; simpl; (split; [congruence|]);
      exists [(r, fst s)]; (split; [reflexivity|]);
      constructor; [exact Hset|constructor|exact Hset|constructor].
  - destruct Hsteps as [Hp Hq]. unfold bind.
    destruct (IHp Hp s Hset) as [Hg1 [new1 [Hs1 Hf1]]].
    destruct (observe interference p s) as [[c s1] ev1]. simpl in *.
    destruct c as [x| | |e];
      try (split; [exact Hg1|]; exists new1; split; assumption).
    destruct (IHq x (Hq x) s1 Hg1) as [Hg2 [new2 [Hs2 Hf2]]].
    destruct (observe interference (q x) s1) as [[c2 s2] ev2]. simpl in *.
    split; [exact Hg2|]. exists (new1 ++ new2). split.
    + now rewrite Hs2, Hs1, app_assoc.
    + apply Forall_app. now split.
  - destruct Hsteps as [Hp Hq]. unfold try_catch.
    destruct (IHp Hp s Hset) as [Hg1 [new1 [Hs1 Hf1]]].
    destruct (observe interference p s) as [[c s1] ev1]. simpl in *.
    destruct c as [x| | |e];
      try (split; [exact Hg1|]; exists new1; split; assumption).
    destruct (IHq e (Hq e) s1 Hg1) as [Hg2 [new2 [Hs2 Hf2]]].
    destruct (observe interference (q e) s1) as [[c2 s2] ev2]. simpl in *.
    split; [exact Hg2|]. exists (new1 ++ new2). split.
    + now rewrite Hs2, Hs1, app_assoc.
    + apply Forall_app. now split.
  - destruct Hsteps as [Hp Hq]. unfold try_finally.
    destruct (IHp Hp s Hset) as [Hg1 [new1 [Hs1 Hf1]]].
    destruct (observe interference p s) as [[c s1] ev1]. simpl in *.
    destruct (IHq Hq s1 Hg1) as [Hg2 [new2 [Hs2 Hf2]]].
    destruct (observe interference q s1) as [[c2 s2] ev2]. simpl in *.
    destruct c2 as [x| | |e]; simpl; (split; [exact Hg2|]);
      exists (new1 ++ new2);
      (split; [now rewrite Hs2, Hs1, app_assoc|apply Forall_app; now split]).
  - revert s Hset. induction l as [|x l IHl]; intros s Hset.
    + simpl. split; [exact Hset|]. exists []. now rewrite app_nil_r.
    + simpl.
      destruct (IHq x (Hsteps x) s Hset) as [Hg1 [new1 [Hs1 Hf1]]].
      destruct (observe interference (q x) s) as [[c s1] ev1]. simpl in *.
      destruct (IHl s1 Hg1) as [Hg2 [new2 [Hs2 Hf2]]].
      destruct (for_of l (fun x0 => observe interference (q x0)) s1)
        as [[c2 s2] ev2].
      simpl in *.
      destruct c as [u| | |e]; simpl;
        try (split; [exact Hg1|]; exists new1; split; assumption);
        (split; [exact Hg2|]; exists (new1 ++ new2);
         split; [now rewrite Hs2, Hs1, app_assoc|apply Forall_app; now split]).
  - unfold async.
    destruct (IHp Hsteps s Hset) as [Hg1 [new1 [Hs1 Hf1]]].
    destruct (observe interference p s) as [[c s1] ev1]. simpl in *.
    destruct c as [x| | |e]; (split; [exact Hg1|]); exists new1;
      split; assumption.
Qed.

End ObservationFacts.

(** ** Marking the methods reached from a scan tick *)

Section MarkedCombinators.

Context {W : Type}.

Lemma marked_sync {A : Type} (m : M W A) :
  synchronous m ->
  (forall s, isProcessing (fst s) = true ->
             isProcessing (agent_of (m s)) = true) ->
  Marked m.
Proof. intros Hs Hg. exists (PStep A m Hs). exact Hg. Qed.

Lemma marked_await {A : Type} (r : Request) (f : W -> result A * W) :
  Marked (await r f).
Proof. exists (PAwait A r f). exact I. Qed.

Lemma marked_bind {A B : Type} (m : M W A) (k : A -> M W B) :
  Marked m -> (forall a, Marked (k a)) -> Marked (bind m k).
Proof.
  intros [p Hp] Hk.
  exists (PBind A B m k p (fun a => proj1_sig (Hk a))).
  split; [exact Hp|]. intros a. exact (proj2_sig (Hk a)).
Qed.

Lemma marked_try_catch {A : Type} (m : M W A) (h : Error -> M W A) :
  Marked m -> (forall e, Marked (h e)) -> Marked (try_catch m h).
Proof.
  intros [p Hp] Hh.
  exists (PTryCatch A m h p (fun e => proj1_sig (Hh e))).
  split; [exact Hp|]. intros e. exact (proj2_sig (Hh e)).
Qed.

Lemma marked_for_of {X : Type} (l : list X) (body : X -> M W unit) :
  (forall x, Marked (body x)) -> Marked (for_of l body).
Proof.
  intros Hb. exists (PForOf X l body (fun x => proj1_sig (Hb x))).
  intros x. exact (proj2_sig (Hb x)).
Qed.

Lemma marked_async (m : M W unit) : Marked m -> Marked (async m).
Proof. intros [p Hp]. exists (PAsync m p). exact Hp. Qed.

End MarkedCombinators.

(** Walks through a method body, marking its awaits. *)
Ltac marked_step :=
  match goal with
  | |- Marked (bind _ _) => apply marked_bind; [|intro; cbv beta]
  | |- Marked (try_catch _ _) => apply marked_try_catch; [|intro; cbv beta]
  | |- Marked (async _) => apply marked_async
  | |- Marked (for_of _ _) => apply marked_for_of; intro; cbv beta
  | |- Marked (await _ _) => apply marked_await
  | |- Marked (if ?b then _ else _) => destruct b
  | |- Marked (let _ := _ in _) => cbv zeta
  | |- Marked _ =>
      apply marked_sync;
      [intros ?; reflexivity
      |let H := fresh in intros ? H; exact H]
  end.

Section MarkedMethods.

Context {W : Type}.
Variable gw : Gateway W.
Variable formatEther : Z -> string.
Variable config : Config.

Lemma sendWebhook_marked (data : Webhook) :
  Marked (sendWebhook gw config data).
Proof. unfold sendWebhook. repeat marked_step. Qed.

Lemma processSinglePayment_marked (paymentId : Z) :
  Marked (processSinglePayment gw formatEther config paymentId).
Proof.
  unfold processSinglePayment, processSinglePayment_try,
    processSinglePayment_catch.
  repeat first [marked_step | apply sendWebhook_marked].
Qed.

Lemma processBatchPayments_marked (paymentIds : list Z) :
  Marked (processBatchPayments gw formatEther config paymentIds).
Proof.
  unfold processBatchPayments.
  repeat first [marked_step | apply sendWebhook_marked
               | apply processSinglePayment_marked].
Qed.

Lemma checkPayments_marked (ids acc : list Z) :
  Marked (checkPayments gw config ids acc).
Proof.
  revert acc. induction ids as [|id ids IH]; intros acc; simpl.
  - marked_step.
  - apply marked_bind; [|intros acc'; apply IH].
    unfold checkPayment.
    repeat first [marked_step | apply sendWebhook_marked].
Qed.

Lemma dispatch_marked (l : list Z) :
  Marked (dispatch gw formatEther config l).
Proof.
  unfold dispatch.
  repeat first [marked_step | apply processBatchPayments_marked
               | apply processSinglePayment_marked].
Qed.

End MarkedMethods.

(** ** The guard while a scan tick is suspended *)

Section GuardHeld.

Context {W : Type}.

(** The guarded function, with any body none of whose steps clears the
    guard: every request is awaited with the guard set, whatever runs while
    the function is suspended, as long as that leaves the guard alone. *)
Lemma guarded_tick_observed (rest : M W unit) (h : Error -> Line) :
  Marked rest ->
  exists marked :
    Prog unit
      (async
         (a <- this ;;
          (if isProcessing a then console LAlreadyProcessing ;; return_
           else ret tt) ;;
          try_finally
            (try_catch (set_isProcessing true ;; rest)
                       (fun e => console (h e)))
            (set_isProcessing false))),
    forall interference : St W -> St W,
      (forall s, isProcessing (fst (interference s)) = isProcessing (fst s)) ->
      forall a w,
        Forall (fun e => isProcessing (snd e) = true)
               (seen (observe interference marked (a, (w, [])))).
Proof.
  intros [p Hp].
  assert (S1 : synchronous (@this W)) by (intros s; reflexivity).
  assert (S2 : forall a : PaymentAgent,
             synchronous
               (if isProcessing a
                then console LAlreadyProcessing ;; @return_ W unit
                else ret tt))
    by (intros a s; destruct (isProcessing a); reflexivity).
  assert (S3 : synchronous (@set_isProcessing W true))
    by (intros s; reflexivity).
  assert (S4 : forall e, synchronous (@console W (h e)))
    by (intros e s; reflexivity).
  assert (S5 : synchronous (@set_isProcessing W false))
    by (intros s; reflexivity).
  exists
    (PAsync _
       (PBind _ _ _ _ (PStep _ _ S1)
          (fun a =>
             PBind _ _ _ _ (PStep _ _ (S2 a))
               (fun _ =>
                  PTryFinally _ _ _
                    (PTryCatch _ _ _
                       (PBind _ _ _ _ (PStep _ _ S3) (fun _ => p))
                       (fun e => PStep _ _ (S4 e)))
                    (PStep _ _ S5))))).
  intros interference Hint a w. cbn [observe].
  unfold seen, async, bind, try_finally, try_catch, step_observed, this.
  simpl. destruct (isProcessing a) eqn:Hguard; simpl; [constructor|].
  destruct (observe_guard interference Hint p Hp
              ({| isProcessing := true; retryQueue := retryQueue a |},
               (w, [])) eq_refl) as [_ [new [Hseen Hnew]]].
  unfold seen in Hseen.
  destruct (observe interference p
              ({| isProcessing := true; retryQueue := retryQueue a |},
               (w, []))) as [[c [a1 [w1 seen1]]] ev1].
  simpl in Hseen. subst seen1.
  destruct c as [u| | |e]; simpl; exact Hnew.
Qed.

End GuardHeld.

Section ScanTickMarked.

Context {W : Type}.
Variable gw : Gateway W.
Variable formatEther : Z -> string.
Variable parseEther : string -> result Z.
Variable address : string.
Variable config : Config.

(** The code of a scan tick between taking the guard and releasing it
    (lines 71-135). *)
Lemma scan_body_marked :
  Marked
    (console LChecking ;;
     activePaymentIds <- await ReqGetActivePaymentIds
                               (getActivePaymentIds gw) ;;
     console (LFoundActive (len activePaymentIds)) ;;
     (if len activePaymentIds =? 0 then return_ else ret tt) ;;
     processablePayments <- checkPayments gw config activePaymentIds [] ;;
     dispatch gw formatEther config processablePayments).
Proof.
  repeat first [marked_step | apply checkPayments_marked
               | apply dispatch_marked].
Qed.

(** A sequence of methods run to completion leaves the guard as it was. *)
Lemma run_ops_guard (l : list Op) (s : St W) :
  isProcessing
    (fst (fst (run_ops gw formatEther parseEther address config l s)))
  = isProcessing (fst s).
Proof.
  revert s. induction l as [|o l IH]; intros s; [reflexivity|].
  simpl.
  pose proof (run_op_guard gw formatEther parseEther address config o s)
    as Hg.
  unfold agent_of in Hg.
  destruct (run_op gw formatEther parseEther address config o s)
    as [[c s1] ev1].
  specialize (IH s1).
  destruct (run_ops gw formatEther parseEther address config l s1)
    as [s2 ev2].
  simpl in *. congruence.
Qed.

End ScanTickMarked.

(** C3.  A scan tick that begins while [isProcessing] is set returns at
    once: the promise resolves, the agent and the outside are unchanged, no
    request is issued (one console line is printed).  A scan tick that
    begins with the guard free resolves with the guard free again, whatever
    the outside answers; in particular on the early return on an empty
    list of active payments and when listing the active payments throws.
    In between the tick holds the guard.  With the awaits of the tick
    marked, and the agent's fields recorded at each of them (an observation
    that, undisturbed, is the tick itself and records exactly its requests),
    every request of the tick is awaited with the guard set, also when
    other code runs while the tick is suspended, as long as that code
    leaves the guard as it found it, which every sequence of methods of the
    agent run to completion does.  Hence a scan tick that begins while
    another one is suspended on a request returns at once: at most one scan
    is in progress. *)
Theorem checkAndProcessPayments_guard :
  forall (W : Type) (gw : Gateway W) (formatEther : Z -> string)
         (config : Config) (a : PaymentAgent) (w : W),
    (isProcessing a = true ->
     checkAndProcessPayments gw formatEther config (a, w)
     = (Normal tt, (a, w), [Console LAlreadyProcessing]))
    /\
    (isProcessing a = false ->
     let o := checkAndProcessPayments gw formatEther config (a, w) in
     completion_of o = Normal tt /\ isProcessing (agent_of o) = false)
    /\
    (isProcessing a = false ->
     forall w', getActivePaymentIds gw w = (Resolved [], w') ->
     checkAndProcessPayments gw formatEther config (a, w)
     = (Normal tt,
        ({| isProcessing := false; retryQueue := retryQueue a |}, w'),
        [Console LChecking; Call ReqGetActivePaymentIds;
         Console (LFoundActive 0)]))
    /\
    (isProcessing a = false ->
     forall e w', getActivePaymentIds gw w = (Rejected e, w') ->
     checkAndProcessPayments gw formatEther config (a, w)
     = (Normal tt,
        ({| isProcessing := false; retryQueue := retryQueue a |}, w'),
        [Console LChecking; Call ReqGetActivePaymentIds;
         Console (LErrorInCheck e)]))
    /\
    (exists marked : Prog unit (checkAndProcessPayments gw formatEther config),
        (forall a0 w0,
            forget (observe (fun s => s) marked (a0, (w0, [])))
            = checkAndProcessPayments gw formatEther config (a0, w0))
        /\
        (forall interference a0 w0,
            map fst (seen (observe interference marked (a0, (w0, []))))
            = requests
                (events_of (observe interference marked (a0, (w0, [])))))
        /\
        (forall interference : St W -> St W,
            (forall s,
                isProcessing (fst (interference s)) = isProcessing (fst s)) ->
            forall a0 w0,
              Forall
                (fun e =>
                   isProcessing (snd e) = true
                   /\ forall w',
                       checkAndProcessPayments gw formatEther config
                         (snd e, w')
                       = (Normal tt, (snd e, w'),
                          [Console LAlreadyProcessing]))
                (seen (observe interference marked (a0, (w0, []))))))
    /\
    (forall (parseEther : string -> result Z) (address : string)
            (l : list Op) (s : St W),
        isProcessing
          (fst (fst (run_ops gw formatEther parseEther address config l s)))
        = isProcessing (fst s)).
Proof.
  intros W gw formatEther config a w.
  assert (Hskip : forall a' w',
             isProcessing a' = true ->
             checkAndProcessPayments gw formatEther config (a', w')
             = (Normal tt, (a', w'), [Console LAlreadyProcessing])).
  { intros a' w' Hset. unfold checkAndProcessPayments.
    now apply guarded_tick_skipped. }
  split; [|split; [|split; [|split; [|split]]]].
  - apply Hskip.
  - intros Hfree.
    exact (guarded_tick_released _ LErrorInCheck a w Hfree).
  - intros Hfree w' Hids. unfold checkAndProcessPayments, async, bind, this,
      try_finally, try_catch, await.
    simpl. rewrite Hfree. simpl. rewrite Hids. reflexivity.
  - intros Hfree e w' Hids. unfold checkAndProcessPayments, async, bind, this,
      try_finally, try_catch, await.
    simpl. rewrite Hfree. simpl. rewrite Hids. reflexivity.
  - assert (Hex :
              exists marked :
                Prog unit (checkAndProcessPayments gw formatEther config),
                forall interference : St W -> St W,
                  (forall s,
                      isProcessing (fst (interference s))
                      = isProcessing (fst s)) ->
                  forall a0 w0,
                    Forall (fun e => isProcessing (snd e) = true)
                           (seen (observe interference marked
                                    (a0, (w0, [])))))
      by exact (guarded_tick_observed _ LErrorInCheck
                  (scan_body_marked gw formatEther config)).
    destruct Hex as [marked Hheld].
    exists marked. split; [|split].
    + intros a0 w0.
      match goal with |- forget (observe _ marked ?s0) = _ =>
        exact (observe_forget marked s0) end.
    + intros interference a0 w0.
      match goal with |- context [observe interference marked ?s0] =>
        destruct (observe_requests interference marked s0)
          as [new [Hseen Hreq]] end.
      rewrite Hseen. exact Hreq.
    + intros interference Hint a0 w0.
      specialize (Hheld interference Hint a0 w0).
      rewrite Forall_forall in *. intros e He. split; [now apply Hheld|].
      intros w'. apply Hskip. now apply Hheld.
  - intros parseEther address l s. apply run_ops_guard.
Qed.

(** The guard at work on a healthy outside: a tick entered with the guard
    set does nothing, a tick entered with the guard free releases it. *)
Lemma checkAndProcessPayments_guard_witness :
  let busy := {| isProcessing := true; retryQueue := [("7", 1)] |} in
  checkAndProcessPayments Scenario.healthy Scenario.format_wei
    Scenario.config_default (busy, tt)
  = (Normal tt, (busy, tt), [Console LAlreadyProcessing])
  /\
  (let o := checkAndProcessPayments Scenario.healthy Scenario.format_wei
              Scenario.config_default (new_PaymentAgent, tt) in
   completion_of o = Normal tt /\ isProcessing (agent_of o) = false).
Proof.
  intros busy. split.
  - apply (proj1 (checkAndProcessPayments_guard unit Scenario.healthy
                    Scenario.format_wei Scenario.config_default busy tt)).
    reflexivity.
  - apply (proj1 (proj2 (checkAndProcessPayments_guard unit Scenario.healthy
                    Scenario.format_wei Scenario.config_default
                    new_PaymentAgent tt))).
    reflexivity.
Defined.
